(** * obsidian-zotero-bridge: identifier normalisation and resolvers

    A shallow embedding of [zotero-utils.ts] (the identifier normaliser) and
    of the resolver methods of [main.ts], with the properties stated of them.

    Strings.  A JavaScript string is a sequence of UTF-16 code units.  The
    embedding uses [string], reading each [ascii] as the code unit of the
    same number (U+0000 to U+00FF, the Basic Latin and Latin-1 blocks).  On
    that range every string primitive below is the ECMAScript one, code unit
    for code unit; strings with code units above U+00FF are not in the
    model, except for the split of an incoming title, which is also given
    on all code units ([titleTokensOfUnits]). *)

From Stdlib Require Import String Ascii List ZArith Lia Bool DecimalString.
From Stdlib Require DecimalNat DecimalFacts DecimalPos DecimalN.
From stdpp Require Import base option list strings gmap.

(** ** Code units and their classes *)

Module Char.

Definition code (c : ascii) : nat := nat_of_ascii c.

Definition between (lo hi : nat) (c : ascii) : bool :=
  (lo <=? code c)%nat && (code c <=? hi)%nat.

(** [\d]: the ten ASCII digits. *)
Definition is_digit (c : ascii) : bool := between 48 57 c.

Definition is_upper (c : ascii) : bool := between 65 90 c.
Definition is_lower (c : ascii) : bool := between 97 122 c.

(** [[A-Za-z0-9]].  Under the [i] flag without the [u] flag a code unit is
    compared after Canonicalize, which upper-cases it unless that leaves
    the ASCII range or enters it; so no code unit outside ASCII matches an
    ASCII letter, and the class is the same with and without the flag. *)
Definition is_alnum (c : ascii) : bool :=
  is_upper c || is_lower c || is_digit c.

(** WhiteSpace and LineTerminator below U+0100: TAB, LF, VT, FF, CR, SP,
    NBSP.  This is what [String.prototype.trim] strips and [\s] matches. *)
Definition is_space (c : ascii) : bool :=
  between 9 13 c || (code c =? 32)%nat || (code c =? 160)%nat.

(** LineTerminator below U+0100: the code units [.] does not match. *)
Definition is_line_terminator (c : ascii) : bool :=
  (code c =? 10)%nat || (code c =? 13)%nat.

Definition shift (k : nat) (c : ascii) : ascii := ascii_of_nat (code c + k).
Definition unshift (k : nat) (c : ascii) : ascii := ascii_of_nat (code c - k).

(** The lower-case mapping of one code unit: A-Z, and in Latin-1 the
    letters U+00C0..U+00DE except the multiplication sign U+00D7. *)
Definition toLower (c : ascii) : ascii :=
  if is_upper c then shift 32 c
  else if between 192 222 c && negb (code c =? 215)%nat then shift 32 c
  else c.

(** Canonicalize of the [i] flag, restricted to what an ASCII pattern
    character can observe: ASCII letters are upper-cased. *)
Definition canonicalize (c : ascii) : ascii :=
  if is_lower c then unshift 32 c else c.

(** A pattern character [p] of a case-insensitive regular expression
    matches the code unit [c]. *)
Definition eqb_ci (p c : ascii) : bool :=
  Ascii.eqb (canonicalize p) (canonicalize c).

(** [\p{L}] or [\p{N}] below U+0100: the ASCII letters and digits, the
    ordinal indicators and micro sign, superscript digits, vulgar
    fractions, and the Latin-1 letters. *)
Definition is_letter_or_number (c : ascii) : bool :=
  is_alnum c
  || (code c =? 170)%nat || (code c =? 181)%nat || (code c =? 186)%nat
  || (code c =? 178)%nat || (code c =? 179)%nat || (code c =? 185)%nat
  || between 188 190 c
  || (between 192 255 c && negb (code c =? 215)%nat && negb (code c =? 247)%nat).

End Char.

(** ** String primitives *)

Module JS.

Definition isEmpty (s : string) : bool :=
  match s with EmptyString => true | String _ _ => false end.

Fixpoint all (p : ascii -> bool) (s : string) : bool :=
  match s with
  | EmptyString => true
  | String c s' => p c && all p s'
  end.

Fixpoint map (f : ascii -> ascii) (s : string) : string :=
  match s with
  | EmptyString => EmptyString
  | String c s' => String (f c) (map f s')
  end.

Fixpoint trimStart (s : string) : string :=
  match s with
  | String c s' => if Char.is_space c then trimStart s' else s
  | EmptyString => EmptyString
  end.

Fixpoint trimEnd (s : string) : string :=
  match s with
  | String c s' =>
      let r := trimEnd s' in
      if Char.is_space c && isEmpty r then EmptyString else String c r
  | EmptyString => EmptyString
  end.

(** [String.prototype.trim] *)
Definition trim (s : string) : string := trimEnd (trimStart s).

(** [String.prototype.toLowerCase]; below U+0100 the mapping is code unit
    by code unit and has no context-sensitive case. *)
Definition toLowerCase (s : string) : string := map Char.toLower s.

(** [String.prototype.startsWith] *)
Fixpoint startsWith (s p : string) {struct p} : bool :=
  match p with
  | EmptyString => true
  | String a p' =>
      match s with
      | String c s' => Ascii.eqb c a && startsWith s' p'
      | EmptyString => false
      end
  end.

(** [String.prototype.includes]: [t] occurs in [s] as a substring. *)
Fixpoint includes (s t : string) : bool :=
  startsWith s t ||
  match s with
  | String _ s' => includes s' t
  | EmptyString => false
  end.

End JS.

(** ** Regular-expression building blocks

    Every pattern of the source is anchored and each of its quantifiers is
    followed by a character outside the quantified class (or by the end of
    input), so the backtracking matcher has one way to match at most and a
    left-to-right scan computes it. *)

Module Re.

(** A literal, compared case-insensitively; returns what follows it. *)
Fixpoint lit (p s : string) {struct p} : option string :=
  match p with
  | EmptyString => Some s
  | String a p' =>
      match s with
      | String c s' => if Char.eqb_ci a c then lit p' s' else None
      | EmptyString => None
      end
  end.

(** The longest prefix in the class [cls], and the rest. *)
Fixpoint span (cls : ascii -> bool) (s : string) : string * string :=
  match s with
  | String c s' =>
      if cls c then let '(a, b) := span cls s' in (String c a, b)
      else (EmptyString, s)
  | EmptyString => (EmptyString, EmptyString)
  end.

(** [(cls+)]: one or more, greedy. *)
Definition many1 (cls : ascii -> bool) (s : string) : option (string * string) :=
  let '(a, b) := span cls s in
  if JS.isEmpty a then None else Some (a, b).

(** [$]: the end of input (no [m] flag). *)
Definition eoi (s : string) : option unit :=
  if JS.isEmpty s then Some tt else None.

(** The text [lit p] consumed: the first [length p] code units of [s]. *)
Fixpoint taken (p s : string) : string :=
  match p, s with
  | String _ p', String c s' => String c (taken p' s')
  | _, _ => EmptyString
  end.

(** [(p)]: a captured case-insensitive literal. *)
Definition cap (p s : string) : option (string * string) :=
  rest ← lit p s; Some (taken p s, rest).

End Re.

(** ** zotero-utils.ts: normalizeZoteroSelectPath *)

(** [/^zotero:\/\/select\/(.+)$/i] *)
Definition schemeMatch (s : string) : option string :=
  rest ← Re.lit "zotero://select/" s;
  if negb (JS.isEmpty rest) && JS.all (fun c => negb (Char.is_line_terminator c)) rest
  then Some rest else None.

(** [/^https?:\/\/zotero\.org\/(users|groups)\/(\d+)\/items\/([A-Za-z0-9]+)$/i];
    the captures are scope, scopeId and key. *)
Definition urlMatch (s : string) : option (string * string * string) :=
  r ← Re.lit "http" s;
  let r := default r (Re.lit "s" r) in
  r ← Re.lit "://zotero.org/" r;
  '(scope, r) ← (match Re.cap "users" r with
                 | Some m => Some m
                 | None => Re.cap "groups" r
                 end);
  r ← Re.lit "/" r;
  '(scopeId, r) ← Re.many1 Char.is_digit r;
  r ← Re.lit "/items/" r;
  '(key, r) ← Re.many1 Char.is_alnum r;
  _ ← Re.eoi r;
  Some (scope, scopeId, key).

(** [/^groups\/(\d+)\/items\/([A-Za-z0-9]+)$/i] *)
Definition groupsMatch (s : string) : option (string * string) :=
  r ← Re.lit "groups/" s;
  '(gid, r) ← Re.many1 Char.is_digit r;
  r ← Re.lit "/items/" r;
  '(key, r) ← Re.many1 Char.is_alnum r;
  _ ← Re.eoi r;
  Some (gid, key).

(** [/^library\/items\/([A-Za-z0-9]+)$/i] *)
Definition libraryMatch (s : string) : option string :=
  r ← Re.lit "library/items/" s;
  '(key, r) ← Re.many1 Char.is_alnum r;
  _ ← Re.eoi r;
  Some key.

(** [/^(\d+)_([A-Za-z0-9]+)$/i] *)
Definition bareMatch (s : string) : option (string * string) :=
  '(libraryId, r) ← Re.many1 Char.is_digit s;
  r ← Re.lit "_" r;
  '(key, r) ← Re.many1 Char.is_alnum r;
  _ ← Re.eoi r;
  Some (libraryId, key).

(** [/^items\/(\d+)_([A-Za-z0-9]+)$/i] *)
Definition bareItemsMatch (s : string) : option (string * string) :=
  r ← Re.lit "items/" s;
  bareMatch r.

(** [/^([A-Za-z0-9]+)$/i] *)
Definition simpleKeyMatch (s : string) : option string :=
  '(key, r) ← Re.many1 Char.is_alnum s;
  _ ← Re.eoi r;
  Some key.

Definition groupsPath (gid key : string) : string :=
  "groups/" +:+ gid +:+ "/items/" +:+ key.

Definition libraryPath (key : string) : string :=
  "library/items/" +:+ key.

(** The two branches shared by the [items/<N>_<KEY>] and [<N>_<KEY>] rules. *)
Definition byLibraryId (libraryId key : string) : string :=
  if String.eqb libraryId "0" then libraryPath key else groupsPath libraryId key.

(** The patterns in the order the source tries them, on the trimmed text. *)
Definition recognize (trimmed : string) : option string :=
  match schemeMatch trimmed with
  | Some rest => Some rest
  | None =>
  match urlMatch trimmed with
  | Some (scope, scopeId, key) =>
      if String.eqb (JS.toLowerCase scope) "groups"
      then Some (groupsPath scopeId key)
      else Some (libraryPath key)
  | None =>
  match groupsMatch trimmed with
  | Some (gid, key) => Some (groupsPath gid key)
  | None =>
  match libraryMatch trimmed with
  | Some key => Some (libraryPath key)
  | None =>
  match bareItemsMatch trimmed with
  | Some (libraryId, key) => Some (byLibraryId libraryId key)
  | None =>
  match bareMatch trimmed with
  | Some (libraryId, key) => Some (byLibraryId libraryId key)
  | None =>
  match simpleKeyMatch trimmed with
  | Some key => Some (libraryPath key)
  | None => None
  end end end end end end end.

Definition normalizeZoteroSelectPath (rawId : string) : option string :=
  if JS.isEmpty rawId then None else
  let trimmed := JS.trim rawId in
  if JS.isEmpty trimmed then None else
  recognize trimmed.

(** ** Values

    The data the bridge receives from the YAML header reader and from the
    JSON-RPC response: what [unknown] ranges over in the source. *)

(** The integers whose text [String] gives digit for digit: those of
    magnitude below 2^53 ([Number.isSafeInteger]). *)
Definition isSafeInteger (z : Z) : bool := (Z.abs z <? 2 ^ 53)%Z.

(** A number (an IEEE double) as this code can observe it: through
    [typeof], [Number.isFinite], truthiness and its conversion to a string.
    [NumInt z _] is the safe integer [z], whose text is its decimal numeral
    (both zeros are [NumInt 0 _], which print alike); the second argument
    is the evidence that [z] is one.  [NumOther r] is any other finite
    double, a fraction or an integer of larger magnitude, carried by its
    [Number::toString] text [r], which determines it: 2^69 is
    [NumOther "590295810358705700000"]. *)
Inductive number :=
| NumInt (z : Z) (safe : Is_true (isSafeInteger z))
| NumOther (repr : string)
| NumNaN
| NumInf (negative : bool).

#[warnings="-register-all"]
Inductive value :=
| VUndefined
| VNull
| VBool (b : bool)
| VNum (n : number)
| VStr (s : string)
| VArr (items : list value)
| VObj (props : list (string * value)).

(** [Record<string, unknown> | null | undefined]: the entries of the object
    in [Object.entries] order; [None] stands for [null] and [undefined]. *)
Definition Frontmatter := option (list (string * value)).

Module Num.

(** [Number.isFinite] *)
Definition isFinite (n : number) : bool :=
  match n with
  | NumInt _ _ | NumOther _ => true
  | NumNaN | NumInf _ => false
  end.

(** [String(n)], also what a template literal inserts. *)
Definition toString (n : number) : string :=
  match n with
  | NumInt z _ => NilZero.string_of_int (Z.to_int z)
  | NumOther r => r
  | NumNaN => "NaN"
  | NumInf false => "Infinity"
  | NumInf true => "-Infinity"
  end.

Definition isZero (n : number) : bool :=
  match n with NumInt z _ => Z.eqb z 0 | _ => false end.

(** The number an integer is, when it is a safe one. *)
Definition ofInteger (z : Z) : option number :=
  (if isSafeInteger z as b return (Is_true b -> number) -> option number
   then fun make => Some (make I)
   else fun _ => None) (NumInt z).

End Num.

Module Val.

(** ToBoolean *)
Definition truthy (v : value) : bool :=
  match v with
  | VUndefined | VNull => false
  | VBool b => b
  | VNum NumNaN => false
  | VNum n => negb (Num.isZero n)
  | VStr s => negb (JS.isEmpty s)
  | VArr _ | VObj _ => true
  end.

(** [a || b] *)
Definition or (a b : value) : value := if truthy a then a else b.

(** [a ?? b] *)
Definition nullish (a b : value) : value :=
  match a with VUndefined | VNull => b | _ => a end.

(** [typeof v === 'object'] for a truthy [v]. *)
Definition isObject (v : value) : bool :=
  match v with VArr _ | VObj _ => true | _ => false end.

Fixpoint assoc (k : string) (ps : list (string * value)) : value :=
  match ps with
  | [] => VUndefined
  | (k', v) :: ps' => if String.eqb k' k then v else assoc k ps'
  end.

Definition indexKey (i : nat) : string :=
  NilZero.string_of_uint (Nat.to_uint i).

Fixpoint indexed (i : nat) (items : list value) : list (string * value) :=
  match items with
  | [] => []
  | v :: items' => (indexKey i, v) :: indexed (S i) items'
  end.

(** The own enumerable string-keyed properties, as [Object.entries] lists
    them: the entries of an object, the indices of an array. *)
Definition entries (v : value) : list (string * value) :=
  match v with
  | VObj ps => ps
  | VArr items => indexed 0 items
  | _ => []
  end.

(** [record[k]] on an object or array. *)
Definition get (v : value) (k : string) : value := assoc k (entries v).

End Val.

(** [frontmatter?.[k]] *)
Definition fmGet (fm : Frontmatter) (k : string) : value :=
  match fm with
  | None => VUndefined
  | Some ps => Val.assoc k ps
  end.

(** ** zotero-utils.ts: citation keys *)

Definition citekeyFields : gset string :=
  {[ "citekey"; "cite-key"; "zotero-key"; "zotero_key"; "zoterokey";
     "bbt-citekey"; "bbt_citekey"; "better-bibtex-citekey";
     "betterbibtexcitekey" ]}.

Definition isCitekeyField (key : string) : bool :=
  bool_decide (key ∈ citekeyFields).

Definition stripAt (trimmed : string) : string :=
  match trimmed with
  | String "@"%char rest => rest
  | _ => trimmed
  end.

Definition normalizeCitekey (raw : value) : option string :=
  let raw := match raw with VNum n => VStr (Num.toString n) | _ => raw end in
  match raw with
  | VStr s =>
      let trimmed := JS.trim s in
      if JS.isEmpty trimmed then None else
      let withoutAt := stripAt trimmed in
      if JS.isEmpty withoutAt then None else
      Some (JS.toLowerCase withoutAt)
  | _ => None
  end.

(** [bucket.includes(x)] *)
Definition bucketIncludes (bucket : list string) (x : string) : bool :=
  existsb (String.eqb x) bucket.

(** The body shared by both branches of [collectNormalizedValues]; the
    bucket the source mutates is passed in and returned. *)
Definition pushNormalized (bucket : list string) (entry : value) : list string :=
  match normalizeCitekey entry with
  | Some normalized =>
      if negb (JS.isEmpty normalized) && negb (bucketIncludes bucket normalized)
      then bucket ++ [normalized]
      else bucket
  | None => bucket
  end.

Definition collectNormalizedValues (rawValue : value) (bucket : list string)
  : list string :=
  match rawValue with
  | VArr items => fold_left pushNormalized items bucket
  | _ => pushNormalized bucket rawValue
  end.

Definition collectField (keys : list string) (field : string * value)
  : list string :=
  let '(rawKey, rawValue) := field in
  let key := JS.toLowerCase (JS.trim rawKey) in
  if isCitekeyField key then collectNormalizedValues rawValue keys else keys.

Definition collectNormalizedCitekeys (frontmatter : Frontmatter) : list string :=
  match frontmatter with
  | None => []
  | Some fields => fold_left collectField fields []
  end.

(** ** zotero-utils.ts: title matching *)

Definition extractTitleFromEntry (entry : value) : option string :=
  if negb (Val.truthy entry) || negb (Val.isObject entry) then None else
  match Val.get entry "title" with
  | VStr title =>
      let trimmed := JS.trim title in
      if JS.isEmpty trimmed then None else Some trimmed
  | _ => None
  end.

Fixpoint findTitleMatch (entries : list value) (terms : list string)
  : option value :=
  match entries with
  | [] => None
  | entry :: rest =>
      match extractTitleFromEntry entry with
      | None => findTitleMatch rest terms
      | Some title =>
          if JS.isEmpty title then findTitleMatch rest terms else
          match terms with
          | [] => Some entry
          | _ :: _ =>
              let lowerTitle := JS.toLowerCase title in
              if forallb (fun term => JS.includes lowerTitle term) terms
              then Some entry
              else findTitleMatch rest terms
          end
      end
  end.

(** ** main.ts: effects, notes and text helpers *)

Definition CR : ascii := "013"%char.
Definition LF : ascii := "010"%char.

(** What a run of the resolvers does to the outside, in order. *)
Inductive notice :=
| OpeningItem (citekey : value)
| CitekeyNotFound (citekey : value)
| SearchingTitle (cleanTitle : string)
| FoundByTitle
| NoMatchingItem.

Inductive effect :=
| Request (query : value)
| WindowOpen (url : string)
| Notify (n : notice)
| CachedRead
| ParseYaml (text : string).

(** A note as the vault holds it: its display name, the header the metadata
    cache has indexed for it, and what reading its content gives ([None]
    when the read fails). *)
Record TFile := {
  basename : string;
  cachedFrontmatter : Frontmatter;
  content : option string
}.

(** [Array.from(new Set(l))]: first occurrences, in order. *)
Definition setAdd (acc : list string) (x : string) : list string :=
  if bucketIncludes acc x then acc else acc ++ [x].

Definition uniq (l : list string) : list string := fold_left setAdd l [].

(** [title.replace(/[^\p{L}\p{N}]+/gu, " ")]; [inRun] says the previous
    code unit belonged to the run being replaced. *)
Fixpoint cleanRuns (inRun : bool) (s : string) : string :=
  match s with
  | EmptyString => EmptyString
  | String c s' =>
      if Char.is_letter_or_number c then String c (cleanRuns false s')
      else if inRun then cleanRuns true s'
      else String " "%char (cleanRuns true s')
  end.

Definition cleanTitleOf (title : string) : string := cleanRuns false title.

(** [s.split(/\s+/)]; [inSep] says the previous code unit was whitespace. *)
Fixpoint splitSpaces (inSep : bool) (s : string) : list string :=
  match s with
  | EmptyString => [EmptyString]
  | String c s' =>
      if Char.is_space c then
        if inSep then splitSpaces true s'
        else EmptyString :: splitSpaces true s'
      else
        match splitSpaces false s' with
        | field :: fields => String c field :: fields
        | [] => [String c EmptyString]
        end
  end.

Definition nonEmpty (s : string) : bool := negb (JS.isEmpty s).

(** [\r?\n---] at the head of [s]. *)
Definition closesAt (s : string) : bool :=
  JS.startsWith s (String CR (String LF "---"))
  || JS.startsWith s (String LF "---").

(** [([\s\S]*?)\r?\n---]: the lazy star takes the shortest text that a
    closing line follows. *)
Fixpoint lazyBody (s : string) : option string :=
  if closesAt s then Some EmptyString else
  match s with
  | String c s' => String c <$> lazyBody s'
  | EmptyString => None
  end.

(** [\r?\n([\s\S]*?)\r?\n---] at the head of [s]; when [\r?] has taken a CR
    and the rest fails, the retry without it needs [\n] where the CR is. *)
Definition lineBreakThenBody (s : string) : option string :=
  match s with
  | String c s' =>
      if Ascii.eqb c CR then
        match s' with
        | String c' s'' => if Ascii.eqb c' LF then lazyBody s'' else None
        | EmptyString => None
        end
      else if Ascii.eqb c LF then lazyBody s'
      else None
  | EmptyString => None
  end.

(** [\s*\r?\n([\s\S]*?)\r?\n---]: the greedy [\s*] first takes the next
    whitespace, and gives it back when the rest does not match. *)
Fixpoint afterOpen (s : string) : option string :=
  match s with
  | String c s' =>
      if Char.is_space c then
        match afterOpen s' with
        | Some body => Some body
        | None => lineBreakThenBody s
        end
      else None
  | EmptyString => None
  end.

(** [content.match(/^---\s*\r?\n([\s\S]*?)\r?\n---/)], capture 1. *)
Definition frontmatterBlock (content : string) : option string :=
  r ← Re.lit "---" content; afterOpen r.

(** ** Collaborators of the host

    What the code reaches through the host applications' APIs is taken as a
    parameter: the [Number(...)] conversion of a string, the YAML parser of
    the note application, and the reference manager's JSON-RPC endpoint. *)

Section Host.

(** [Number(s)] for a string [s] (StringToNumber). *)
Variable Number_ofString : string -> number.

(** [parseYaml(text)]; [None] when it throws. *)
Variable parseYaml : string -> option value.

(** The [result] array answered to an [item.search] request with this
    parameter; empty when the request fails or answers no array. *)
Variable itemSearch : value -> list value.

(** *** zotero-utils.ts: extractZoteroSelectPath *)

Definition extractNumericId (v : value) : option number :=
  match v with
  | VNum n => if Num.isFinite n then Some n else None
  | VStr s =>
      let parsed := Number_ofString s in
      if Num.isFinite parsed then Some parsed else None
  | _ => None
  end.

Definition extractZoteroSelectPath (entry : value) : option string :=
  if negb (Val.truthy entry) then None else
  match entry with
  | VStr s => normalizeZoteroSelectPath s
  | VArr _ | VObj _ =>
      let byKey :=
        match Val.or (Val.get entry "key") (Val.get entry "itemKey") with
        | VStr keyValue =>
            match extractNumericId
                    (Val.nullish (Val.get entry "groupID") (Val.get entry "groupId")) with
            | Some groupId => Some (groupsPath (Num.toString groupId) keyValue)
            | None => Some (libraryPath keyValue)
            end
        | _ => None
        end in
      match Val.get entry "id" with
      | VStr idValue =>
          match normalizeZoteroSelectPath idValue with
          | Some normalized => if nonEmpty normalized then Some normalized else byKey
          | None => byKey
          end
      | _ => byKey
      end
  | _ => None
  end.

(** *** main.ts: the outbound resolver *)

Definition queryZoteroBBT (query : value) : list value * list effect :=
  (itemSearch query, [Request query]).

Definition searchZoteroByBBT (query : value) : option string * list effect :=
  let '(results, t) := queryZoteroBBT query in
  match results with
  | first :: _ => (extractZoteroSelectPath first, t)
  | [] => (None, t)
  end.

(** The loop of [searchByTitle] over the remaining queries. *)
Fixpoint searchQueries (queries : list string) (normalizedTerms : list string)
  : option string * list effect :=
  match queries with
  | [] => (None, [])
  | query :: rest =>
      let '(candidates, t) := queryZoteroBBT (VStr query) in
      match findTitleMatch candidates normalizedTerms with
      | Some m =>
          if Val.truthy m then (extractZoteroSelectPath m, t)
          else let '(r, t') := searchQueries rest normalizedTerms in (r, t ++ t')
      | None =>
          let '(r, t') := searchQueries rest normalizedTerms in (r, t ++ t')
      end
  end.

Definition searchByTitle (cleanTitle : string) : option string * list effect :=
  let terms := filter (fun t => nonEmpty t) (splitSpaces false cleanTitle) in
  let normalizedTerms := JS.toLowerCase <$> terms in
  let queries := filter (fun q => nonEmpty q) (uniq (cleanTitle :: terms)) in
  searchQueries queries normalizedTerms.

(** Plan B of [openInZotero]. *)
Definition titleFallback (file : TFile) : list effect :=
  let cleanTitle := cleanTitleOf (basename file) in
  let '(selectPathByTitle, t) := searchByTitle cleanTitle in
  [Notify (SearchingTitle cleanTitle)] ++ t ++
  match selectPathByTitle with
  | Some p =>
      if nonEmpty p
      then [WindowOpen ("zotero://select/" +:+ p); Notify FoundByTitle]
      else [Notify NoMatchingItem]
  | None => [Notify NoMatchingItem]
  end.

Definition openInZotero (file : TFile) : list effect :=
  let frontmatter := cachedFrontmatter file in
  let citekey := Val.or (fmGet frontmatter "citekey") (fmGet frontmatter "zotero-key") in
  if Val.truthy citekey then
    let '(selectPath, t) := searchZoteroByBBT citekey in
    match selectPath with
    | Some p =>
        if nonEmpty p
        then t ++ [WindowOpen ("zotero://select/" +:+ p); Notify (OpeningItem citekey)]
        else t ++ [Notify (CitekeyNotFound citekey)] ++ titleFallback file
    | None => t ++ [Notify (CitekeyNotFound citekey)] ++ titleFallback file
    end
  else titleFallback file.

(** *** main.ts: the citekeys of a note *)

Definition extractFrontmatter (content : string) : Frontmatter * list effect :=
  if negb (JS.startsWith content "---") then (None, []) else
  match frontmatterBlock content with
  | None => (None, [])
  | Some text =>
      match parseYaml text with
      | Some parsed =>
          (if Val.truthy parsed && Val.isObject parsed
           then Some (Val.entries parsed) else None,
           [ParseYaml text])
      | None => (None, [ParseYaml text])
      end
  end.

Definition getNormalizedCitekeys (file : TFile) : list string * list effect :=
  let cacheCitekeys := collectNormalizedCitekeys (cachedFrontmatter file) in
  if (0 <? length cacheCitekeys)%nat then (cacheCitekeys, []) else
  match content file with
  | Some text =>
      let '(extracted, t) := extractFrontmatter text in
      (collectNormalizedCitekeys extracted, CachedRead :: t)
  | None => ([], [CachedRead])
  end.

End Host.

(** ** Vocabulary of the statements *)

(** [s] is the literal [p] up to the case of ASCII letters. *)
Fixpoint ciEq (p s : string) : bool :=
  match p, s with
  | EmptyString, EmptyString => true
  | String a p', String c s' => Char.eqb_ci a c && ciEq p' s'
  | _, _ => false
  end.

(** The first code unit of [s], if any, is outside the class. *)
Definition headNot (cls : ascii -> bool) (s : string) : bool :=
  match s with
  | EmptyString => true
  | String c _ => negb (cls c)
  end.

(** The last code unit of [s], if any, is outside the class. *)
Fixpoint lastNot (cls : ascii -> bool) (s : string) : bool :=
  match s with
  | EmptyString => true
  | String c EmptyString => negb (cls c)
  | String _ s' => lastNot cls s'
  end.

(** The characters of the aliases: lower-case letters, hyphen, underscore. *)
Definition aliasChar (a : ascii) : bool :=
  Char.is_lower a || Ascii.eqb a "-" || Ascii.eqb a "_".

(** [<N>]: a non-empty string of digits. *)
Definition isNum (n : string) : bool := nonEmpty n && JS.all Char.is_digit n.

(** [<KEY>]: a non-empty string of ASCII letters and digits. *)
Definition isKey (k : string) : bool := nonEmpty k && JS.all Char.is_alnum k.

Definition notLineTerminator (c : ascii) : bool := negb (Char.is_line_terminator c).

(** [https?://zotero.org/], in any letter case. *)
Definition isUrlPrefix (p : string) : Prop :=
  ciEq "http://zotero.org/" p = true \/ ciEq "https://zotero.org/" p = true.

(** [(users|groups)], in any letter case. *)
Definition isScope (scope : string) : Prop :=
  ciEq "users" scope = true \/ ciEq "groups" scope = true.

(** A SelectPath of the data model: [library/items/<KEY>] or
    [groups/<N>/items/<KEY>]. *)
Inductive SelectPath : string -> Prop :=
| SelectLibrary key : isKey key = true -> SelectPath (libraryPath key)
| SelectGroups n key :
    isNum n = true -> isKey key = true -> SelectPath (groupsPath n key).

(** The six recognised shapes of a trimmed raw identifier, each with the
    path it stands for. *)
Inductive Shape : string -> string -> Prop :=
| ShScheme p rest :
    ciEq "zotero://select/" p = true ->
    nonEmpty rest = true -> JS.all notLineTerminator rest = true ->
    Shape (p +:+ rest) rest
| ShUrlGroups p scope n items key :
    isUrlPrefix p ->
    ciEq "groups" scope = true ->
    isNum n = true -> ciEq "/items/" items = true -> isKey key = true ->
    Shape (p +:+ scope +:+ "/" +:+ n +:+ items +:+ key) (groupsPath n key)
| ShUrlUsers p scope n items key :
    isUrlPrefix p ->
    ciEq "users" scope = true ->
    isNum n = true -> ciEq "/items/" items = true -> isKey key = true ->
    Shape (p +:+ scope +:+ "/" +:+ n +:+ items +:+ key) (libraryPath key)
| ShGroups p n items key :
    ciEq "groups/" p = true -> isNum n = true ->
    ciEq "/items/" items = true -> isKey key = true ->
    Shape (p +:+ n +:+ items +:+ key) (groupsPath n key)
| ShLibrary p key :
    ciEq "library/items/" p = true -> isKey key = true ->
    Shape (p +:+ key) (libraryPath key)
| ShItems p n key :
    ciEq "items/" p = true -> isNum n = true -> isKey key = true ->
    Shape (p +:+ n +:+ "_" +:+ key) (byLibraryId n key)
| ShBare n key :
    isNum n = true -> isKey key = true ->
    Shape (n +:+ "_" +:+ key) (byLibraryId n key)
| ShKey key :
    isKey key = true -> Shape key (libraryPath key).

(** The elements of a header value, a scalar standing for the list of it. *)
Definition elements (v : value) : list value :=
  match v with
  | VArr items => items
  | _ => [v]
  end.

(** The canonical keys a header field declares, in order, absent ones
    dropped; none when the field's name is not one of the aliases. *)
Definition declaredByField (field : string * value) : list string :=
  if isCitekeyField (JS.toLowerCase (JS.trim field.1))
  then omap normalizeCitekey (elements field.2)
  else [].

(** The canonical keys a header declares, in order of appearance and with
    their repetitions. *)
Definition declaredKeys (frontmatter : Frontmatter) : list string :=
  match frontmatter with
  | None => []
  | Some fields => flat_map declaredByField fields
  end.

(** A list without its repetitions: every element stays where it first
    appears. *)
Fixpoint firstOccurrences (l : list string) : list string :=
  match l with
  | [] => []
  | x :: l' => x :: filter (λ y, y ≠ x) (firstOccurrences l')
  end.

(** A host name: no slash in it. *)
Definition isHostName (h : string) : bool :=
  JS.all (fun c => negb (Ascii.eqb c "/")) h.

(** [http://] or [https://], in any letter case. *)
Definition isWebScheme (p : string) : Prop :=
  ciEq "http://" p = true \/ ciEq "https://" p = true.

(** Two literals agree, letter case aside, as far as both reach: both can
    match the beginning of one text. *)
Fixpoint ciCompatible (p p' : string) : bool :=
  match p, p' with
  | String a q, String b q' =>
      Ascii.eqb (Char.canonicalize a) (Char.canonicalize b) && ciCompatible q q'
  | _, _ => true
  end.

(** The value of a run of decimal digits, most significant first, after
    the value [acc] of the digits before it; none when a code unit is no
    digit. *)
Fixpoint digitsValue (acc : Z) (s : string) : option Z :=
  match s with
  | EmptyString => Some acc
  | String c s' =>
      if Char.is_digit c
      then digitsValue (10 * acc + (Z.of_nat (Char.code c) - 48)) s'
      else None
  end.

(** [s] is the decimal numeral of the natural number [z]: a non-empty run
    of digits with that value, without a leading zero unless it is [0]. *)
Definition isNumeralOf (z : Z) (s : string) : Prop :=
  isNum s = true
  /\ (s = "0" \/ JS.startsWith s "0" = false)
  /\ digitsValue 0 s = Some z.

(** [s] is the decimal text of the integer [z]: its numeral, after a
    minus sign when [z] is negative. *)
Definition isDecimalOf (z : Z) (s : string) : Prop :=
  if (z <? 0)%Z then exists d, s = "-" +:+ d /\ isNumeralOf (- z) d
  else isNumeralOf z s.

(** A candidate record with no usable direct id, whose key lookup
    [key || itemKey] is the string [k] and whose group-scope lookup
    [groupID ?? groupId] is the value [g]. *)
Definition KeyedRecord (entry : value) (k : string) (g : value) : Prop :=
  Val.isObject entry = true
  /\ (forall s, Val.get entry "id" = VStr s -> normalizeZoteroSelectPath s = None)
  /\ Val.or (Val.get entry "key") (Val.get entry "itemKey") = VStr k
  /\ Val.nullish (Val.get entry "groupID") (Val.get entry "groupId") = g.

(** An instance of the [Number(s)] parameter for the closed examples: it
    reads an empty or whitespace-only text as 0 and an optionally negated
    run of decimal digits that stands for a safe integer as that integer,
    as [Number] does; any other text it reads as NaN. *)
Definition integerOfString (s : string) : number :=
  let t := JS.trim s in
  if JS.isEmpty t then NumInt 0 I else
  match NilZero.int_of_string t with
  | Some i => default NumNaN (Num.ofInteger (Z.of_int i))
  | None => NumNaN
  end.

(** An instance of the [parseYaml] parameter for the closed examples: it
    reads the one-line header [title: Notes] and rejects any other text. *)
Definition titleOnlyYaml (text : string) : option value :=
  if String.eqb text "title: Notes"
  then Some (VObj [("title", VStr "Notes")])
  else None.

(** An instance of the [item.search] parameter: a library whose one item
    is found under the citation key [doe2021] and under nothing else. *)
Definition libraryOfDoe (query : value) : list value :=
  match query with
  | VStr q =>
      if String.eqb q "doe2021"
      then [VObj [("key", VStr "ABCD2345"); ("title", VStr "A Study of Things")]]
      else []
  | _ => []
  end.

(** The test [findTitleMatch] makes of one entry. *)
Definition matchesb (terms : list string) (e : value) : bool :=
  match extractTitleFromEntry e with
  | Some title => forallb (λ term, JS.includes (JS.toLowerCase title) term) terms
  | None => false
  end.

(** [t] occurs in [s]. *)
Definition Substring (t s : string) : Prop :=
  exists a b, s = a +:+ t +:+ b.

(** The entry has a title that is not empty once trimmed, and the
    lower-cased trimmed title contains every term. *)
Definition Matches (terms : list string) (entry : value) : Prop :=
  exists title,
    extractTitleFromEntry entry = Some title
    /\ Forall (λ term, Substring term (JS.toLowerCase title)) terms.

(** ** main.ts: the inbound resolver *)

(** [s.split(/[^...]+/)] for the class [keep] of the code units that are
    kept; [inSep] says the previous code unit was a separator. *)
Fixpoint splitOutside (keep : ascii -> bool) (inSep : bool) (s : string)
  : list string :=
  match s with
  | EmptyString => [EmptyString]
  | String c s' =>
      if keep c then
        match splitOutside keep false s' with
        | field :: fields => String c field :: fields
        | [] => [String c EmptyString]
        end
      else if inSep then splitOutside keep true s'
      else EmptyString :: splitOutside keep true s'
  end.

(** *** The title split on the code units of the source

    A JavaScript string is a sequence of 16-bit code units, and a pattern
    without the [u] flag reads it unit by unit.  The strings of this
    development hold the units below U+0100; the split of the title is also
    given on all units, as the source has it. *)

(** The class the split keeps: [a-zA-Z0-9] and the ranges U+3040-309F,
    U+30A0-30FF and U+4E00-9FAF. *)
Definition isTokenUnit (u : N) : bool :=
  ((48 <=? u) && (u <=? 57) || (65 <=? u) && (u <=? 90)
   || (97 <=? u) && (u <=? 122)
   || (0x3040 <=? u) && (u <=? 0x309F) || (0x30A0 <=? u) && (u <=? 0x30FF)
   || (0x4E00 <=? u) && (u <=? 0x9FAF))%N.

(** [title.split(...)] on code units; [inSep] says the previous unit
    belonged to a separator. *)
Fixpoint splitUnits (inSep : bool) (s : list N) : list (list N) :=
  match s with
  | [] => [[]]
  | u :: s' =>
      if isTokenUnit u then
        match splitUnits false s' with
        | field :: fields => (u :: field) :: fields
        | [] => [[u]]
        end
      else if inSep then splitUnits true s'
      else [] :: splitUnits true s'
  end.

(** [terms.filter(t => t.length > 0)] *)
Definition titleTokensOfUnits (title : list N) : list (list N) :=
  filter (fun t => (0 <? length t)%nat) (splitUnits false title).

(** The code units of a string of this development. *)
Fixpoint unitsOf (s : string) : list N :=
  match s with
  | EmptyString => []
  | String c s' => N.of_nat (Char.code c) :: unitsOf s'
  end.

(** The syntax characters of a pattern: the code units of the characters
    circumflex, dollar, backslash, dot, star, plus, question mark, the
    round, square and curly brackets, and the bar. *)
Definition isSyntaxUnit (u : N) : bool :=
  existsb (N.eqb u) [94; 36; 92; 46; 42; 43; 63; 40; 41; 91; 93; 123; 125; 124]%N.

(** The same split on a string of this development, filtered by
    [t.length > 0]: the three ranges lie above U+00FF, so on the units
    below U+0100 the class kept is [a-zA-Z0-9], and the tokens are those of
    [titleTokensOfUnits] on the units of the string. *)
Definition titleTokens (title : string) : list string :=
  filter (fun t => nonEmpty t) (splitOutside Char.is_alnum false title).

(** [.*] followed by what [k] accepts: code units other than line
    terminators, then [k]. *)
Fixpoint afterGap (k : string -> bool) (s : string) : bool :=
  k s ||
  match s with
  | String c s' => negb (Char.is_line_terminator c) && afterGap k s'
  | EmptyString => false
  end.

(** The pattern [validTerms.join(".*")] with the [i] flag, at the head of
    [s]; the terms hold letters and digits only, so each is a literal. *)
Fixpoint termsAt (terms : list string) (s : string) : bool :=
  match terms with
  | [] => true
  | t :: ts =>
      match Re.lit t s with
      | Some r =>
          match ts with
          | [] => true
          | _ :: _ => afterGap (termsAt ts) r
          end
      | None => false
      end
  end.

(** A pattern without anchor is tried at every position. *)
Fixpoint searchFrom (k : string -> bool) (s : string) : bool :=
  k s ||
  match s with
  | String _ s' => searchFrom k s'
  | EmptyString => false
  end.

(** [new RegExp(validTerms.join(".*"), "i").test(basename)] *)
Definition fuzzyTest (validTerms : list string) (name : string) : bool :=
  searchFrom (termsAt validTerms) name.

(** How [handleZoteroIncoming] ends: the note it opens and the plan that
    found it, or the notice that no note is linked. *)
Inductive incoming :=
| OpenedByCiteKey (file : TFile)
| OpenedByTitle (file : TFile)
| LinkedNoteNotFound.

(** A parameter of the protocol handler, a string or [undefined]. *)
Definition paramValue (p : option string) : value :=
  match p with
  | Some s => VStr s
  | None => VUndefined
  end.

Section Inbound.

Variable parseYaml : string -> option value.

(** Plan A of [handleZoteroIncoming]: the loop over the notes. *)
Fixpoint findByCitekey (key : string) (files : list TFile)
  : option TFile * list effect :=
  match files with
  | [] => (None, [])
  | file :: rest =>
      let '(citekeys, t) := getNormalizedCitekeys parseYaml file in
      if bucketIncludes citekeys key then (Some file, t)
      else let '(r, t') := findByCitekey key rest in (r, t ++ t')
  end.

(** Plans B and C of [handleZoteroIncoming]. *)
Definition findByTitle (title : option string) (files : list TFile) : incoming :=
  if Val.truthy (paramValue title) then
    let validTerms := titleTokens (default EmptyString title) in
    if (0 <? length validTerms)%nat then
      match List.find (fun file => fuzzyTest validTerms (basename file)) files with
      | Some hit => OpenedByTitle hit
      | None => LinkedNoteNotFound
      end
    else LinkedNoteNotFound
  else LinkedNoteNotFound.

Definition handleZoteroIncoming (files : list TFile) (citekey title : option string)
  : incoming * list effect :=
  match normalizeCitekey (paramValue citekey) with
  | Some key =>
      if nonEmpty key then
        match findByCitekey key files with
        | (Some file, t) => (OpenedByCiteKey file, t)
        | (None, t) => (findByTitle title files, t)
        end
      else (findByTitle title files, [])
  | None => (findByTitle title files, [])
  end.

(** The handler registered for [obsidian://zotero-bridge]: [None] when it
    answers with the missing-parameters notice and does nothing else. *)
Definition protocolHandler (files : list TFile) (citekey title : option string)
  : option (incoming * list effect) :=
  if negb (Val.truthy (paramValue citekey)) && negb (Val.truthy (paramValue title))
  then None
  else Some (handleZoteroIncoming files citekey title).

End Inbound.

(** ** The earlier variant of main.ts: sanitizeFileName *)

(** The class of [sanitizeFileName]: colon, slash, backslash, bar,
    question mark, asterisk, angle brackets and the double quote. *)
Definition isForbiddenInName (c : ascii) : bool :=
  existsb (Ascii.eqb c)
    [":"%char; "/"%char; "\"%char; "|"%char; "?"%char; "*"%char;
     "<"%char; ">"%char; "034"%char].

(** [name.replace(class, sep)] with the [g] flag: every code unit of the
    class becomes space, hyphen, space. *)
Fixpoint sanitizeFileName (name : string) : string :=
  match name with
  | EmptyString => EmptyString
  | String c name' =>
      if isForbiddenInName c then " - " +:+ sanitizeFileName name'
      else String c (sanitizeFileName name')
  end.

(** ** main.ts: the script on the side of the reference manager *)

(** [/Citation Key:\s*(\S+)/i] at the head of [s], capture 1.  The greedy
    [\s*] takes the whole run of white space; giving some of it back leaves
    white space where [\S+] has to start, so no retry succeeds. *)
Definition citationKeyAt (s : string) : option string :=
  r ← Re.lit "Citation Key:" s;
  '(k, _) ← Re.many1 (fun c => negb (Char.is_space c)) (Re.span Char.is_space r).2;
  Some k.

(** [extra.match(/Citation Key:\s*(\S+)/i)], capture 1: the leftmost
    position at which the pattern matches. *)
Fixpoint citationKeyMatch (extra : string) : option string :=
  match citationKeyAt extra with
  | Some k => Some k
  | None =>
      match extra with
      | String _ extra' => citationKeyMatch extra'
      | EmptyString => None
      end
  end.

(** The [citekey] the script sends: the key Better BibTeX manages for the
    item, else the one written in the item's extra field, else the empty
    text.  [keyInfo] is [undefined] when Better BibTeX is absent or its
    lookup throws. *)
Definition scriptCitekey (keyInfo : value) (extra : string) : value :=
  let citekey :=
    Val.or (Val.or (Val.get keyInfo "citationKey") (Val.get keyInfo "citekey"))
           (VStr EmptyString) in
  if negb (Val.truthy citekey) then
    match citationKeyMatch extra with
    | Some k => VStr k
    | None => citekey
    end
  else citekey.

(** ** The earlier variant of main.ts: the name of the note Plan C creates *)

(** [title || citekey || "Untitled Zotero Note"] *)
Definition baseNameOf (citekey title : option string) : string :=
  match Val.or (Val.or (paramValue title) (paramValue citekey))
               (VStr "Untitled Zotero Note") with
  | VStr s => s
  | _ => EmptyString
  end.

(** The name tried after [counter - 1] numbered ones were taken. *)
Definition numbered (newFileName : string) (counter : nat) : string :=
  newFileName +:+ " (" +:+ Val.indexKey counter +:+ ")".

(** The loop that looks for a free name; [existsPath] is the vault's
    [adapter.exists], and [fuel] bounds the number of tests. *)
Fixpoint finalNameFrom (existsPath : string -> bool) (newFileName finalName : string)
    (counter fuel : nat) : option string :=
  match fuel with
  | 0 => None
  | S fuel' =>
      if existsPath (finalName +:+ ".md")
      then finalNameFrom existsPath newFileName (numbered newFileName counter)
             (S counter) fuel'
      else Some finalName
  end.

Definition newNoteName (existsPath : string -> bool) (citekey title : option string)
    (fuel : nat) : option string :=
  let newFileName := sanitizeFileName (baseNameOf citekey title) in
  finalNameFrom existsPath newFileName newFileName 1 fuel.

(** ** Vocabulary of the further statements *)

(** The terms [searchByTitle] splits a cleaned title into. *)
Definition titleTerms (cleanTitle : string) : list string :=
  filter (fun t => nonEmpty t) (splitSpaces false cleanTitle).

(** The queries [searchByTitle] sends, in order, as long as none matches. *)
Definition titleQueries (cleanTitle : string) : list string :=
  filter (fun q => nonEmpty q) (uniq (cleanTitle :: titleTerms cleanTitle)).

(** The requests for a list of queries. *)
Definition requestsFor (queries : list string) : list effect :=
  (fun q => Request (VStr q)) <$> queries.



(** [s] starts with the terms in their order, in any letter case, each
    two of them separated by text without a line terminator. *)
Fixpoint TermsAt (terms : list string) (s : string) : Prop :=
  match terms with
  | [] => True
  | t :: ts =>
      exists t' r, s = t' +:+ r /\ ciEq t t' = true /\
        match ts with
        | [] => True
        | _ :: _ =>
            exists gap r', r = gap +:+ r'
              /\ JS.all notLineTerminator gap = true /\ TermsAt ts r'
        end
  end.

(** The effects of examining the notes [files] for a citation key. *)
Definition readsOf (parseYaml : string -> option value) (files : list TFile)
  : list effect :=
  flat_map (fun file => (getNormalizedCitekeys parseYaml file).2) files.

(** The path synthesised from the key and group fields of a record. *)
Definition pathByKey (Number_ofString : string -> number) (entry : value)
  : option string :=
  match Val.or (Val.get entry "key") (Val.get entry "itemKey") with
  | VStr keyValue =>
      match extractNumericId Number_ofString
              (Val.nullish (Val.get entry "groupID") (Val.get entry "groupId")) with
      | Some groupId => Some (groupsPath (Num.toString groupId) keyValue)
      | None => Some (libraryPath keyValue)
      end
  | _ => None
  end.

(** The addresses a run hands to [window.open], in order. *)
Definition opened (t : list effect) : list string :=
  omap (fun e => match e with WindowOpen url => Some url | _ => None end) t.


Definition notSpace (c : ascii) : bool := negb (Char.is_space c).

(** An instance of the [item.search] parameter: a library whose one item
    is found under the word [Study] and under nothing else. *)
Definition libraryOfStudy (query : value) : list value :=
  match query with
  | VStr q =>
      if String.eqb q "Study"
      then [VObj [("key", VStr "ABCD2345"); ("title", VStr "A Study of Things")]]
      else []
  | _ => []
  end.

(** What remains after the tokens [ts]: nothing to find, or a gap and then
    the tokens. *)
Definition Gap (ts : list string) (s : string) : Prop :=
  ts = [] \/
  exists gap r, s = gap +:+ r /\ JS.all notLineTerminator gap = true /\ TermsAt ts r.


Definition notForbidden (c : ascii) : bool := negb (isForbiddenInName c).


(** A line break as the header pattern reads it: LF, or CR LF. *)
Definition isLineBreak (nl : string) : Prop :=
  nl = String LF EmptyString \/ nl = String CR (String LF EmptyString).

(** An instance of the [parseYaml] parameter for the closed examples: it
    reads the one-item list [- doe2021] and rejects any other text. *)
Definition listYaml (text : string) : option value :=
  if String.eqb text "- doe2021" then Some (VArr [VStr "doe2021"]) else None.

(** The [j]-th name the loop of Plan C tries. *)
Definition candidate (newFileName : string) (j : nat) : string :=
  match j with
  | 0 => newFileName
  | S _ => numbered newFileName j
  end.

(** An instance of [adapter.exists]: a vault that holds [Notes.md] and
    [Notes (1).md]. *)
Definition vaultOfNotes (p : string) : bool :=
  String.eqb p "Notes.md" || String.eqb p "Notes (1).md".

(** ** The expectations of zotero-utils.test.ts, evaluated on the embedding *)

Module SourceTests.

Example select_uri :
  normalizeZoteroSelectPath "zotero://select/library/items/ABCDE"
  = Some "library/items/ABCDE".
Proof. reflexivity. Qed.

Example web_urls :
  normalizeZoteroSelectPath "https://zotero.org/groups/25/items/XYZ123"
  = Some "groups/25/items/XYZ123"
  /\ normalizeZoteroSelectPath "https://zotero.org/users/0/items/Z9999"
     = Some "library/items/Z9999".
Proof. split; reflexivity. Qed.

Example bare_identifiers :
  normalizeZoteroSelectPath "groups/4/items/ABCD" = Some "groups/4/items/ABCD"
  /\ normalizeZoteroSelectPath "items/0_FGHJK" = Some "library/items/FGHJK"
  /\ normalizeZoteroSelectPath "0_FGHJK" = Some "library/items/FGHJK"
  /\ normalizeZoteroSelectPath "  LMNOP  " = Some "library/items/LMNOP".
Proof. repeat split; reflexivity. Qed.

Example invalid_identifiers :
  normalizeZoteroSelectPath "" = None
  /\ normalizeZoteroSelectPath "   " = None
  /\ normalizeZoteroSelectPath "not-a-match" = None.
Proof. repeat split; reflexivity. Qed.

Example extract_string_entry :
  extractZoteroSelectPath integerOfString (VStr "zotero://select/groups/1/items/AAAA")
  = Some "groups/1/items/AAAA".
Proof. reflexivity. Qed.

Example extract_object_entries :
  extractZoteroSelectPath integerOfString (VObj [("id", VStr "library/items/BBBB")])
  = Some "library/items/BBBB"
  /\ extractZoteroSelectPath integerOfString
       (VObj [("itemKey", VStr "DIFFERENT"); ("groupID", VNum (NumInt 7 I))])
     = Some "groups/7/items/DIFFERENT"
  /\ extractZoteroSelectPath integerOfString (VObj [("key", VStr "CCC333")])
     = Some "library/items/CCC333"
  /\ extractZoteroSelectPath integerOfString
       (VObj [("key", VStr "DDD444"); ("groupId", VStr "9")])
     = Some "groups/9/items/DDD444".
Proof. repeat split; reflexivity. Qed.

Example extract_nothing_usable :
  extractZoteroSelectPath integerOfString (VObj [("id", VStr "")]) = None
  /\ extractZoteroSelectPath integerOfString (VObj [("title", VStr "no id fields")])
     = None
  /\ extractZoteroSelectPath integerOfString VNull = None.
Proof. repeat split; reflexivity. Qed.

Example citekey_strings :
  normalizeCitekey (VStr "  @Smith2020 ") = Some "smith2020"
  /\ normalizeCitekey (VStr "DOE2021") = Some "doe2021".
Proof. split; reflexivity. Qed.

Example citekey_numbers_and_invalid :
  normalizeCitekey (VNum (NumInt 1234 I)) = Some "1234"
  /\ normalizeCitekey (VStr "@") = None
  /\ normalizeCitekey (VStr "") = None
  /\ normalizeCitekey VUndefined = None.
Proof. repeat split; reflexivity. Qed.

Example collect_dedup_across_fields :
  collectNormalizedCitekeys
    (Some [("citekey", VArr [VStr "@DupKey"; VStr "@DupKey"]);
           ("better-bibtex-citekey", VStr "@Unique")])
  = ["dupkey"; "unique"].
Proof. by vm_compute. Qed.

Example collect_no_frontmatter : collectNormalizedCitekeys None = [].
Proof. reflexivity. Qed.

End SourceTests.

(** ** Code units *)

Module CharFacts.

Ltac each_char c :=
  destruct c as [[] [] [] [] [] [] [] []]; vm_compute; try reflexivity;
  try discriminate; try tauto.

Lemma eqb_ci_canon p c :
  Char.eqb_ci p c = true <-> Char.canonicalize c = Char.canonicalize p.
Proof.
  unfold Char.eqb_ci. rewrite Ascii.eqb_eq. split; congruence.
Qed.

Lemma canon_not_upper c p :
  Char.canonicalize c = p -> Char.is_upper p = false -> c = p.
Proof. intros <-. each_char c. Qed.

Lemma canon_upper c :
  Char.is_upper (Char.canonicalize c) = true ->
  Char.toLower c = Char.shift 32 (Char.canonicalize c).
Proof. each_char c. Qed.

Lemma digit_alnum c : Char.is_digit c = true -> Char.is_alnum c = true.
Proof. each_char c. Qed.

Lemma alnum_not_space c : Char.is_alnum c = true -> Char.is_space c = false.
Proof. each_char c. Qed.

Lemma alnum_canon c :
  Char.is_alnum c = true -> Char.is_alnum (Char.canonicalize c) = true.
Proof. each_char c. Qed.

Lemma canon_alnum c :
  Char.is_alnum (Char.canonicalize c) = true -> Char.is_alnum c = true.
Proof. each_char c. Qed.

Lemma digit_canon c : Char.is_digit c = true -> Char.canonicalize c = c.
Proof. each_char c. Qed.

Lemma canon_space c : Char.is_space (Char.canonicalize c) = Char.is_space c.
Proof. each_char c. Qed.

Lemma digit_not_upper c : Char.is_digit c = true -> Char.is_upper c = false.
Proof. each_char c. Qed.

Lemma lower_canon_upper c :
  Char.is_lower c = true -> Char.is_upper (Char.canonicalize c) = true.
Proof. each_char c. Qed.

Lemma not_lower_canon c : Char.is_lower c = false -> Char.canonicalize c = c.
Proof. unfold Char.canonicalize. by intros ->. Qed.

(** Characters that match the same pattern character match the same ones. *)
Lemma eqb_ci_trans a b c :
  Char.eqb_ci a c = true -> Char.eqb_ci b c = Char.eqb_ci b a.
Proof. intros H%eqb_ci_canon. unfold Char.eqb_ci. by rewrite H. Qed.

(** A pattern character that is no letter matches itself only. *)
Lemma eqb_ci_exact a c :
  Char.is_lower a = false -> Char.is_upper a = false ->
  Char.eqb_ci a c = true -> c = a.
Proof.
  intros Hl Hu H%eqb_ci_canon. rewrite (not_lower_canon a Hl) in H.
  by apply canon_not_upper.
Qed.

(** No digit matches a pattern letter. *)
Lemma eqb_ci_lower_digit a d :
  Char.is_lower a = true -> Char.is_digit d = true -> Char.eqb_ci a d = false.
Proof.
  intros Ha Hd. destruct (Char.eqb_ci a d) eqn:E; [| done].
  apply eqb_ci_canon in E. rewrite (digit_canon d Hd) in E.
  pose proof (lower_canon_upper a Ha) as Hu. rewrite <- E in Hu.
  by rewrite (digit_not_upper d Hd) in Hu.
Qed.

(** What matches an alphanumeric code unit is alphanumeric. *)
Lemma eqb_ci_alnum a c :
  Char.eqb_ci a c = true -> Char.is_alnum c = true -> Char.is_alnum a = true.
Proof.
  intros H%eqb_ci_canon Hc. apply canon_alnum. rewrite <- H.
  by apply alnum_canon.
Qed.

(** What matches a lower-case pattern letter lower-cases to it. *)
Lemma eqb_ci_toLower a c :
  Char.is_lower a = true -> Char.eqb_ci a c = true -> Char.toLower c = a.
Proof.
  intros Ha H%eqb_ci_canon. rewrite canon_upper; rewrite H.
  - clear H. revert Ha. each_char a.
  - by apply lower_canon_upper.
Qed.

End CharFacts.

(** ** Strings *)

Module StrFacts.

#[local] Arguments String.append : simpl nomatch.

Lemma sapp_cons c a b : String c a +:+ b = String c (a +:+ b).
Proof. reflexivity. Qed.

Lemma sapp_nil_r a : a +:+ "" = a.
Proof. induction a; simpl; congruence. Qed.

Lemma sapp_assoc a b c : (a +:+ b) +:+ c = a +:+ b +:+ c.
Proof. induction a; simpl; congruence. Qed.

Lemma slength_app a b : String.length (a +:+ b) = String.length a + String.length b.
Proof. induction a; simpl; congruence. Qed.

Lemma isEmpty_true s : JS.isEmpty s = true <-> s = "".
Proof. destruct s; simpl; split; congruence. Qed.

Lemma nonEmpty_app_r a b : nonEmpty b = true -> nonEmpty (a +:+ b) = true.
Proof. destruct a; simpl; auto. Qed.

Lemma nonEmpty_app_l a b : nonEmpty a = true -> nonEmpty (a +:+ b) = true.
Proof. by destruct a. Qed.

Lemma all_app p a b : JS.all p (a +:+ b) = JS.all p a && JS.all p b.
Proof. induction a; simpl; [done | rewrite IHa; apply andb_assoc]. Qed.

Lemma all_impl (p q : ascii -> bool) s :
  (forall c, p c = true -> q c = true) -> JS.all p s = true -> JS.all q s = true.
Proof.
  intros Hpq. induction s as [|c s IH]; simpl; [done |].
  rewrite !andb_true_iff. intros [? ?]; auto.
Qed.

Lemma eqb_refl' s : String.eqb s s = true.
Proof. apply String.eqb_eq; reflexivity. Qed.

(** *** trim *)

Lemma trimStart_id s : headNot Char.is_space s = true -> JS.trimStart s = s.
Proof. destruct s as [|c s]; simpl; [done |]. by destruct (Char.is_space c). Qed.

Lemma trimEnd_id s : lastNot Char.is_space s = true -> JS.trimEnd s = s.
Proof.
  induction s as [|c s IH]; [done |].
  destruct s as [|d s].
  - simpl. by destruct (Char.is_space c).
  - intros H. change (lastNot Char.is_space (String d s) = true) in H.
    specialize (IH H). change (JS.trimEnd (String c (String d s)))
      with (let r := JS.trimEnd (String d s) in
            if Char.is_space c && JS.isEmpty r then ""%stdpp else String c r).
    rewrite IH. simpl. by rewrite andb_false_r.
Qed.

Lemma trim_id s :
  headNot Char.is_space s = true -> lastNot Char.is_space s = true ->
  JS.trim s = s.
Proof. intros H1 H2. unfold JS.trim. rewrite trimStart_id by done. by apply trimEnd_id. Qed.

Lemma lastNot_app cls a b :
  nonEmpty b = true -> lastNot cls (a +:+ b) = lastNot cls b.
Proof.
  intros Hb. induction a as [|c a IH]; [done |].
  rewrite sapp_cons.
  assert (Hne : nonEmpty (a +:+ b) = true) by (by apply nonEmpty_app_r).
  destruct (a +:+ b) eqn:E; [done | exact IH].
Qed.

Lemma lastNot_all cls s :
  JS.all (fun c => negb (cls c)) s = true -> lastNot cls s = true.
Proof.
  induction s as [|c s IH]; [done |]. simpl JS.all.
  rewrite andb_true_iff. intros [Hc Hs]. destruct s; [done | auto].
Qed.

Lemma trimStart_headNot s : headNot Char.is_space (JS.trimStart s) = true.
Proof.
  induction s as [|c s IH]; [done |]. simpl.
  destruct (Char.is_space c) eqn:E; [done |]. simpl. by rewrite E.
Qed.

Lemma trimEnd_lastNot s : lastNot Char.is_space (JS.trimEnd s) = true.
Proof.
  induction s as [|c s IH]; [done |]. simpl.
  destruct (JS.trimEnd s) as [|d r] eqn:E.
  - rewrite andb_true_r. destruct (Char.is_space c) eqn:Ec; [done |].
    simpl. by rewrite Ec.
  - rewrite andb_false_r. exact IH.
Qed.

Lemma trimEnd_headNot s :
  headNot Char.is_space s = true -> headNot Char.is_space (JS.trimEnd s) = true.
Proof.
  destruct s as [|c s]; [done |]. simpl.
  destruct (Char.is_space c) eqn:Ec; [done |]. simpl. by rewrite Ec.
Qed.

(** A trimmed string is a fixed point of [trim]. *)
Lemma trim_trim s : JS.trim (JS.trim s) = JS.trim s.
Proof.
  apply trim_id; unfold JS.trim.
  - apply trimEnd_headNot, trimStart_headNot.
  - apply trimEnd_lastNot.
Qed.

Lemma trimStart_nil s :
  JS.trimStart s = "" <-> JS.all Char.is_space s = true.
Proof.
  induction s as [|c s IH]; simpl; [done |].
  destruct (Char.is_space c); simpl; [exact IH | done].
Qed.

Lemma trim_nil s : JS.trim s = "" <-> JS.all Char.is_space s = true.
Proof.
  rewrite <- trimStart_nil. unfold JS.trim. split; [| by intros ->].
  pose proof (trimStart_headNot s) as Hh.
  destruct (JS.trimStart s) as [|c t]; [done |]. simpl in *.
  by destruct (Char.is_space c).
Qed.

Lemma length_trimStart s : String.length (JS.trimStart s) <= String.length s.
Proof.
  induction s as [|c s IH]; simpl; [lia |].
  destruct (Char.is_space c); simpl; lia.
Qed.

Lemma length_trimEnd s : String.length (JS.trimEnd s) <= String.length s.
Proof.
  induction s as [|c s IH]; simpl; [lia |].
  destruct (Char.is_space c && JS.isEmpty (JS.trimEnd s)); simpl; lia.
Qed.

Lemma length_trim s : String.length (JS.trim s) <= String.length s.
Proof.
  unfold JS.trim. pose proof (length_trimEnd (JS.trimStart s)).
  pose proof (length_trimStart s). lia.
Qed.

End StrFacts.

(** ** The building blocks against their reading as languages *)

Module ReFacts.

Import StrFacts CharFacts.
#[local] Arguments String.append : simpl nomatch.

Lemma ciEq_refl_canon p q :
  ciEq p q = true -> String.length q = String.length p.
Proof.
  revert q. induction p as [|a p IH]; intros [|c q]; simpl; try done.
  rewrite andb_true_iff. intros [_ H]. by rewrite (IH _ H).
Qed.

Lemma ciEq_app_inv p1 p2 q :
  ciEq (p1 +:+ p2) q = true ->
  exists q1 q2, q = q1 +:+ q2 /\ ciEq p1 q1 = true /\ ciEq p2 q2 = true.
Proof.
  revert q. induction p1 as [|a p1 IH]; intros q H.
  - by exists ""%stdpp, q.
  - destruct q as [|c q]; [done |]. simpl in H.
    apply andb_true_iff in H as [Hc H].
    destruct (IH _ H) as (q1 & q2 & -> & H1 & H2).
    exists (String c q1), q2. simpl. by rewrite Hc, H1.
Qed.

Lemma ciEq_app p1 p2 q1 q2 :
  ciEq p1 q1 = true -> ciEq p2 q2 = true -> ciEq (p1 +:+ p2) (q1 +:+ q2) = true.
Proof.
  revert q1. induction p1 as [|a p1 IH]; intros [|c q1]; simpl; try done.
  rewrite andb_true_iff. intros [Hc H1] H2. by rewrite Hc, IH.
Qed.

Lemma lit_app p q r : ciEq p q = true -> Re.lit p (q +:+ r) = Some r.
Proof.
  revert q. induction p as [|a p IH]; intros [|c q]; simpl; try done.
  rewrite andb_true_iff. intros [-> H]. by apply IH.
Qed.

Lemma lit_inv p s r :
  Re.lit p s = Some r ->
  exists q, s = q +:+ r /\ ciEq p q = true /\ Re.taken p s = q.
Proof.
  revert s. induction p as [|a p IH]; intros s H.
  - simpl in H. injection H as ->. exists ""%stdpp. by destruct r.
  - destruct s as [|c s]; [done |]. simpl in H.
    destruct (Char.eqb_ci a c) eqn:Hc; [| done].
    destruct (IH _ H) as (q & -> & Hq & Ht).
    exists (String c q). simpl. by rewrite Hc, Hq, Ht.
Qed.

(** A literal does not match where its first character differs. *)
Lemma lit_head_mismatch a p c s :
  Char.eqb_ci a c = false -> Re.lit (String a p) (String c s) = None.
Proof. simpl. by intros ->. Qed.

Lemma span_app cls a b :
  JS.all cls a = true -> headNot cls b = true -> Re.span cls (a +:+ b) = (a, b).
Proof.
  intros Ha Hb. induction a as [|c a IH]; simpl.
  - destruct b as [|d b]; [done |]. simpl in *.
    by destruct (cls d).
  - simpl in Ha. apply andb_true_iff in Ha as [-> Ha]. by rewrite IH.
Qed.

Lemma span_inv cls s a b :
  Re.span cls s = (a, b) ->
  s = a +:+ b /\ JS.all cls a = true /\ headNot cls b = true.
Proof.
  revert a b. induction s as [|c s IH]; intros a b H; simpl in H.
  - by injection H as <- <-.
  - destruct (cls c) eqn:Hc.
    + destruct (Re.span cls s) as [a' b'] eqn:E.
      injection H as <- <-. destruct (IH _ _ eq_refl) as (-> & Ha & Hb).
      simpl. by rewrite Hc, Ha.
    + injection H as <- <-. simpl. by rewrite Hc.
Qed.

Lemma many1_app cls a b :
  nonEmpty a = true -> JS.all cls a = true -> headNot cls b = true ->
  Re.many1 cls (a +:+ b) = Some (a, b).
Proof.
  intros Hne Ha Hb. unfold Re.many1. rewrite span_app by done.
  by destruct a.
Qed.

Lemma many1_inv cls s a b :
  Re.many1 cls s = Some (a, b) ->
  s = a +:+ b /\ nonEmpty a = true /\ JS.all cls a = true /\ headNot cls b = true.
Proof.
  unfold Re.many1. destruct (Re.span cls s) as [a' b'] eqn:E.
  destruct a' as [|c a']; [done |]. simpl. intros H. injection H as <- <-.
  by destruct (span_inv _ _ _ _ E) as (-> & Ha & Hb).
Qed.

Lemma many1_none_head cls c s :
  cls c = false -> Re.many1 cls (String c s) = None.
Proof. unfold Re.many1. simpl. by intros ->. Qed.

Lemma eoi_inv s u : Re.eoi s = Some u -> s = "".
Proof. by destruct s. Qed.

Lemma cap_app p q r : ciEq p q = true -> Re.cap p (q +:+ r) = Some (q, r).
Proof.
  intros H. unfold Re.cap. rewrite lit_app by done. simpl.
  destruct (lit_inv p (q +:+ r) r (lit_app _ _ _ H)) as (q' & E & Hq' & ->).
  assert (String.length q' = String.length q) as Hlen.
  { rewrite (ciEq_refl_canon p q' Hq'). by rewrite (ciEq_refl_canon p q H). }
  enough (q' = q) by congruence.
  clear -E Hlen. revert q' E Hlen.
  induction q as [|c q IH]; intros [|c' q'] E Hlen; simpl in *; try done.
  injection E as -> E. f_equal. apply IH; [done | lia].
Qed.

Lemma cap_inv p s q r :
  Re.cap p s = Some (q, r) -> s = q +:+ r /\ ciEq p q = true.
Proof.
  unfold Re.cap. destruct (Re.lit p s) as [r'|] eqn:E; [| done]. simpl.
  intros H. injection H as <- <-.
  by destruct (lit_inv _ _ _ E) as (q & -> & Hq & ->).
Qed.

(** The head of a string that matches a literal. *)
Lemma ciEq_head a p q :
  ciEq (String a p) q = true ->
  exists c q', q = String c q' /\ Char.eqb_ci a c = true /\ ciEq p q' = true.
Proof.
  destruct q as [|c q]; [done |]. simpl. rewrite andb_true_iff.
  intros [? ?]. by exists c, q.
Qed.

Lemma ciEq_nil q : ciEq "" q = true -> q = "".
Proof. by destruct q. Qed.

(** A literal with a character that is no letter or digit matches no
    prefix of an alphanumeric string. *)
Lemma lit_alnum p s :
  JS.all Char.is_alnum p = false -> JS.all Char.is_alnum s = true ->
  Re.lit p s = None.
Proof.
  revert s. induction p as [|a p IH]; intros s Hp Hs; [done |].
  destruct s as [|c s]; [done |]. simpl in *.
  apply andb_true_iff in Hs as [Hc Hs].
  destruct (Char.eqb_ci a c) eqn:E; [| done].
  rewrite (eqb_ci_alnum a c E Hc) in Hp. by apply IH.
Qed.

Lemma lit_keeps_alnum p s r :
  Re.lit p s = Some r -> JS.all Char.is_alnum s = true ->
  JS.all Char.is_alnum r = true.
Proof.
  intros H Hs. apply lit_inv in H as (q & -> & _ & _).
  rewrite all_app in Hs. by apply andb_true_iff in Hs as [_ ?].
Qed.

End ReFacts.

(** ** The seven patterns of normalizeZoteroSelectPath *)

Module MatchFacts.

Import StrFacts ReFacts CharFacts.
#[local] Arguments String.append : simpl nomatch.
#[local] Arguments Re.lit : simpl never.
#[local] Arguments Re.many1 : simpl never.
#[local] Arguments Re.cap : simpl never.
#[local] Arguments Re.eoi : simpl never.

(** One step of a pattern that has matched. *)
Ltac bind_inv H :=
  match type of H with
  | mbind _ ?m = Some _ =>
      let E := fresh "E" in
      destruct m as [?|] eqn:E; simpl in H; [| discriminate H]
  end.

Ltac bind_as H x E :=
  match type of H with
  | mbind _ ?m = Some _ =>
      destruct m as [x|] eqn:E; simpl in H; [| discriminate H]
  end.

Lemma isNum_inv n :
  isNum n = true -> nonEmpty n = true /\ JS.all Char.is_digit n = true.
Proof. unfold isNum. by rewrite andb_true_iff. Qed.

Lemma isKey_inv k :
  isKey k = true -> nonEmpty k = true /\ JS.all Char.is_alnum k = true.
Proof. unfold isKey. by rewrite andb_true_iff. Qed.

Lemma many1_whole cls a :
  nonEmpty a = true -> JS.all cls a = true -> Re.many1 cls a = Some (a, ""%stdpp).
Proof.
  intros. rewrite <- (sapp_nil_r a) at 1. by apply many1_app.
Qed.

Lemma ciEq_single a q :
  Char.is_lower a = false -> Char.is_upper a = false ->
  ciEq (String a "") q = true -> q = String a "".
Proof.
  intros Hl Hu H. apply ciEq_head in H as (c & q' & -> & Hc & Hq).
  apply ciEq_nil in Hq as ->. by rewrite (eqb_ci_exact a c Hl Hu Hc).
Qed.

(** The head of a string that matches a literal is no digit when the
    literal's head is none. *)
Lemma headNot_digit_lit a p q r :
  Char.is_alnum a = false ->
  ciEq (String a p) q = true -> headNot Char.is_digit (q +:+ r) = true.
Proof.
  intros Ha H. apply ciEq_head in H as (c & q' & -> & Hc & _). simpl.
  destruct (Char.is_digit c) eqn:Hd; [| done].
  by rewrite (eqb_ci_alnum a c Hc (digit_alnum c Hd)) in Ha.
Qed.

(** *** [zotero://select/<rest>] *)

Lemma schemeMatch_ok p rest :
  ciEq "zotero://select/" p = true ->
  nonEmpty rest = true -> JS.all notLineTerminator rest = true ->
  schemeMatch (p +:+ rest) = Some rest.
Proof.
  intros Hp Hne Hall. unfold schemeMatch. rewrite lit_app by done. simpl.
  unfold nonEmpty in Hne. unfold notLineTerminator in Hall.
  by rewrite Hne, Hall.
Qed.

Lemma schemeMatch_inv s rest :
  schemeMatch s = Some rest ->
  exists p, s = p +:+ rest /\ ciEq "zotero://select/" p = true /\
            nonEmpty rest = true /\ JS.all notLineTerminator rest = true.
Proof.
  unfold schemeMatch. intros H. bind_inv H.
  apply lit_inv in E as (p & -> & Hp & _).
  destruct (negb (JS.isEmpty s0)) eqn:Hne; [| done].
  destruct (JS.all _ s0) eqn:Hall; [| done].
  simpl in H. injection H as ->. by exists p.
Qed.

Lemma schemeMatch_head c s :
  Char.eqb_ci "z" c = false -> schemeMatch (String c s) = None.
Proof. intros H. unfold schemeMatch. by rewrite lit_head_mismatch. Qed.

Lemma schemeMatch_alnum s :
  JS.all Char.is_alnum s = true -> schemeMatch s = None.
Proof. intros H. unfold schemeMatch. by rewrite lit_alnum. Qed.

Lemma schemeMatch_length s rest :
  schemeMatch s = Some rest -> String.length rest < String.length s.
Proof.
  intros (p & -> & Hp & _)%schemeMatch_inv. rewrite slength_app.
  rewrite (ciEq_refl_canon _ _ Hp). simpl. lia.
Qed.

(** *** [groups/<N>/items/<KEY>] *)

Lemma groupsMatch_ok p n items key :
  ciEq "groups/" p = true -> isNum n = true ->
  ciEq "/items/" items = true -> isKey key = true ->
  groupsMatch (p +:+ n +:+ items +:+ key) = Some (n, key).
Proof.
  intros Hp [Hn1 Hn2]%isNum_inv Hi [Hk1 Hk2]%isKey_inv. unfold groupsMatch.
  rewrite lit_app by done. simpl.
  rewrite many1_app;
    [simpl | done | done | by apply (headNot_digit_lit "/" "items/" items)].
  rewrite lit_app by done. simpl.
  by rewrite many1_whole.
Qed.

Lemma groupsMatch_inv s n key :
  groupsMatch s = Some (n, key) ->
  exists p items, s = p +:+ n +:+ items +:+ key /\
    ciEq "groups/" p = true /\ isNum n = true /\
    ciEq "/items/" items = true /\ isKey key = true.
Proof.
  unfold groupsMatch. intros H. bind_inv H.
  apply lit_inv in E as (p & -> & Hp & _).
  bind_inv H. destruct p0 as [gid r]. simpl in H.
  apply many1_inv in E as (-> & Hn1 & Hn2 & _).
  bind_inv H. apply lit_inv in E as (items & -> & Hi & _).
  bind_inv H. destruct p0 as [k r]. simpl in H.
  apply many1_inv in E as (-> & Hk1 & Hk2 & _).
  bind_inv H. apply eoi_inv in E as ->. injection H as -> ->.
  exists p, items. rewrite sapp_nil_r. unfold isNum, isKey.
  by rewrite Hn1, Hn2, Hk1, Hk2.
Qed.

Lemma groupsMatch_head c s :
  Char.eqb_ci "g" c = false -> groupsMatch (String c s) = None.
Proof. intros H. unfold groupsMatch. by rewrite lit_head_mismatch. Qed.

Lemma groupsMatch_alnum s :
  JS.all Char.is_alnum s = true -> groupsMatch s = None.
Proof. intros H. unfold groupsMatch. by rewrite lit_alnum. Qed.

(** *** [library/items/<KEY>] *)

Lemma libraryMatch_ok p key :
  ciEq "library/items/" p = true -> isKey key = true ->
  libraryMatch (p +:+ key) = Some key.
Proof.
  intros Hp [Hk1 Hk2]%isKey_inv. unfold libraryMatch.
  rewrite lit_app by done. simpl. by rewrite many1_whole.
Qed.

Lemma libraryMatch_inv s key :
  libraryMatch s = Some key ->
  exists p, s = p +:+ key /\ ciEq "library/items/" p = true /\ isKey key = true.
Proof.
  unfold libraryMatch. intros H. bind_inv H.
  apply lit_inv in E as (p & -> & Hp & _).
  bind_inv H. destruct p0 as [k r]. simpl in H.
  apply many1_inv in E as (-> & Hk1 & Hk2 & _).
  bind_inv H. apply eoi_inv in E as ->. injection H as ->.
  exists p. rewrite sapp_nil_r. unfold isKey. by rewrite Hk1, Hk2.
Qed.

Lemma libraryMatch_head c s :
  Char.eqb_ci "l" c = false -> libraryMatch (String c s) = None.
Proof. intros H. unfold libraryMatch. by rewrite lit_head_mismatch. Qed.

Lemma libraryMatch_alnum s :
  JS.all Char.is_alnum s = true -> libraryMatch s = None.
Proof. intros H. unfold libraryMatch. by rewrite lit_alnum. Qed.

(** *** [<N>_<KEY>] and [items/<N>_<KEY>] *)

Lemma bareMatch_ok n key :
  isNum n = true -> isKey key = true ->
  bareMatch (n +:+ "_" +:+ key) = Some (n, key).
Proof.
  intros [Hn1 Hn2]%isNum_inv [Hk1 Hk2]%isKey_inv. unfold bareMatch.
  rewrite many1_app by done. simpl. by rewrite many1_whole.
Qed.

Lemma bareMatch_inv s n key :
  bareMatch s = Some (n, key) ->
  s = n +:+ "_" +:+ key /\ isNum n = true /\ isKey key = true.
Proof.
  unfold bareMatch. intros H. bind_inv H. destruct p as [lid r]. simpl in H.
  apply many1_inv in E as (-> & Hn1 & Hn2 & _).
  bind_inv H. apply lit_inv in E as (u & -> & Hu & _).
  apply ciEq_single in Hu as ->; [| done | done].
  bind_inv H. destruct p as [k r]. simpl in H.
  apply many1_inv in E as (-> & Hk1 & Hk2 & _).
  bind_inv H. apply eoi_inv in E as ->. injection H as -> ->.
  rewrite sapp_nil_r. unfold isNum, isKey. by rewrite Hn1, Hn2, Hk1, Hk2.
Qed.

Lemma bareMatch_alnum s :
  JS.all Char.is_alnum s = true -> bareMatch s = None.
Proof.
  intros Hs. unfold bareMatch.
  destruct (Re.many1 Char.is_digit s) as [[n r]|] eqn:E; [| done]. simpl.
  apply many1_inv in E as (-> & _ & _ & _).
  rewrite all_app in Hs. apply andb_true_iff in Hs as [_ Hr].
  by rewrite lit_alnum.
Qed.

Lemma bareItemsMatch_ok p n key :
  ciEq "items/" p = true -> isNum n = true -> isKey key = true ->
  bareItemsMatch (p +:+ n +:+ "_" +:+ key) = Some (n, key).
Proof.
  intros Hp Hn Hk. unfold bareItemsMatch. rewrite lit_app by done. simpl.
  by apply bareMatch_ok.
Qed.

Lemma bareItemsMatch_inv s n key :
  bareItemsMatch s = Some (n, key) ->
  exists p, s = p +:+ n +:+ "_" +:+ key /\
    ciEq "items/" p = true /\ isNum n = true /\ isKey key = true.
Proof.
  unfold bareItemsMatch. intros H. bind_inv H.
  apply lit_inv in E as (p & -> & Hp & _).
  apply bareMatch_inv in H as (-> & Hn & Hk). by exists p.
Qed.

Lemma bareItemsMatch_head c s :
  Char.eqb_ci "i" c = false -> bareItemsMatch (String c s) = None.
Proof. intros H. unfold bareItemsMatch. by rewrite lit_head_mismatch. Qed.

Lemma bareItemsMatch_alnum s :
  JS.all Char.is_alnum s = true -> bareItemsMatch s = None.
Proof. intros H. unfold bareItemsMatch. by rewrite lit_alnum. Qed.

(** *** [<KEY>] *)

Lemma simpleKeyMatch_ok key :
  isKey key = true -> simpleKeyMatch key = Some key.
Proof.
  intros [Hk1 Hk2]%isKey_inv. unfold simpleKeyMatch. by rewrite many1_whole.
Qed.

Lemma simpleKeyMatch_inv s key :
  simpleKeyMatch s = Some key -> s = key /\ isKey key = true.
Proof.
  unfold simpleKeyMatch. intros H. bind_inv H. destruct p as [k r]. simpl in H.
  apply many1_inv in E as (-> & Hk1 & Hk2 & _).
  bind_inv H. apply eoi_inv in E as ->. injection H as ->.
  rewrite sapp_nil_r. unfold isKey. by rewrite Hk1, Hk2.
Qed.

(** *** [https?://zotero.org/(users|groups)/<N>/items/<KEY>] *)

(** The prefix up to the host, as the pattern reads it. *)
Lemma urlPrefix_lit p r :
  isUrlPrefix p ->
  exists q, Re.lit "http" (p +:+ r) = Some q /\
    Re.lit "://zotero.org/" (default q (Re.lit "s" q)) = Some r.
Proof.
  intros [H | H].
  - change "http://zotero.org/"%stdpp with ("http" +:+ "://zotero.org/") in H.
    apply ciEq_app_inv in H as (q1 & q2 & -> & H1 & H2).
    exists (q2 +:+ r). rewrite sapp_assoc, lit_app by done. split; [done |].
    pose proof H2 as (c & q' & -> & Hc & _)%ciEq_head.
    rewrite sapp_cons, lit_head_mismatch by (by rewrite (eqb_ci_trans _ _ _ Hc)).
    simpl. rewrite <- sapp_cons. by apply lit_app.
  - change "https://zotero.org/"%stdpp with ("http" +:+ "s" +:+ "://zotero.org/") in H.
    apply ciEq_app_inv in H as (q1 & q23 & -> & H1 & H2).
    apply ciEq_app_inv in H2 as (q2 & q3 & -> & H2 & H3).
    exists (q2 +:+ q3 +:+ r). rewrite !sapp_assoc, lit_app by done. split; [done |].
    rewrite lit_app by done. simpl. by apply lit_app.
Qed.

Lemma scope_cap scope r :
  isScope scope ->
  match Re.cap "users" (scope +:+ r) with
  | Some m => Some m
  | None => Re.cap "groups" (scope +:+ r)
  end = Some (scope, r).
Proof.
  intros [H | H].
  - by rewrite cap_app.
  - pose proof H as (c & q' & -> & Hc & _)%ciEq_head.
    unfold Re.cap at 1.
    rewrite sapp_cons, lit_head_mismatch by (by rewrite (eqb_ci_trans _ _ _ Hc)).
    simpl. rewrite <- sapp_cons. by apply cap_app.
Qed.

Lemma urlMatch_ok p scope n items key :
  isUrlPrefix p -> isScope scope -> isNum n = true ->
  ciEq "/items/" items = true -> isKey key = true ->
  urlMatch (p +:+ scope +:+ "/" +:+ n +:+ items +:+ key) = Some (scope, n, key).
Proof.
  intros Hp Hs [Hn1 Hn2]%isNum_inv Hi [Hk1 Hk2]%isKey_inv. unfold urlMatch.
  destruct (urlPrefix_lit p (scope +:+ "/" +:+ n +:+ items +:+ key) Hp)
    as (q & -> & Hq).
  simpl. rewrite Hq. simpl. rewrite scope_cap by done. simpl.
  rewrite many1_app;
    [simpl | done | done | by apply (headNot_digit_lit "/" "items/" items)].
  rewrite lit_app by done. simpl.
  by rewrite many1_whole.
Qed.

Lemma urlMatch_inv s scope n key :
  urlMatch s = Some (scope, n, key) ->
  exists p items, s = p +:+ scope +:+ "/" +:+ n +:+ items +:+ key /\
    isUrlPrefix p /\ isScope scope /\ isNum n = true /\
    ciEq "/items/" items = true /\ isKey key = true.
Proof.
  unfold urlMatch. intros H. bind_as H r1 E1.
  apply lit_inv in E1 as (q1 & -> & H1 & _).
  bind_as H r3 E3.
  assert (exists p, q1 +:+ r1 = p +:+ r3 /\ isUrlPrefix p) as (p & -> & Hp).
  { apply lit_inv in E3 as (q3 & E & H3 & _).
    destruct (Re.lit "s" r1) as [r2|] eqn:E2; simpl in E.
    - apply lit_inv in E2 as (q2 & -> & H2 & _). subst r2.
      exists (q1 +:+ q2 +:+ q3). rewrite !sapp_assoc. split; [done |]. right.
      change "https://zotero.org/"%stdpp with ("http" +:+ "s" +:+ "://zotero.org/").
      by repeat apply ciEq_app.
    - subst r1. exists (q1 +:+ q3). rewrite !sapp_assoc. split; [done |]. left.
      change "http://zotero.org/"%stdpp with ("http" +:+ "://zotero.org/").
      by apply ciEq_app. }
  clear E3 H1.
  bind_as H m E4. destruct m as [sc r4]. simpl in H.
  assert (r3 = sc +:+ r4 /\ isScope sc) as (-> & Hs).
  { destruct (Re.cap "users" r3) as [[sc' r']|] eqn:E1.
    - injection E4 as -> ->. apply cap_inv in E1 as (-> & ?). split; [done | by left].
    - apply cap_inv in E4 as (-> & ?). split; [done | by right]. }
  clear E4.
  bind_as H r5 E5. apply lit_inv in E5 as (q & -> & Hq & _).
  apply ciEq_single in Hq as ->; [| done | done].
  bind_as H m E6. destruct m as [sid r6]. simpl in H.
  apply many1_inv in E6 as (-> & Hn1 & Hn2 & _).
  bind_as H r7 E7. apply lit_inv in E7 as (items & -> & Hi & _).
  bind_as H m E8. destruct m as [k r8]. simpl in H.
  apply many1_inv in E8 as (-> & Hk1 & Hk2 & _).
  bind_as H u E9. apply eoi_inv in E9 as ->. injection H as -> -> ->.
  exists p, items. rewrite sapp_nil_r. unfold isNum, isKey.
  by rewrite Hn1, Hn2, Hk1, Hk2.
Qed.

Lemma urlMatch_head c s :
  Char.eqb_ci "h" c = false -> urlMatch (String c s) = None.
Proof. intros H. unfold urlMatch. by rewrite lit_head_mismatch. Qed.

Lemma urlMatch_alnum s :
  JS.all Char.is_alnum s = true -> urlMatch s = None.
Proof.
  intros Hs. unfold urlMatch.
  destruct (Re.lit "http" s) as [r|] eqn:E; [| done]. simpl.
  pose proof (lit_keeps_alnum _ _ _ E Hs) as Hr.
  destruct (Re.lit "s" r) as [r'|] eqn:E'; simpl.
  - by rewrite (lit_alnum _ r') by (done || by eapply lit_keeps_alnum).
  - by rewrite lit_alnum.
Qed.

End MatchFacts.

(** ** normalizeZoteroSelectPath against the six shapes *)

Module NormalizeFacts.

Import StrFacts ReFacts CharFacts MatchFacts.
#[local] Arguments String.append : simpl nomatch.

Lemma ciEq_toLower p q :
  ciEq p q = true -> JS.all Char.is_lower p = true -> JS.toLowerCase q = p.
Proof.
  unfold JS.toLowerCase.
  revert q. induction p as [|a p IH]; intros [|c q]; simpl; try done.
  rewrite !andb_true_iff. intros [Hc Hq] [Ha Hp].
  by rewrite (eqb_ci_toLower a c Ha Hc), IH.
Qed.

(** Exposes the first code unit of a string that matches a literal. *)
Ltac expose_head H c Hc :=
  let q := fresh "q" in
  pose proof H as (c & q & -> & Hc & _)%ciEq_head;
  rewrite !sapp_cons.

Ltac other_head Hc := by rewrite (eqb_ci_trans _ _ _ Hc).

Lemma recognize_complete t y : Shape t y -> recognize t = Some y.
Proof.
  intros H. unfold recognize. destruct H as
    [p rest Hp Hne Hall
    | p scope n items key Hp Hs Hn Hi Hk
    | p scope n items key Hp Hs Hn Hi Hk
    | p n items key Hp Hn Hi Hk
    | p key Hp Hk
    | p n key Hp Hn Hk
    | n key Hn Hk
    | key Hk].
  - by rewrite schemeMatch_ok.
  - assert (schemeMatch (p +:+ scope +:+ "/" +:+ n +:+ items +:+ key) = None) as ->.
    { destruct Hp as [Hp | Hp]; expose_head Hp c Hc;
        apply schemeMatch_head; other_head Hc. }
    rewrite urlMatch_ok; [| done | by right | done..].
    by rewrite (ciEq_toLower "groups" scope).
  - assert (schemeMatch (p +:+ scope +:+ "/" +:+ n +:+ items +:+ key) = None) as ->.
    { destruct Hp as [Hp | Hp]; expose_head Hp c Hc;
        apply schemeMatch_head; other_head Hc. }
    rewrite urlMatch_ok; [| done | by left | done..].
    by rewrite (ciEq_toLower "users" scope).
  - rewrite groupsMatch_ok by done. expose_head Hp c Hc.
    rewrite schemeMatch_head by other_head Hc.
    by rewrite urlMatch_head by other_head Hc.
  - rewrite libraryMatch_ok by done. expose_head Hp c Hc.
    rewrite schemeMatch_head by other_head Hc.
    rewrite urlMatch_head by other_head Hc.
    by rewrite groupsMatch_head by other_head Hc.
  - rewrite bareItemsMatch_ok by done. expose_head Hp c Hc.
    rewrite schemeMatch_head by other_head Hc.
    rewrite urlMatch_head by other_head Hc.
    rewrite groupsMatch_head by other_head Hc.
    by rewrite libraryMatch_head by other_head Hc.
  - rewrite bareMatch_ok by done.
    pose proof Hn as [Hn1 Hn2]%isNum_inv.
    destruct n as [|d n]; [done |]. simpl in Hn2.
    apply andb_true_iff in Hn2 as [Hd _]. rewrite !sapp_cons.
    rewrite schemeMatch_head by (by apply eqb_ci_lower_digit).
    rewrite urlMatch_head by (by apply eqb_ci_lower_digit).
    rewrite groupsMatch_head by (by apply eqb_ci_lower_digit).
    rewrite libraryMatch_head by (by apply eqb_ci_lower_digit).
    by rewrite bareItemsMatch_head by (by apply eqb_ci_lower_digit).
  - pose proof Hk as [Hk1 Hk2]%isKey_inv.
    rewrite schemeMatch_alnum, urlMatch_alnum, groupsMatch_alnum,
      libraryMatch_alnum, bareItemsMatch_alnum, bareMatch_alnum by done.
    by rewrite simpleKeyMatch_ok.
Qed.

Lemma recognize_sound t y : recognize t = Some y -> Shape t y.
Proof.
  unfold recognize. intros H.
  destruct (schemeMatch t) as [rest|] eqn:E1.
  { injection H as ->. apply schemeMatch_inv in E1 as (p & -> & ? & ? & ?).
    by constructor. }
  destruct (urlMatch t) as [[[scope n] key]|] eqn:E2.
  { apply urlMatch_inv in E2 as (p & items & -> & Hp & Hs & Hn & Hi & Hk).
    destruct (String.eqb (JS.toLowerCase scope) "groups") eqn:El;
      injection H as <-.
    - apply ShUrlGroups; try done. destruct Hs as [Hs | Hs]; [| done].
      by rewrite (ciEq_toLower "users" scope) in El.
    - apply ShUrlUsers; try done. destruct Hs as [Hs | Hs]; [done |].
      by rewrite (ciEq_toLower "groups" scope) in El. }
  destruct (groupsMatch t) as [[n key]|] eqn:E3.
  { injection H as <-.
    apply groupsMatch_inv in E3 as (p & items & -> & ? & ? & ? & ?).
    by constructor. }
  destruct (libraryMatch t) as [key|] eqn:E4.
  { injection H as <-. apply libraryMatch_inv in E4 as (p & -> & ? & ?).
    by constructor. }
  destruct (bareItemsMatch t) as [[n key]|] eqn:E5.
  { injection H as <-. apply bareItemsMatch_inv in E5 as (p & -> & ? & ? & ?).
    by constructor. }
  destruct (bareMatch t) as [[n key]|] eqn:E6.
  { injection H as <-. apply bareMatch_inv in E6 as (-> & ? & ?).
    by constructor. }
  destruct (simpleKeyMatch t) as [key|] eqn:E7; [| done].
  injection H as <-. apply simpleKeyMatch_inv in E7 as (-> & ?).
  by constructor.
Qed.

Lemma Shape_nonEmpty t y : Shape t y -> nonEmpty t = true.
Proof.
  destruct 1; unfold isUrlPrefix in *;
    repeat match goal with
      | H : ciEq (String _ _) ?p = true |- _ =>
          apply ciEq_head in H as (? & ? & -> & _ & _)
      | H : _ \/ _ |- _ => destruct H
      | H : isNum _ = true |- _ => apply isNum_inv in H as [? _]
      | H : isKey _ = true |- _ => apply isKey_inv in H as [? _]
      end; try done; by apply nonEmpty_app_l.
Qed.

(** A text that starts with no whitespace and ends with a key is trimmed. *)
Lemma trim_keyed c a key :
  Char.is_space c = false -> isKey key = true ->
  JS.trim (String c (a +:+ key)) = String c (a +:+ key).
Proof.
  intros Hc [Hk1 Hk2]%isKey_inv. apply trim_id; [simpl; by rewrite Hc |].
  rewrite <- sapp_cons, lastNot_app by done. apply lastNot_all.
  eapply all_impl; [| exact Hk2]. intros d Hd. simpl.
  by rewrite alnum_not_space.
Qed.

Lemma ci_head_not_space a c :
  Char.is_space a = false -> Char.eqb_ci a c = true -> Char.is_space c = false.
Proof.
  intros Ha H%eqb_ci_canon. rewrite <- canon_space, H, canon_space. done.
Qed.

Lemma SelectPath_fixed y : SelectPath y -> normalizeZoteroSelectPath y = Some y.
Proof.
  intros H. assert (JS.trim y = y /\ Shape y y) as [Ht Hs].
  { destruct H as [key Hk | n key Hn Hk].
    - split.
      + unfold libraryPath. change "library/items/"%stdpp
          with (String "l" "ibrary/items/"). rewrite sapp_cons.
        by apply trim_keyed.
      + by apply ShLibrary.
    - split.
      + unfold groupsPath. change "groups/"%stdpp with (String "g" "roups/").
        rewrite sapp_cons, <- !sapp_assoc. by apply trim_keyed.
      + by apply ShGroups. }
  unfold normalizeZoteroSelectPath. simpl.
  pose proof (Shape_nonEmpty _ _ Hs) as Hne. unfold nonEmpty in Hne.
  rewrite Ht. destruct (JS.isEmpty y); [done |]. by apply recognize_complete.
Qed.

Lemma byLibraryId_SelectPath n key :
  isNum n = true -> isKey key = true -> SelectPath (byLibraryId n key).
Proof.
  intros Hn Hk. unfold byLibraryId. destruct (String.eqb n "0"); by constructor.
Qed.

(** Whatever a shape other than the scheme URI stands for is a SelectPath. *)
Lemma Shape_SelectPath t y :
  Shape t y -> schemeMatch t = None -> SelectPath y.
Proof.
  destruct 1; intros Hs; try (by constructor); try (by apply byLibraryId_SelectPath).
  by rewrite schemeMatch_ok in Hs.
Qed.

Lemma trim_nil_of_nil x : JS.isEmpty x = true -> JS.isEmpty (JS.trim x) = true.
Proof. by intros ->%isEmpty_true. Qed.

(** The normaliser returns [y] exactly when the trimmed identifier has one
    of the six shapes, and [y] is the path of that shape. *)
Lemma normalize_spec x y :
  normalizeZoteroSelectPath x = Some y <-> Shape (JS.trim x) y.
Proof.
  unfold normalizeZoteroSelectPath. split.
  - destruct (JS.isEmpty x); [done |].
    destruct (JS.isEmpty (JS.trim x)); [done |]. apply recognize_sound.
  - intros H. pose proof (Shape_nonEmpty _ _ H) as Hne. unfold nonEmpty in Hne.
    destruct (JS.isEmpty x) eqn:Ex.
    + by rewrite (trim_nil_of_nil x Ex) in Hne.
    + destruct (JS.isEmpty (JS.trim x)); [done |]. by apply recognize_complete.
Qed.

(** The fixed points of the normaliser are the SelectPaths. *)
Lemma fixed_SelectPath y : normalizeZoteroSelectPath y = Some y -> SelectPath y.
Proof.
  intros H. pose proof H as Hs%normalize_spec.
  destruct (schemeMatch (JS.trim y)) as [rest|] eqn:E.
  - exfalso. pose proof E as Hlen%schemeMatch_length.
    assert (rest = y) as ->.
    { unfold normalizeZoteroSelectPath, recognize in H. rewrite E in H.
      destruct (JS.isEmpty y); [done |].
      destruct (JS.isEmpty (JS.trim y)); [done |]. congruence. }
    pose proof (length_trim y). lia.
  - by eapply Shape_SelectPath.
Qed.

End NormalizeFacts.

(** ** Properties of normalizeZoteroSelectPath *)

Import StrFacts ReFacts CharFacts MatchFacts NormalizeFacts.

(** C8. [normalizeZoteroSelectPath] is a total function with no failure
    other than its absent result: on the empty string, on a string of
    whitespace only, and on a string whose trimmed text has none of the six
    recognised shapes, it returns absent.  In particular the empty string,
    a single space and [not-a-match] give absent. *)
Theorem normalize_absent :
  (forall x,
      x = "" \/ JS.all Char.is_space x = true \/ (forall y, ~ Shape (JS.trim x) y) ->
      normalizeZoteroSelectPath x = None)
  /\ normalizeZoteroSelectPath "" = None
  /\ normalizeZoteroSelectPath " " = None
  /\ normalizeZoteroSelectPath "not-a-match" = None.
Proof.
  split; [| by vm_compute].
  intros x H.
  assert (forall y, ~ Shape (JS.trim x) y) as Hno.
  { destruct H as [-> | [Hws | Hno]]; [| | done]; intros y Hs%Shape_nonEmpty.
    - done.
    - assert (JS.trimStart x = "") as E.
      { clear Hs. induction x as [|c x IH]; [done |]. simpl in *.
        apply andb_true_iff in Hws as [-> Hx]. by apply IH. }
      unfold JS.trim in Hs. by rewrite E in Hs. }
  destruct (normalizeZoteroSelectPath x) as [y|] eqn:E; [| done].
  apply normalize_spec in E. by destruct (Hno y).
Qed.

Lemma normalize_absent_witness :
  normalizeZoteroSelectPath "-" = None.
Proof.
  apply (proj1 normalize_absent "-"). right. right.
  intros y Hs%normalize_spec. vm_compute in Hs. discriminate Hs.
Defined.

(** C1, as the claim states it, fails: the scheme URI
    [zotero://select/not-a-match] is recognised and normalises to its rest
    [not-a-match], which is not recognised; normalising the result does not
    return it unchanged. *)
Lemma normalize_not_idempotent :
  normalizeZoteroSelectPath "zotero://select/not-a-match" = Some "not-a-match"
  /\ normalizeZoteroSelectPath "not-a-match" = None
  /\ (normalizeZoteroSelectPath "zotero://select/not-a-match"
        ≫= normalizeZoteroSelectPath)
     <> normalizeZoteroSelectPath "zotero://select/not-a-match".
Proof. by vm_compute. Qed.

(** C1, amended.  When [x] is recognised and normalises to [y]: if [x] is
    not of the scheme-URI shape (so it has one of the other five shapes),
    normalising [y] returns [y]; and for every shape, normalising [y]
    returns [y] exactly when [y] is a SelectPath, [library/items/<KEY>] or
    [groups/<N>/items/<KEY>]. *)
Theorem normalize_idempotent x y :
  normalizeZoteroSelectPath x = Some y ->
  (schemeMatch (JS.trim x) = None -> normalizeZoteroSelectPath y = Some y)
  /\ (normalizeZoteroSelectPath y = Some y <-> SelectPath y).
Proof.
  intros H. split.
  - intros Hs. apply SelectPath_fixed.
    apply normalize_spec in H. by eapply Shape_SelectPath.
  - split; [apply fixed_SelectPath | apply SelectPath_fixed].
Qed.

Lemma normalize_idempotent_witness :
  normalizeZoteroSelectPath "groups/25/items/XYZ123" = Some "groups/25/items/XYZ123".
Proof.
  refine (proj1 (normalize_idempotent
                   "https://zotero.org/groups/25/items/XYZ123" _ _) _);
    reflexivity.
Defined.

(** ** A web URL on another host *)

Module OtherHostFacts.

Import StrFacts ReFacts CharFacts MatchFacts NormalizeFacts.
#[local] Arguments String.append : simpl nomatch.

Lemma ci_clash p q p' q' s s' :
  ciEq p q = true -> ciEq p' q' = true -> q +:+ s = q' +:+ s' ->
  ciCompatible p p' = true.
Proof.
  revert q p' q'. induction p as [|a p IH]; intros q p' q' Hq Hq' Heq; [done |].
  destruct p' as [|b p']; [done |].
  apply ciEq_head in Hq as (c & r & -> & Hc & Hr).
  apply ciEq_head in Hq' as (c' & r' & -> & Hc' & Hr').
  simpl in Heq. injection Heq as <- Heq. simpl.
  apply eqb_ci_canon in Hc, Hc'. rewrite <- Hc, <- Hc', Ascii.eqb_refl. simpl.
  by apply (IH r p' r').
Qed.

Lemma sapp_inv_length a b a' b' :
  a +:+ b = a' +:+ b' -> String.length a = String.length a' -> a = a' /\ b = b'.
Proof.
  revert a'. induction a as [|x a IH]; intros [|y a'] H Hlen; simpl in *; try done.
  injection H as -> H. injection Hlen as Hlen.
  by destruct (IH a' H Hlen) as [-> ->].
Qed.

Lemma host_until_slash h h' r r' :
  isHostName h = true -> isHostName h' = true ->
  h +:+ String "/" r = h' +:+ String "/" r' -> h = h'.
Proof.
  unfold isHostName. revert h'.
  induction h as [|x h IH]; intros [|y h'] Hh Hh' H; simpl in *.
  - done.
  - injection H as <- _. done.
  - injection H as -> _. done.
  - injection H as -> H. apply andb_true_iff in Hh as [_ Hh].
    apply andb_true_iff in Hh' as [_ Hh']. by rewrite (IH h' Hh Hh' H).
Qed.

Lemma ciEq_hostName p q :
  ciEq p q = true -> isHostName p = true -> isHostName q = true.
Proof.
  unfold isHostName. revert q.
  induction p as [|a p IH]; intros [|c q]; simpl; try done.
  intros [Hc Hq]%andb_true_iff [Ha Hp]%andb_true_iff.
  rewrite (IH q Hq Hp), andb_true_r. revert Hc Ha. each_char c; each_char a.
Qed.

Lemma webScheme_head scheme :
  isWebScheme scheme ->
  exists c r, scheme = String c r /\ Char.eqb_ci "h" c = true
              /\ JS.all Char.is_alnum scheme = false.
Proof.
  intros [H | H].
  - pose proof (lit_app _ _ "" H) as Hl. rewrite sapp_nil_r in Hl.
    apply ciEq_head in H as (c & r & -> & Hc & _). exists c, r.
    split; [done |]. split; [done |].
    destruct (JS.all Char.is_alnum (String c r)) eqn:E; [| done].
    by rewrite (lit_alnum "http://" _ eq_refl E) in Hl.
  - pose proof (lit_app _ _ "" H) as Hl. rewrite sapp_nil_r in Hl.
    apply ciEq_head in H as (c & r & -> & Hc & _). exists c, r.
    split; [done |]. split; [done |].
    destruct (JS.all Char.is_alnum (String c r)) eqn:E; [| done].
    by rewrite (lit_alnum "https://" _ eq_refl E) in Hl.
Qed.

(** The prefix of the web URL pattern: a scheme, the host, a slash. *)
Lemma urlPrefix_parts p :
  isUrlPrefix p ->
  exists scheme host, p = scheme +:+ host +:+ "/"
    /\ ciEq "zotero.org" host = true
    /\ ((ciEq "http://" scheme = true /\ ciEq "http://zotero.org/" p = true)
        \/ (ciEq "https://" scheme = true /\ ciEq "https://zotero.org/" p = true)).
Proof.
  intros [H | H]; pose proof H as H0.
  - apply (ciEq_app_inv "http://" "zotero.org/") in H as (s & r & -> & Hs & Hr).
    apply (ciEq_app_inv "zotero.org" "/") in Hr as (h & sl & -> & Hh & Hsl).
    apply ciEq_single in Hsl as ->; [| done | done].
    exists s, h. split; [done |]. split; [done |]. left. by split.
  - apply (ciEq_app_inv "https://" "zotero.org/") in H as (s & r & -> & Hs & Hr).
    apply (ciEq_app_inv "zotero.org" "/") in Hr as (h & sl & -> & Hh & Hsl).
    apply ciEq_single in Hsl as ->; [| done | done].
    exists s, h. split; [done |]. split; [done |]. right. by split.
Qed.

Lemma urlPrefix_other_host scheme host r p r' :
  isWebScheme scheme -> isHostName host = true ->
  ciEq "zotero.org" host = false -> isUrlPrefix p ->
  scheme +:+ host +:+ "/" +:+ r = p +:+ r' -> False.
Proof.
  intros Hs Hh Hno Hp Heq.
  destruct (urlPrefix_parts p Hp) as (ps & ph & -> & Hph & Hps).
  assert (String.length scheme = String.length ps) as Hlen.
  { destruct Hs as [Hs | Hs], Hps as [[Hps Hp'] | [Hps Hp']];
      try (rewrite (ciEq_refl_canon _ _ Hs), (ciEq_refl_canon _ _ Hps); done).
    - by pose proof (ci_clash _ _ _ _ _ _ Hs Hp' Heq).
    - by pose proof (ci_clash _ _ _ _ _ _ Hs Hp' Heq). }
  rewrite !sapp_assoc in Heq.
  apply sapp_inv_length in Heq as [_ Heq]; [| done].
  change ("/" +:+ r) with (String "/" r) in Heq.
  change ("/" +:+ r') with (String "/" r') in Heq.
  apply host_until_slash in Heq; [| done | by apply (ciEq_hostName "zotero.org")].
  subst ph. congruence.
Qed.

Lemma other_host_unrecognised scheme host path key :
  isWebScheme scheme -> isHostName host = true ->
  ciEq "zotero.org" host = false -> isKey key = true ->
  normalizeZoteroSelectPath (scheme +:+ host +:+ "/" +:+ path +:+ key) = None.
Proof.
  intros Hs Hh Hno Hk.
  destruct (webScheme_head scheme Hs) as (c & r & Hsc & Hc & Hal).
  destruct (normalizeZoteroSelectPath _) as [y|] eqn:E; [| done]. exfalso.
  apply normalize_spec in E.
  assert (JS.trim (scheme +:+ host +:+ "/" +:+ path +:+ key)
          = scheme +:+ host +:+ "/" +:+ path +:+ key) as Ht.
  { rewrite Hsc, sapp_cons, <- !sapp_assoc. apply trim_keyed; [| done].
    by apply (ci_head_not_space "h"). }
  rewrite Ht in E. clear Ht.
  remember (scheme +:+ host +:+ "/" +:+ path +:+ key) as t eqn:Ht.
  assert (forall lit p rest, ciEq lit p = true -> t = p +:+ rest ->
            ciCompatible "http://" lit = false ->
            ciCompatible "https://" lit = false -> False) as Hclash.
  { intros lit p rest Hp Hrest H1 H2. rewrite Ht in Hrest.
    destruct Hs as [Hs | Hs].
    - by rewrite (ci_clash _ _ _ _ _ _ Hs Hp Hrest) in H1.
    - by rewrite (ci_clash _ _ _ _ _ _ Hs Hp Hrest) in H2. }
  destruct E as [p rest Hp _ _
                | p scope n items key' Hp _ _ _ _
                | p scope n items key' Hp _ _ _ _
                | p n items key' Hp _ _ _
                | p key' Hp _
                | p n key' Hp _ _
                | n key' Hn _
                | key' Hk'].
  - by apply (Hclash _ p rest Hp eq_refl).
  - symmetry in Ht. by apply (urlPrefix_other_host _ _ _ _ _ Hs Hh Hno Hp Ht).
  - symmetry in Ht. by apply (urlPrefix_other_host _ _ _ _ _ Hs Hh Hno Hp Ht).
  - by apply (Hclash _ p _ Hp eq_refl).
  - by apply (Hclash _ p _ Hp eq_refl).
  - by apply (Hclash _ p _ Hp eq_refl).
  - apply isNum_inv in Hn as [Hne Hd]. destruct n as [|d n]; [done |].
    rewrite Hsc in Ht. simpl in Ht, Hd. injection Ht as -> _.
    apply andb_true_iff in Hd as [Hd _].
    by rewrite (eqb_ci_lower_digit "h" c eq_refl Hd) in Hc.
  - apply isKey_inv in Hk' as [_ Hall]. rewrite Ht, all_app in Hall.
    apply andb_true_iff in Hall as [Hall _]. congruence.
Qed.

End OtherHostFacts.

Import OtherHostFacts.

(** C5, as the claim states it, fails for a host other than [zotero.org]:
    the web URL [https://www.zotero.org/groups/25/items/XYZ123] is not
    recognised. *)
Lemma normalize_other_host :
  normalizeZoteroSelectPath "https://www.zotero.org/groups/25/items/XYZ123" = None.
Proof. by vm_compute. Qed.

(** C5, amended.  For every web URL [https?://zotero.org/(users|groups)/<N>/items/<KEY>]
    on the host [zotero.org] (letters in any case), with [<N>] a non-empty
    digit string and [<KEY>] a non-empty alphanumeric string, the result is
    [groups/<N>/items/<KEY>] for the scope [groups] and
    [library/items/<KEY>] for the scope [users]; the two URLs of the claim
    map to [groups/25/items/XYZ123] and [library/items/Z9999].  A URL on any
    other host is not recognised: whatever the host (a text without slash
    that is not [zotero.org], letter case aside) and whatever follows it up
    to a final alphanumeric key, the result is absent. *)
Theorem normalize_web_url :
  (forall p scope n items key,
      isUrlPrefix p -> isNum n = true ->
      ciEq "/items/" items = true -> isKey key = true ->
      (ciEq "groups" scope = true ->
       normalizeZoteroSelectPath (p +:+ scope +:+ "/" +:+ n +:+ items +:+ key)
       = Some ("groups/" +:+ n +:+ "/items/" +:+ key))
      /\ (ciEq "users" scope = true ->
          normalizeZoteroSelectPath (p +:+ scope +:+ "/" +:+ n +:+ items +:+ key)
          = Some ("library/items/" +:+ key)))
  /\ (forall scheme host path key,
         isWebScheme scheme -> isHostName host = true ->
         ciEq "zotero.org" host = false -> isKey key = true ->
         normalizeZoteroSelectPath (scheme +:+ host +:+ "/" +:+ path +:+ key)
         = None)
  /\ normalizeZoteroSelectPath "https://zotero.org/groups/25/items/XYZ123"
     = Some "groups/25/items/XYZ123"
  /\ normalizeZoteroSelectPath "https://zotero.org/users/0/items/Z9999"
     = Some "library/items/Z9999".
Proof.
  split; [| split; [exact other_host_unrecognised | by vm_compute]].
  intros p scope n items key Hp Hn Hi Hk.
  assert (JS.trim (p +:+ scope +:+ "/" +:+ n +:+ items +:+ key)
          = p +:+ scope +:+ "/" +:+ n +:+ items +:+ key) as Ht.
  { assert (exists c q, p = String c q /\ Char.is_space c = false)
      as (c & q & -> & Hc).
    { destruct Hp as [Hp | Hp];
        apply ciEq_head in Hp as (c & q & -> & Hc & _); exists c, q;
        (split; [done | by apply (ci_head_not_space "h")]). }
    rewrite sapp_cons, <- !sapp_assoc. by apply trim_keyed. }
  split; intros Hs; apply normalize_spec; rewrite Ht.
  - by apply ShUrlGroups.
  - by apply ShUrlUsers.
Qed.

Lemma normalize_web_url_witness :
  normalizeZoteroSelectPath ("HTTP://Zotero.org/" +:+ "Groups" +:+ "/" +:+ "7"
                             +:+ "/items/" +:+ "AbC9")
  = Some ("groups/" +:+ "7" +:+ "/items/" +:+ "AbC9")
  /\ normalizeZoteroSelectPath ("https://" +:+ "api.zotero.org" +:+ "/"
                                +:+ "users/1/items/" +:+ "ABCD")
     = None.
Proof.
  split.
  - apply (proj1 normalize_web_url "HTTP://Zotero.org/" "Groups" "7" "/items/" "AbC9");
      try reflexivity.
    by left.
  - apply (proj1 (proj2 normalize_web_url) "https://" "api.zotero.org"
             "users/1/items/" "ABCD"); try reflexivity.
    by right.
Defined.

(** ** Properties of the citation keys *)

Module CitekeyFacts.

Import StrFacts.

Lemma toLowerCase_nonEmpty s : nonEmpty (JS.toLowerCase s) = nonEmpty s.
Proof. by destruct s. Qed.

(** A canonical key is never the empty string, so the truthiness test of
    [collectNormalizedValues] drops nothing that was normalised. *)
Lemma normalizeCitekey_nonEmpty v c :
  normalizeCitekey v = Some c -> nonEmpty c = true.
Proof.
  unfold normalizeCitekey.
  destruct v as [| | b | n | s | items | props]; try done.
  - destruct (JS.isEmpty (JS.trim (Num.toString n))); [done |].
    destruct (JS.isEmpty (stripAt _)) eqn:E; [done |].
    intros H. injection H as <-. rewrite toLowerCase_nonEmpty.
    unfold nonEmpty. by rewrite E.
  - destruct (JS.isEmpty (JS.trim s)); [done |].
    destruct (JS.isEmpty (stripAt _)) eqn:E; [done |].
    intros H. injection H as <-. rewrite toLowerCase_nonEmpty.
    unfold nonEmpty. by rewrite E.
Qed.

Lemma bucketIncludes_spec bucket x :
  bucketIncludes bucket x = true <-> x ∈ bucket.
Proof.
  unfold bucketIncludes. rewrite existsb_exists. split.
  - intros (y & Hy & ->%String.eqb_eq). by apply list_elem_of_In.
  - intros H. exists x. split; [by apply list_elem_of_In | apply eqb_refl'].
Qed.

Lemma pushNormalized_setAdd bucket e :
  pushNormalized bucket e =
  match normalizeCitekey e with
  | Some c => setAdd bucket c
  | None => bucket
  end.
Proof.
  unfold pushNormalized, setAdd.
  destruct (normalizeCitekey e) as [c|] eqn:E; [| done].
  apply normalizeCitekey_nonEmpty in E. unfold nonEmpty in E. rewrite E.
  simpl. by destruct (bucketIncludes bucket c).
Qed.

Lemma fold_pushNormalized items bucket :
  fold_left pushNormalized items bucket =
  fold_left setAdd (omap normalizeCitekey items) bucket.
Proof.
  revert bucket. induction items as [|e items IH]; intros bucket; [done |].
  simpl. rewrite IH, pushNormalized_setAdd.
  by destruct (normalizeCitekey e).
Qed.

Lemma collectNormalizedValues_setAdd v bucket :
  collectNormalizedValues v bucket =
  fold_left setAdd (omap normalizeCitekey (elements v)) bucket.
Proof.
  destruct v; simpl; try apply fold_pushNormalized;
    rewrite pushNormalized_setAdd; simpl; try done;
    by match goal with |- context [normalizeCitekey ?v] =>
         destruct (normalizeCitekey v) end.
Qed.

Lemma collectField_setAdd keys field :
  collectField keys field = fold_left setAdd (declaredByField field) keys.
Proof.
  destruct field as [k v]. unfold collectField, declaredByField. simpl.
  destruct (isCitekeyField _); [apply collectNormalizedValues_setAdd | done].
Qed.

Lemma fold_collectField fields keys :
  fold_left collectField fields keys =
  fold_left setAdd (flat_map declaredByField fields) keys.
Proof.
  revert keys. induction fields as [|f fields IH]; intros keys; [done |].
  simpl. by rewrite fold_left_app, IH, collectField_setAdd.
Qed.

Lemma filter_filter_weaker (P Q : string -> Prop)
  `{!forall x, Decision (P x)} `{!forall x, Decision (Q x)} (l : list string) :
  (forall x, P x -> Q x) -> filter P (filter Q l) = filter P l.
Proof.
  intros HPQ. induction l as [|x l IH]; [done |].
  rewrite !filter_cons. destruct (decide (Q x)) as [HQ | HQ].
  - rewrite filter_cons. by rewrite IH.
  - destruct (decide (P x)) as [HP | HP]; [by destruct HQ; auto | done].
Qed.

(** Adding the elements of [l] one by one to a set kept in insertion order
    appends the first occurrences that the set did not have. *)
Lemma fold_setAdd l acc :
  fold_left setAdd l acc = acc ++ filter (λ y, y ∉ acc) (firstOccurrences l).
Proof.
  revert acc. induction l as [|x l IH]; intros acc; simpl.
  - by rewrite app_nil_r.
  - rewrite IH. unfold setAdd. rewrite filter_cons.
    destruct (bucketIncludes acc x) eqn:E.
    + apply bucketIncludes_spec in E. rewrite decide_False by tauto.
      f_equal. rewrite filter_filter_weaker; [done |]. intros y Hy ->; tauto.
    + assert (x ∉ acc) as Hx
        by (intros Hx%bucketIncludes_spec; congruence).
      rewrite decide_True by done. rewrite <- app_assoc. simpl. do 2 f_equal.
      rewrite list_filter_filter. apply list_filter_iff. intros y.
      rewrite elem_of_app, list_elem_of_singleton. tauto.
Qed.

Lemma filter_all (P : string -> Prop) `{!forall x, Decision (P x)}
  (l : list string) : (forall x, P x) -> filter P l = l.
Proof.
  intros HP. induction l as [|x l IH]; [done |].
  by rewrite filter_cons_True, IH.
Qed.

Lemma uniq_firstOccurrences l : uniq l = firstOccurrences l.
Proof.
  unfold uniq. rewrite fold_setAdd. simpl.
  apply filter_all. intros y. apply not_elem_of_nil.
Qed.

Lemma elem_of_firstOccurrences x l : x ∈ firstOccurrences l <-> x ∈ l.
Proof.
  induction l as [|y l IH]; [done |]. simpl.
  rewrite !elem_of_cons, list_elem_of_filter, IH.
  destruct (decide (x = y)); tauto.
Qed.

Lemma NoDup_firstOccurrences l : NoDup (firstOccurrences l).
Proof.
  induction l as [|y l IH]; simpl; [constructor |].
  constructor; [| by apply NoDup_filter].
  rewrite list_elem_of_filter. tauto.
Qed.

Lemma collect_firstOccurrences fm :
  collectNormalizedCitekeys fm = firstOccurrences (declaredKeys fm).
Proof.
  destruct fm as [fields|]; [| done]. simpl.
  rewrite fold_collectField. apply uniq_firstOccurrences.
Qed.

Lemma elem_of_declaredKeys fields c :
  c ∈ declaredKeys (Some fields) <->
  exists k v e, (k, v) ∈ fields
    /\ isCitekeyField (JS.toLowerCase (JS.trim k)) = true
    /\ e ∈ elements v /\ normalizeCitekey e = Some c.
Proof.
  unfold declaredKeys. rewrite list_elem_of_In, in_flat_map. split.
  - intros ([k v] & Hin & Hc). unfold declaredByField in Hc.
    change (k, v).1 with k in Hc. change (k, v).2 with v in Hc.
    destruct (isCitekeyField (JS.toLowerCase (JS.trim k))) eqn:Hf.
    + apply list_elem_of_In, list_elem_of_omap in Hc as (e & He & Hn).
      exists k, v, e. split; [apply list_elem_of_In, Hin |].
      split; [exact Hf |]. split; assumption.
    + destruct Hc.
  - intros (k & v & e & Hin & Hf & He & Hn). exists (k, v).
    split; [apply list_elem_of_In, Hin |]. unfold declaredByField.
    change (k, v).1 with k. change (k, v).2 with v.
    rewrite Hf. apply list_elem_of_In, list_elem_of_omap.
    exists e. split; assumption.
Qed.

Lemma elem_of_citekeyFields key :
  key ∈ citekeyFields <->
  key ∈ ["citekey"; "cite-key"; "zotero-key"; "zotero_key"; "zoterokey";
         "bbt-citekey"; "bbt_citekey"; "better-bibtex-citekey";
         "betterbibtexcitekey"].
Proof.
  unfold citekeyFields.
  rewrite !elem_of_union, !elem_of_singleton, !elem_of_cons, elem_of_nil.
  tauto.
Qed.

Lemma isCitekeyField_true key :
  isCitekeyField key = true <-> key ∈ citekeyFields.
Proof. apply bool_decide_eq_true. Qed.

Lemma eqb_ci_alias a c :
  aliasChar a = true -> Char.eqb_ci a c = true -> Char.toLower c = a.
Proof.
  unfold aliasChar. rewrite !orb_true_iff, !Ascii.eqb_eq.
  intros [[Ha | ->] | ->] Hc.
  - by apply CharFacts.eqb_ci_toLower.
  - by rewrite (CharFacts.eqb_ci_exact "-" c).
  - by rewrite (CharFacts.eqb_ci_exact "_" c).
Qed.

Lemma ciEq_alias p q :
  JS.all aliasChar p = true -> ciEq p q = true -> JS.toLowerCase q = p.
Proof.
  unfold JS.toLowerCase.
  revert q. induction p as [|a p IH]; intros [|c q]; simpl; try done.
  rewrite !andb_true_iff. intros [Ha Hp] [Hc Hq].
  by rewrite (eqb_ci_alias a c Ha Hc), IH.
Qed.

Lemma citekeyFields_aliasChar alias :
  alias ∈ citekeyFields -> JS.all aliasChar alias = true.
Proof.
  rewrite elem_of_citekeyFields, !elem_of_cons.
  intros H.
  repeat (destruct H as [H | H]; [subst alias; vm_compute; reflexivity |]).
  by apply elem_of_nil in H.
Qed.

End CitekeyFacts.

Import CitekeyFacts.

(** ** The text of a number *)

Module NumFacts.

Import StrFacts CharFacts.
#[local] Arguments String.append : simpl nomatch.

Lemma string_of_uint_digits d :
  JS.all Char.is_digit (NilEmpty.string_of_uint d) = true.
Proof. induction d; simpl; try done. Qed.

Lemma digitsValue_acc d acc :
  digitsValue (Z.pos acc) (NilEmpty.string_of_uint d)
  = Some (Z.pos (Pos.of_uint_acc d acc)).
Proof.
  revert acc. induction d as [|d IH|d IH|d IH|d IH|d IH|d IH|d IH|d IH|d IH|d IH];
    intros acc; [done | ..];
    cbn [NilEmpty.string_of_uint digitsValue Pos.of_uint_acc];
    (match goal with
     | |- (if Char.is_digit ?c then _ else _) = _ =>
         change (Char.is_digit c) with true; cbv iota
     end);
    rewrite <- IH; f_equal; vm_compute Char.code; lia.
Qed.

Lemma digitsValue_of_uint d :
  digitsValue 0 (NilEmpty.string_of_uint d) = Some (Z.of_N (Pos.of_uint d)).
Proof.
  induction d as [|d IH|d IH|d IH|d IH|d IH|d IH|d IH|d IH|d IH|d IH];
    [done | exact IH | ..];
    cbn [NilEmpty.string_of_uint digitsValue Pos.of_uint];
    (match goal with
     | |- (if Char.is_digit ?c then _ else _) = _ =>
         change (Char.is_digit c) with true; cbv iota
     end);
    apply digitsValue_acc.
Qed.

(** The numeral of a positive number starts with no zero. *)
Lemma to_uint_head p :
  JS.startsWith (NilEmpty.string_of_uint (Pos.to_uint p)) "0" = false.
Proof.
  assert (Decimal.unorm (Pos.to_uint p) = Pos.to_uint p) as Hn.
  { change (Pos.to_uint p) with (N.to_uint (N.pos p)).
    rewrite <- (DecimalN.Unsigned.of_to (N.pos p)) at 2.
    by rewrite DecimalN.Unsigned.to_of. }
  pose proof (DecimalPos.Unsigned.to_uint_nonzero p) as Hz.
  destruct (Pos.to_uint p) as [|l| | | | | | | | |]; try done.
  exfalso. unfold Decimal.unorm in Hn. cbn [Decimal.nzhead] in Hn.
  pose proof (DecimalFacts.nb_digits_nzhead l) as Hlen.
  destruct (Decimal.nzhead l) eqn:E; try (rewrite Hn in Hlen; simpl in Hlen; lia).
  injection Hn as <-. done.
Qed.

Lemma numeral_of_pos p :
  isNumeralOf (Z.pos p) (NilZero.string_of_uint (Pos.to_uint p)).
Proof.
  pose proof (DecimalPos.Unsigned.to_uint_nonnil p) as Hnil.
  assert (NilZero.string_of_uint (Pos.to_uint p)
          = NilEmpty.string_of_uint (Pos.to_uint p)) as ->
    by (unfold NilZero.string_of_uint; by destruct (Pos.to_uint p)).
  split; [| split].
  - unfold isNum. rewrite string_of_uint_digits, andb_true_r.
    by destruct (Pos.to_uint p).
  - right. apply to_uint_head.
  - by rewrite digitsValue_of_uint, DecimalPos.Unsigned.of_to.
Qed.

(** [String(n)] of an integer is its decimal text. *)
Lemma toString_decimal z safe : isDecimalOf z (Num.toString (NumInt z safe)).
Proof.
  unfold isDecimalOf, Num.toString. destruct z as [|p|p]; simpl.
  - split; [done |]. split; [by left | done].
  - apply numeral_of_pos.
  - exists (NilZero.string_of_uint (Pos.to_uint p)). split; [done |].
    apply numeral_of_pos.
Qed.

Lemma digit_lower c : Char.is_digit c = true -> Char.toLower c = c.
Proof. each_char c. Qed.

Lemma digit_no_space c : Char.is_digit c = true -> Char.is_space c = false.
Proof. each_char c. Qed.

Lemma numeral_plain z s :
  isNumeralOf z s ->
  nonEmpty s = true /\ JS.trim s = s /\ JS.toLowerCase s = s
  /\ JS.all Char.is_digit s = true.
Proof.
  intros [Hn _]. apply andb_true_iff in Hn as [Hne Hd].
  split; [done |]. split; [| split; [| done]].
  - apply trim_id.
    + destruct s as [|c s]; [done |]. simpl in *.
      apply andb_true_iff in Hd as [Hc _]. by rewrite digit_no_space.
    + apply lastNot_all. eapply all_impl; [| exact Hd].
      intros c Hc. by rewrite digit_no_space.
  - clear Hne. unfold JS.toLowerCase. induction s as [|c s IH]; [done |].
    simpl in *. apply andb_true_iff in Hd as [Hc Hd].
    by rewrite digit_lower, IH.
Qed.

(** The decimal text of an integer is a citation key as it stands. *)
Lemma decimal_citekey z s : isDecimalOf z s -> normalizeCitekey (VStr s) = Some s.
Proof.
  unfold isDecimalOf. destruct (z <? 0)%Z.
  - intros (d & -> & (Hne & Ht & Hl & Hd)%numeral_plain).
    assert (JS.trim ("-" +:+ d) = "-" +:+ d) as Htrim.
    { change ("-" +:+ d) with (String "-" d). apply trim_id; [done |].
      destruct d as [|c d]; [done |].
      change (lastNot Char.is_space (String "-" (String c d)))
        with (lastNot Char.is_space (String c d)).
      apply lastNot_all. eapply all_impl; [| exact Hd].
      intros a Ha. by rewrite digit_no_space. }
    unfold normalizeCitekey. rewrite Htrim.
    change ("-" +:+ d) with (String "-" d). simpl.
    unfold JS.toLowerCase in *. simpl. by rewrite Hl.
  - intros H. pose proof (numeral_plain _ _ H) as (Hne & Ht & Hl & Hd).
    unfold normalizeCitekey. rewrite Ht.
    destruct s as [|c s]; [done |]. simpl in Hd.
    apply andb_true_iff in Hd as [Hc Hd].
    assert (stripAt (String c s) = String c s) as ->
      by (revert Hc; each_char c).
    simpl JS.isEmpty. cbv iota. by rewrite Hl.
Qed.

Lemma digits_of_uint s :
  JS.all Char.is_digit s = true -> exists d, s = NilEmpty.string_of_uint d.
Proof.
  induction s as [|c s IH]; [by exists Decimal.Nil |]. simpl.
  intros [Hc [d ->]%IH]%andb_true_iff. revert Hc.
  destruct c as [[] [] [] [] [] [] [] []]; try discriminate; intros _;
    first [ by exists (Decimal.D0 d) | by exists (Decimal.D1 d)
          | by exists (Decimal.D2 d) | by exists (Decimal.D3 d)
          | by exists (Decimal.D4 d) | by exists (Decimal.D5 d)
          | by exists (Decimal.D6 d) | by exists (Decimal.D7 d)
          | by exists (Decimal.D8 d) | by exists (Decimal.D9 d) ].
Qed.

(** A natural number has one numeral. *)
Lemma numeral_unique z s :
  isNumeralOf z s -> s = NilEmpty.string_of_uint (N.to_uint (Z.to_N z)).
Proof.
  intros (Hn & Hz & Hv). apply andb_true_iff in Hn as [Hne Hd].
  destruct (digits_of_uint s Hd) as [d ->].
  rewrite digitsValue_of_uint in Hv. injection Hv as <-.
  rewrite N2Z.id. change Pos.of_uint with N.of_uint.
  rewrite DecimalN.Unsigned.to_of. f_equal.
  destruct d as [|l| | | | | | | | |]; try done.
  destruct Hz as [Hz | Hz]; [| done].
  destruct l; try done.
Qed.

Lemma decimal_unique z s s' : isDecimalOf z s -> isDecimalOf z s' -> s = s'.
Proof.
  unfold isDecimalOf. destruct (z <? 0)%Z.
  - intros (d & -> & Hd%numeral_unique) (d' & -> & Hd'%numeral_unique). congruence.
  - intros H%numeral_unique H'%numeral_unique. congruence.
Qed.

End NumFacts.

Import NumFacts.

(** C4. [normalizeCitekey] accepts a string or a number, read through its
    text [String(n)]: for a safe integer that is its decimal text, which is
    the result as it stands; NaN and the infinities give [nan], [infinity]
    and [-infinity].  It returns absent for any other value, for an empty or
    whitespace-only text, and for a text that trims to the [@] prefix
    alone.  Otherwise it returns the trimmed text without its one leading
    [@], lower-cased.  ["  @Smith2020 "] gives [smith2020], ["@"] gives
    absent and the number 1234 gives [1234]. *)
Theorem normalizeCitekey_spec :
  (forall v, (forall s, v <> VStr s) -> (forall n, v <> VNum n) ->
             normalizeCitekey v = None)
  /\ (forall n, normalizeCitekey (VNum n) = normalizeCitekey (VStr (Num.toString n)))
  /\ (forall z safe,
        exists s, isDecimalOf z s /\ Num.toString (NumInt z safe) = s
                  /\ normalizeCitekey (VNum (NumInt z safe)) = Some s)
  /\ (forall z s s', isDecimalOf z s -> isDecimalOf z s' -> s = s')
  /\ (forall r, Num.toString (NumOther r) = r)
  /\ (normalizeCitekey (VNum NumNaN) = Some "nan"
      /\ normalizeCitekey (VNum (NumInf false)) = Some "infinity"
      /\ normalizeCitekey (VNum (NumInf true)) = Some "-infinity")
  /\ (forall s, JS.all Char.is_space s = true -> normalizeCitekey (VStr s) = None)
  /\ (forall s, JS.trim s = "@" -> normalizeCitekey (VStr s) = None)
  /\ (forall s rest, JS.trim s = String "@" rest -> rest <> "" ->
                     normalizeCitekey (VStr s) = Some (JS.toLowerCase rest))
  /\ (forall s, JS.all Char.is_space s = false ->
                JS.startsWith (JS.trim s) "@" = false ->
                normalizeCitekey (VStr s) = Some (JS.toLowerCase (JS.trim s)))
  /\ normalizeCitekey (VStr "  @Smith2020 ") = Some "smith2020"
  /\ normalizeCitekey (VStr "@") = None
  /\ normalizeCitekey (VNum (NumInt 1234 I)) = Some "1234"
  /\ normalizeCitekey (VNum (NumInt (-42) I)) = Some "-42".
Proof.
  split; [| split; [| split; [| split; [| split; [| split; [| split; [| split;
    [| split; [| split]]]]]]]]].
  - intros v Hs Hn. destruct v; try reflexivity;
      [by destruct (Hn n) | by destruct (Hs s)].
  - reflexivity.
  - intros z safe. exists (Num.toString (NumInt z safe)).
    pose proof (toString_decimal z safe) as Hd.
    split; [done |]. split; [done |].
    change (normalizeCitekey (VNum (NumInt z safe)))
      with (normalizeCitekey (VStr (Num.toString (NumInt z safe)))).
    by apply (decimal_citekey z).
  - apply decimal_unique.
  - reflexivity.
  - by vm_compute.
  - intros s Hs%trim_nil. unfold normalizeCitekey. by rewrite Hs.
  - intros s Hs. unfold normalizeCitekey. by rewrite Hs.
  - intros s rest Hs Hr. unfold normalizeCitekey. rewrite Hs.
    by destruct rest.
  - intros s Hs Hat. unfold normalizeCitekey.
    destruct (JS.trim s) as [|c t] eqn:E.
    + apply trim_nil in E. congruence.
    + assert (stripAt (String c t) = String c t) as ->; [| reflexivity].
      simpl in Hat. destruct t; simpl in Hat; rewrite andb_true_r in Hat;
        apply Ascii.eqb_neq in Hat;
        destruct c as [[] [] [] [] [] [] [] []]; try reflexivity; by destruct Hat.
  - by vm_compute.
Qed.

Lemma normalizeCitekey_spec_witness :
  normalizeCitekey (VStr " @Doe2021") = Some (JS.toLowerCase "Doe2021").
Proof.
  apply (proj1 (proj2 (proj2 (proj2 (proj2 (proj2 (proj2 (proj2
           (proj2 normalizeCitekey_spec))))))))
           " @Doe2021" "Doe2021"); [reflexivity | discriminate].
Defined.

(** C7. For every structured header the list [collectNormalizedCitekeys]
    returns has no duplicate; it is the list of the canonical keys of the
    matching fields, elements that normalise to absent dropped, with every
    key kept where it first appears; no key in it is the empty string.  The
    header of the claim yields [alpha2020; bravo2021; charlie2022]. *)
Theorem collect_unique_ordered :
  (forall fm,
      NoDup (collectNormalizedCitekeys fm)
      /\ collectNormalizedCitekeys fm = firstOccurrences (declaredKeys fm)
      /\ (forall c, c ∈ collectNormalizedCitekeys fm <-> c ∈ declaredKeys fm)
      /\ "" ∉ collectNormalizedCitekeys fm)
  /\ normalizeCitekey (VStr "") = None
  /\ collectNormalizedCitekeys
       (Some [("citekey", VStr "@Alpha2020");
              ("zotero-key", VArr [VStr "Bravo2021"; VStr ""]);
              ("Title", VStr "Ignored");
              ("bbt_citekey", VArr [VStr "@Alpha2020"; VStr "@Charlie2022"])])
     = ["alpha2020"; "bravo2021"; "charlie2022"].
Proof.
  split; [| by vm_compute].
  intros fm. rewrite collect_firstOccurrences.
  split; [apply NoDup_firstOccurrences |].
  split; [done |].
  split; [intros c; apply elem_of_firstOccurrences |].
  rewrite elem_of_firstOccurrences. destruct fm as [fields|]; [| apply not_elem_of_nil].
  intros (k & v & e & _ & _ & _ & He)%elem_of_declaredKeys.
  by apply normalizeCitekey_nonEmpty in He.
Qed.

(** C2, as the claim states it, fails: a field named [cite_key] or
    [better_bibtex_citekey] differs from the aliases [cite-key] and
    [better-bibtex-citekey] only in hyphen versus underscore, and its value
    is not collected. *)
Lemma underscore_variants_ignored :
  collectNormalizedCitekeys (Some [("cite_key", VStr "doe2021")]) = []
  /\ collectNormalizedCitekeys (Some [("better_bibtex_citekey", VStr "doe2021")]) = []
  /\ collectNormalizedCitekeys (Some [("cite-key", VStr "doe2021")]) = ["doe2021"].
Proof. by vm_compute. Qed.

(** C2, amended.  A header field is matched by trimming its name,
    lower-casing it and looking it up among the nine aliases as they are
    spelled.  A field whose trimmed name is an alias up to letter case
    contributes every canonical key of its values to the result; every key
    of the result comes from a field whose trimmed, lower-cased name is one
    of the nine; hyphen and underscore are told apart. *)
Theorem citekey_field_matching :
  (forall fields k v alias e c,
      alias ∈ citekeyFields -> ciEq alias (JS.trim k) = true ->
      (k, v) ∈ fields -> e ∈ elements v -> normalizeCitekey e = Some c ->
      c ∈ collectNormalizedCitekeys (Some fields))
  /\ (forall fields c,
         c ∈ collectNormalizedCitekeys (Some fields) ->
         exists k v e, (k, v) ∈ fields
           /\ JS.toLowerCase (JS.trim k) ∈ citekeyFields
           /\ e ∈ elements v /\ normalizeCitekey e = Some c)
  /\ (forall key,
         key ∈ citekeyFields <->
         key ∈ ["citekey"; "cite-key"; "zotero-key"; "zotero_key"; "zoterokey";
                "bbt-citekey"; "bbt_citekey"; "better-bibtex-citekey";
                "betterbibtexcitekey"]).
Proof.
  split; [| split; [| apply elem_of_citekeyFields]].
  - intros fields k v alias e c Ha Hk Hin He Hc.
    rewrite collect_firstOccurrences, elem_of_firstOccurrences.
    apply elem_of_declaredKeys. exists k, v, e.
    split; [exact Hin |]. split; [| split; [exact He | exact Hc]].
    apply isCitekeyField_true.
    rewrite (ciEq_alias alias _ (citekeyFields_aliasChar alias Ha) Hk).
    exact Ha.
  - intros fields c.
    rewrite collect_firstOccurrences, elem_of_firstOccurrences.
    intros (k & v & e & ? & ?%isCitekeyField_true & ? & ?)%elem_of_declaredKeys.
    exists k, v, e. repeat split; assumption.
Qed.

Lemma citekey_field_matching_witness :
  "doe2021" ∈ collectNormalizedCitekeys
                (Some [("Title", VStr "T"); (" Zotero_Key ", VArr [VStr "@Doe2021"])]).
Proof.
  apply (proj1 citekey_field_matching _ " Zotero_Key " (VArr [VStr "@Doe2021"])
           "zotero_key" (VStr "@Doe2021") "doe2021").
  - apply elem_of_citekeyFields. repeat constructor.
  - reflexivity.
  - repeat constructor.
  - simpl. repeat constructor.
  - reflexivity.
Defined.

(** ** Properties of the title matching *)

Module TitleFacts.

Import StrFacts.
#[local] Arguments String.append : simpl nomatch.

Lemma startsWith_spec s p :
  JS.startsWith s p = true <-> exists r, s = p +:+ r.
Proof.
  revert s. induction p as [|a p IH]; intros s; simpl.
  - split; [by exists s | done].
  - destruct s as [|c s]; [split; [done | by intros [r Hr]] |].
    rewrite andb_true_iff, Ascii.eqb_eq, IH. split.
    + intros [-> [r ->]]. by exists r.
    + intros [r Hr]. injection Hr as -> ->. split; [done | by exists r].
Qed.

Lemma includes_spec s t : JS.includes s t = true <-> Substring t s.
Proof.
  unfold Substring. induction s as [|c s IH].
  - simpl. rewrite orb_false_r, startsWith_spec. split.
    + intros [r Hr]. by exists ""%stdpp, r.
    + intros (a & b & Hab). destruct a; [by exists b |]. done.
  - simpl JS.includes. rewrite orb_true_iff, IH, startsWith_spec. split.
    + intros [[r Hr] | (a & b & ->)].
      * by exists ""%stdpp, r.
      * by exists (String c a), b.
    + intros (a & b & Hab). destruct a as [|c' a].
      * left. by exists b.
      * right. simpl in Hab. injection Hab as -> ->. by exists a, b.
Qed.

Lemma extractTitle_spec e title :
  extractTitleFromEntry e = Some title <->
  Val.isObject e = true /\
  exists s, Val.get e "title" = VStr s /\ title = JS.trim s /\ title <> "".
Proof.
  unfold extractTitleFromEntry. split.
  - destruct (negb (Val.truthy e) || negb (Val.isObject e)) eqn:E; [done |].
    apply orb_false_iff in E as [_ Ho%negb_false_iff].
    destruct (Val.get e "title") as [| | | | s | |]; try done.
    destruct (JS.isEmpty (JS.trim s)) eqn:Es; [done |].
    intros H. injection H as <-. split; [done |]. exists s.
    repeat split; try done. intros Hs. by rewrite Hs in Es.
  - intros (Ho & s & -> & -> & Hne).
    assert (Val.truthy e = true) as -> by (by destruct e).
    rewrite Ho. simpl. by destruct (JS.trim s).
Qed.

Lemma matchesb_spec terms e : matchesb terms e = true <-> Matches terms e.
Proof.
  unfold matchesb, Matches.
  destruct (extractTitleFromEntry e) as [title|]; split.
  - intros H. exists title. split; [done |]. apply Forall_forall.
    intros term Hin%list_elem_of_In. apply includes_spec.
    rewrite forallb_forall in H. by apply H.
  - intros (t & Ht & Hall). injection Ht as <-. apply forallb_forall.
    intros term Hin%list_elem_of_In. apply includes_spec.
    rewrite Forall_forall in Hall. by apply Hall.
  - done.
  - by intros (t & Ht & _).
Qed.

Lemma findTitleMatch_cons e rest terms :
  findTitleMatch (e :: rest) terms =
  if matchesb terms e then Some e else findTitleMatch rest terms.
Proof.
  unfold matchesb. simpl.
  destruct (extractTitleFromEntry e) as [title|] eqn:E; [| done].
  apply extractTitle_spec in E as (_ & s & _ & _ & Hne).
  destruct title; [done |]. simpl. by destruct terms.
Qed.

Lemma findTitleMatch_None entries terms :
  findTitleMatch entries terms = None <->
  Forall (λ e, ~ Matches terms e) entries.
Proof.
  induction entries as [|e rest IH]; [by split |].
  rewrite findTitleMatch_cons, Forall_cons, <- matchesb_spec, <- IH.
  destruct (matchesb terms e); split; try done; [by intros [? _] | tauto].
Qed.

Lemma findTitleMatch_Some entries terms e :
  findTitleMatch entries terms = Some e <->
  exists pre post, entries = pre ++ e :: post
    /\ Matches terms e /\ Forall (λ e', ~ Matches terms e') pre.
Proof.
  induction entries as [|e0 rest IH].
  - split; [done |]. intros (pre & post & H & _). by destruct pre.
  - rewrite findTitleMatch_cons. destruct (matchesb terms e0) eqn:E0.
    + apply matchesb_spec in E0. split.
      * intros H. injection H as <-. by exists [], rest.
      * intros ([|e1 pre] & post & H & Hm & Hpre).
        -- by injection H as <- _.
        -- injection H as <- _. by apply Forall_cons in Hpre as [? _].
    + assert (~ Matches terms e0) as Hno
        by (rewrite <- matchesb_spec; congruence).
      rewrite IH. split.
      * intros (pre & post & -> & Hm & Hpre).
        exists (e0 :: pre), post. by rewrite Forall_cons.
      * intros ([|e1 pre] & post & H & Hm & Hpre).
        -- injection H as <- _. done.
        -- injection H as <- ->. apply Forall_cons in Hpre as [_ ?].
           by exists pre, post.
Qed.

End TitleFacts.

(** C6. [findTitleMatch entries terms] returns the first entry, in the
    order given, that has a title non-empty after trimming whose
    lower-cased text contains every term as a substring; with no term that
    is the first entry with a non-empty title.  It returns absent exactly
    when no entry qualifies, so when no entry has a non-empty title or none
    contains all the terms. *)
Theorem findTitleMatch_spec :
  (forall entries terms e,
      findTitleMatch entries terms = Some e <->
      exists pre post, entries = pre ++ e :: post
        /\ Matches terms e /\ Forall (λ e', ~ Matches terms e') pre)
  /\ (forall entries terms,
         findTitleMatch entries terms = None <->
         Forall (λ e, ~ Matches terms e) entries)
  /\ (forall e, Matches [] e <-> exists title, extractTitleFromEntry e = Some title)
  /\ (forall e title,
         extractTitleFromEntry e = Some title <->
         Val.isObject e = true /\
         exists s, Val.get e "title" = VStr s /\ title = JS.trim s /\ title <> "")
  /\ (forall t s, JS.includes s t = true <-> Substring t s)
  /\ (let entries := [VObj [("title", VStr " First Paper ")];
                      VObj [("title", VStr "Second interesting Result")];
                      VObj [("title", VStr "Computation and Biology")]] in
      findTitleMatch entries [] = Some (VObj [("title", VStr " First Paper ")])
      /\ findTitleMatch entries ["second"; "result"]
         = Some (VObj [("title", VStr "Second interesting Result")])
      /\ findTitleMatch entries ["missing"] = None
      /\ findTitleMatch [VObj [("title", VStr "")]; VObj []] ["any"] = None
      /\ findTitleMatch [VObj [("title", VStr " ")]; VObj []] [] = None).
Proof.
  split; [apply TitleFacts.findTitleMatch_Some |].
  split; [apply TitleFacts.findTitleMatch_None |].
  split; [| split; [apply TitleFacts.extractTitle_spec |
                    split; [intros; apply TitleFacts.includes_spec | by vm_compute]]].
  intros e. unfold Matches. split.
  - intros (title & H & _). by exists title.
  - intros (title & H). exists title. by split.
Qed.

(** ** Properties of the resolvers *)

Module HostFacts.

Lemma truthy_of_object entry : Val.isObject entry = true -> Val.truthy entry = true.
Proof. by destruct entry. Qed.

Lemma extract_keyed Number_ofString entry k g :
  KeyedRecord entry k g ->
  extractZoteroSelectPath Number_ofString entry =
  match extractNumericId Number_ofString g with
  | Some groupId => Some (groupsPath (Num.toString groupId) k)
  | None => Some (libraryPath k)
  end.
Proof.
  intros (Ho & Hid & Hk & Hg). unfold extractZoteroSelectPath.
  rewrite (truthy_of_object entry Ho). simpl negb. cbv iota.
  destruct entry as [| | | | | items | props]; try done; rewrite Hk, Hg;
    (destruct (Val.get _ "id") as [| | | | s | |] eqn:E; try reflexivity;
     by rewrite (Hid s eq_refl)).
Qed.

Lemma lazyBody_unfold s :
  lazyBody s =
  if closesAt s then Some ""%stdpp else
  match s with
  | String c s' => String c <$> lazyBody s'
  | EmptyString => None
  end.
Proof. by destruct s. Qed.

(** The lazy body stops at the first closing line. *)
Lemma lazyBody_exact body tail :
  closesAt tail = true ->
  (forall a b, body = a +:+ b -> b <> "" -> closesAt (b +:+ tail) = false) ->
  lazyBody (body +:+ tail) = Some body.
Proof.
  intros Ht. induction body as [|c body IH]; intros Hno.
  - change (""%stdpp +:+ tail) with tail. by rewrite lazyBody_unfold, Ht.
  - rewrite lazyBody_unfold, (Hno ""%stdpp (String c body) eq_refl) by done.
    rewrite StrFacts.sapp_cons, IH; [done |]. intros a b -> Hb.
    by apply (Hno (String c a) b).
Qed.

(** A header block in the usual layout: the opening line, a text that
    starts with no whitespace and holds no closing line, the closing line. *)
Lemma frontmatterBlock_standard body rest :
  body <> "" -> headNot Char.is_space body = true ->
  (forall a b, body = a +:+ b -> b <> "" ->
               closesAt (b +:+ String LF ("---" +:+ rest)) = false) ->
  frontmatterBlock ("---" +:+ String LF (body +:+ String LF ("---" +:+ rest)))
  = Some body.
Proof.
  intros Hne Hhead Hno. unfold frontmatterBlock.
  change (Re.lit "---" ("---" +:+ ?x)) with (Some x). simpl mbind.
  destruct body as [|c body]; [done |]. simpl in Hhead.
  apply negb_true_iff in Hhead.
  change (afterOpen (String LF ?x))
    with (match afterOpen x with
          | Some b => Some b
          | None => lineBreakThenBody (String LF x)
          end).
  rewrite StrFacts.sapp_cons. simpl afterOpen. rewrite Hhead.
  change (lineBreakThenBody (String LF ?x)) with (lazyBody x).
  rewrite <- StrFacts.sapp_cons. by apply lazyBody_exact.
Qed.

Lemma lit_dashes s r : Re.lit "---" s = Some r -> s = "---" +:+ r.
Proof.
  assert (forall c, Char.eqb_ci "-" c = true -> c = "-"%char) as Hd
    by (intros c; CharFacts.each_char c).
  destruct s as [|c1 [|c2 [|c3 s]]]; simpl; try done;
    try (by destruct (Char.eqb_ci "-" c1));
    try (by destruct (Char.eqb_ci "-" c1), (Char.eqb_ci "-" c2)).
  destruct (Char.eqb_ci "-" c1) eqn:E1; [| done].
  destruct (Char.eqb_ci "-" c2) eqn:E2; [| done].
  destruct (Char.eqb_ci "-" c3) eqn:E3; [| done].
  apply Hd in E1 as ->. apply Hd in E2 as ->. apply Hd in E3 as ->.
  intros H. by injection H as ->.
Qed.

Lemma frontmatterBlock_startsWith text block :
  frontmatterBlock text = Some block -> JS.startsWith text "---" = true.
Proof.
  unfold frontmatterBlock. destruct (Re.lit "---" text) as [r|] eqn:El; [| done].
  by apply lit_dashes in El as ->.
Qed.

(** What [extractFrontmatter] parses is the block of the content, if it
    has one. *)
Lemma extractFrontmatter_trace parseYaml text :
  (extractFrontmatter parseYaml text).2
  = match frontmatterBlock text with
    | Some block => [ParseYaml block]
    | None => []
    end.
Proof.
  unfold extractFrontmatter.
  destruct (frontmatterBlock text) as [block|] eqn:E.
  - rewrite (frontmatterBlock_startsWith _ _ E). simpl.
    by destruct (parseYaml block).
  - by destruct (negb (JS.startsWith text "---")).
Qed.

End HostFacts.

(** C10, as the claim states it, fails for a record whose [key] field is a
    string, but the empty one: with no [itemKey] the lookup [key || itemKey]
    is undefined and the result is absent, whatever the group scope. *)
Lemma extract_empty_key :
  extractZoteroSelectPath integerOfString
    (VObj [("key", VStr ""); ("groupID", VNum (NumInt 0 I))]) = None.
Proof. reflexivity. Qed.

(** C10, amended.  For every candidate record with no usable direct id
    whose key lookup [key || itemKey] is a string [k] (a non-empty [key],
    or [itemKey] when [key] is falsy), [extractZoteroSelectPath] returns
    [groups/<n>/items/<k>], [<n>] being the text [String(n)], whenever the
    group-scope lookup [groupID ?? groupId] is a finite number [n] or a
    string that [Number] converts to a finite [n].  For a safe integer the
    text is its decimal text; for any other finite number it is the text
    that number carries.  That includes 0, negative integers, and the empty
    string (which converts to 0): group id 0 is not collapsed to
    [library/items/<k>], while [normalizeZoteroSelectPath] does collapse
    [0_<KEY>] to [library/items/<KEY>]. *)
Theorem extract_group_zero (Number_ofString : string -> number) :
  (forall entry k g n,
      KeyedRecord entry k g -> extractNumericId Number_ofString g = Some n ->
      extractZoteroSelectPath Number_ofString entry
      = Some ("groups/" +:+ Num.toString n +:+ "/items/" +:+ k))
  /\ (forall entry k z safe s,
         KeyedRecord entry k (VNum (NumInt z safe)) -> isDecimalOf z s ->
         extractZoteroSelectPath Number_ofString entry
         = Some ("groups/" +:+ s +:+ "/items/" +:+ k))
  /\ (forall entry k r,
         KeyedRecord entry k (VNum (NumOther r)) ->
         extractZoteroSelectPath Number_ofString entry
         = Some ("groups/" +:+ r +:+ "/items/" +:+ k))
  /\ (forall n, Num.isFinite n = true ->
                extractNumericId Number_ofString (VNum n) = Some n)
  /\ (forall s, Num.isFinite (Number_ofString s) = true ->
                extractNumericId Number_ofString (VStr s) = Some (Number_ofString s))
  /\ (forall entry k,
         KeyedRecord entry k (VNum (NumInt 0 I)) ->
         extractZoteroSelectPath Number_ofString entry
         = Some ("groups/0/items/" +:+ k))
  /\ (forall entry k,
         KeyedRecord entry k (VNum (NumInt (-3) I)) ->
         extractZoteroSelectPath Number_ofString entry
         = Some ("groups/-3/items/" +:+ k))
  /\ (Number_ofString "" = NumInt 0 I ->
      forall entry k,
        KeyedRecord entry k (VStr "") ->
        extractZoteroSelectPath Number_ofString entry
        = Some ("groups/0/items/" +:+ k))
  /\ (forall k, "groups/0/items/" +:+ k <> "library/items/" +:+ k)
  /\ (forall key, isKey key = true ->
                  normalizeZoteroSelectPath ("0_" +:+ key)
                  = Some ("library/items/" +:+ key))
  /\ (forall entry k,
         Val.get entry "key" = VStr k -> k <> "" ->
         Val.or (Val.get entry "key") (Val.get entry "itemKey") = VStr k)
  /\ (forall entry,
         Val.truthy (Val.get entry "key") = false ->
         Val.or (Val.get entry "key") (Val.get entry "itemKey")
         = Val.get entry "itemKey").
Proof.
  split; [| split; [| split; [| split; [| split; [| split; [| split; [| split;
    [| split; [| split; [| split]]]]]]]]]];
    [| | | | | | | | | | intros entry k -> Hk; by destruct k
     | intros entry H; unfold Val.or; by rewrite H].
  - intros entry k g n Hr Hn. by rewrite (HostFacts.extract_keyed _ _ _ _ Hr), Hn.
  - intros entry k z safe s Hr Hs. rewrite (HostFacts.extract_keyed _ _ _ _ Hr).
    cbn [extractNumericId Num.isFinite]. unfold groupsPath.
    by rewrite (decimal_unique z s _ Hs (toString_decimal z safe)).
  - intros entry k r Hr. by rewrite (HostFacts.extract_keyed _ _ _ _ Hr).
  - intros n Hn. simpl. by rewrite Hn.
  - intros s Hs. simpl. by rewrite Hs.
  - intros entry k Hr. by rewrite (HostFacts.extract_keyed _ _ _ _ Hr).
  - intros entry k Hr. by rewrite (HostFacts.extract_keyed _ _ _ _ Hr).
  - intros H0 entry k Hr. rewrite (HostFacts.extract_keyed _ _ _ _ Hr).
    simpl. by rewrite H0.
  - intros k. discriminate.
  - intros key Hk. apply normalize_spec.
    assert (JS.trim ("0_" +:+ key) = "0_" +:+ key) as ->.
    { change "0_"%stdpp with (String "0" "_"). rewrite sapp_cons.
      by apply trim_keyed. }
    by apply (ShBare "0" key).
Qed.

Lemma extract_group_zero_witness :
  extractZoteroSelectPath integerOfString
    (VObj [("itemKey", VStr "ABCD1234"); ("groupId", VStr "")])
  = Some ("groups/0/items/" +:+ "ABCD1234").
Proof.
  apply (proj1 (proj2 (proj2 (proj2 (proj2 (proj2 (proj2 (proj2
           (extract_group_zero integerOfString)))))))) eq_refl).
  repeat split; try reflexivity. intros s Hs. discriminate Hs.
Defined.

(** C3.  The code departs from the claim: [openInZotero] reads the header
    fields [citekey] and [zotero-key] only, and whenever neither holds a
    truthy value it runs the title search alone, whatever the other seven
    aliases declare.  A note that declares its key as [citekey] is looked
    up by that key and opened; the same note declaring it as
    [bbt_citekey] sends no request for the key and goes straight to the
    title search, which finds nothing here. *)
Theorem openInZotero_two_aliases_only :
  (forall Number_ofString itemSearch file,
      Val.truthy (fmGet (cachedFrontmatter file) "citekey") = false ->
      Val.truthy (fmGet (cachedFrontmatter file) "zotero-key") = false ->
      openInZotero Number_ofString itemSearch file
      = titleFallback Number_ofString itemSearch file)
  /\ openInZotero integerOfString libraryOfDoe
       {| basename := "Reading notes";
          cachedFrontmatter := Some [("citekey", VStr "doe2021")];
          content := None |}
     = [Request (VStr "doe2021");
        WindowOpen "zotero://select/library/items/ABCD2345";
        Notify (OpeningItem (VStr "doe2021"))]
  /\ openInZotero integerOfString libraryOfDoe
       {| basename := "Reading notes";
          cachedFrontmatter := Some [("bbt_citekey", VStr "doe2021")];
          content := None |}
     = [Notify (SearchingTitle "Reading notes");
        Request (VStr "Reading notes");
        Request (VStr "Reading");
        Request (VStr "notes");
        Notify NoMatchingItem].
Proof.
  split; [| by vm_compute].
  intros Number_ofString itemSearch file H1 H2. unfold openInZotero, Val.or.
  by rewrite H1, H2.
Qed.

(** C9, as the claim states it, fails: the indexed header of this note is
    available and declares a title but no citation key; the raw content is
    read and its header block parsed all the same. *)
Lemma reparse_with_indexed_header :
  getNormalizedCitekeys titleOnlyYaml
    {| basename := "Notes";
       cachedFrontmatter := Some [("title", VStr "Notes")];
       content := Some ("---" +:+ String LF "title: Notes" +:+ String LF "---"
                        +:+ String LF "Text.") |}
  = ([], [CachedRead; ParseYaml "title: Notes"]).
Proof. by vm_compute. Qed.

(** C9, amended.  [getNormalizedCitekeys] reads the raw content exactly
    when the citekey list computed from the indexed header is empty, which
    is the case when the indexed header is unavailable and also when it
    declares no citation key.  It then parses the leading header block
    exactly when the content could be read and has such a block; a content
    that cannot be read or has no header block gives no key after the read
    alone.  When the list from the indexed header is not empty it is the
    result, and the raw content is neither read nor parsed.  What is parsed
    is the block the pattern captures: for a content that opens with a line
    of three hyphens, the text up to the first line that starts with three
    hyphens. *)
Theorem getNormalizedCitekeys_fallback (parseYaml : string -> option value) :
  (forall file,
      collectNormalizedCitekeys (cachedFrontmatter file) <> [] ->
      getNormalizedCitekeys parseYaml file
      = (collectNormalizedCitekeys (cachedFrontmatter file), []))
  /\ (forall file text,
         collectNormalizedCitekeys (cachedFrontmatter file) = [] ->
         content file = Some text ->
         getNormalizedCitekeys parseYaml file
         = (collectNormalizedCitekeys (extractFrontmatter parseYaml text).1,
            CachedRead :: (extractFrontmatter parseYaml text).2))
  /\ (forall file,
         collectNormalizedCitekeys (cachedFrontmatter file) = [] ->
         content file = None ->
         getNormalizedCitekeys parseYaml file = ([], [CachedRead]))
  /\ (forall file,
         cachedFrontmatter file = None ->
         collectNormalizedCitekeys (cachedFrontmatter file) = [])
  /\ (forall text,
         (extractFrontmatter parseYaml text).2
         = match frontmatterBlock text with
           | Some block => [ParseYaml block]
           | None => []
           end)
  /\ (forall file,
         CachedRead ∈ (getNormalizedCitekeys parseYaml file).2
         <-> collectNormalizedCitekeys (cachedFrontmatter file) = [])
  /\ (forall file block,
         ParseYaml block ∈ (getNormalizedCitekeys parseYaml file).2
         <-> collectNormalizedCitekeys (cachedFrontmatter file) = []
             /\ exists text, content file = Some text
                             /\ frontmatterBlock text = Some block)
  /\ (forall file text,
         collectNormalizedCitekeys (cachedFrontmatter file) = [] ->
         content file = Some text -> frontmatterBlock text = None ->
         getNormalizedCitekeys parseYaml file = ([], [CachedRead]))
  /\ (forall body rest,
         body <> "" -> headNot Char.is_space body = true ->
         (forall a b, body = a +:+ b -> b <> "" ->
                      closesAt (b +:+ String LF ("---" +:+ rest)) = false) ->
         frontmatterBlock
           ("---" +:+ String LF (body +:+ String LF ("---" +:+ rest)))
         = Some body).
Proof.
  assert (forall file, (getNormalizedCitekeys parseYaml file).2
            = match collectNormalizedCitekeys (cachedFrontmatter file) with
              | [] =>
                  CachedRead ::
                  match content file with
                  | Some text =>
                      match frontmatterBlock text with
                      | Some block => [ParseYaml block]
                      | None => []
                      end
                  | None => []
                  end
              | _ :: _ => []
              end) as Htrace.
  { intros file. unfold getNormalizedCitekeys.
    destruct (collectNormalizedCitekeys (cachedFrontmatter file)); [| done].
    simpl. destruct (content file) as [text|]; [| done].
    rewrite <- (HostFacts.extractFrontmatter_trace parseYaml text).
    by destruct (extractFrontmatter parseYaml text). }
  split; [| split; [| split; [| split; [| split; [| split; [| split; [| split]]]]]]];
    [| | | | | | | | apply HostFacts.frontmatterBlock_standard].
  - intros file H. unfold getNormalizedCitekeys.
    by destruct (collectNormalizedCitekeys (cachedFrontmatter file)).
  - intros file text H Hc. unfold getNormalizedCitekeys. rewrite H, Hc. simpl.
    by destruct (extractFrontmatter parseYaml text).
  - intros file H Hc. unfold getNormalizedCitekeys. by rewrite H, Hc.
  - by intros file ->.
  - apply HostFacts.extractFrontmatter_trace.
  - intros file. rewrite Htrace.
    destruct (collectNormalizedCitekeys (cachedFrontmatter file)).
    + split; [done | intros _; by left].
    + split; [by intros ?%elem_of_nil | done].
  - intros file block. rewrite Htrace.
    destruct (collectNormalizedCitekeys (cachedFrontmatter file)).
    + destruct (content file) as [text|].
      * destruct (frontmatterBlock text) as [block'|] eqn:E.
        -- rewrite !elem_of_cons. split.
           ++ intros [H | [H | H%elem_of_nil]]; try done.
              injection H as ->. split; [done |]. by exists text.
           ++ intros [_ (text' & Ht & Hb)]. injection Ht as <-.
              rewrite E in Hb. injection Hb as ->. right. by left.
        -- rewrite !elem_of_cons. split.
           ++ intros [H | H%elem_of_nil]; done.
           ++ intros [_ (text' & Ht & Hb)]. injection Ht as <-. congruence.
      * rewrite !elem_of_cons. split.
        -- intros [H | H%elem_of_nil]; done.
        -- by intros [_ (text' & Ht & _)].
    + split; [by intros ?%elem_of_nil | by intros [? _]].
  - intros file text H Hc Hb.
    pose proof (Htrace file) as Ht. rewrite H, Hc, Hb in Ht.
    unfold getNormalizedCitekeys in *. rewrite H, Hc in *. simpl in *.
    pose proof (HostFacts.extractFrontmatter_trace parseYaml text) as Hx.
    rewrite Hb in Hx. unfold extractFrontmatter in *.
    destruct (negb (JS.startsWith text "---")); [done |].
    by rewrite Hb.
Qed.

Lemma getNormalizedCitekeys_fallback_witness :
  getNormalizedCitekeys titleOnlyYaml
    {| basename := "Doe";
       cachedFrontmatter := Some [("Zotero-Key", VArr [VStr "@Doe2021"])];
       content := None |}
  = (["doe2021"], []).
Proof.
  apply (proj1 (getNormalizedCitekeys_fallback titleOnlyYaml)
           {| basename := "Doe";
              cachedFrontmatter := Some [("Zotero-Key", VArr [VStr "@Doe2021"])];
              content := None |}).
  vm_compute. discriminate.
Defined.

(** * Further properties of the code *)

Import StrFacts ReFacts CharFacts MatchFacts NormalizeFacts CitekeyFacts.

(** ** Further properties of the identifier normaliser *)

Module MoreNormalizeFacts.

Import StrFacts ReFacts CharFacts MatchFacts NormalizeFacts.
#[local] Arguments String.append : simpl nomatch.

Lemma all_space_trimStart ws s :
  JS.all Char.is_space ws = true -> JS.trimStart (ws +:+ s) = JS.trimStart s.
Proof.
  induction ws as [|c ws IH]; [done |]. simpl.
  rewrite andb_true_iff. intros [-> H]. by apply IH.
Qed.

Lemma all_space_trimEnd s ws :
  JS.all Char.is_space ws = true -> JS.trimEnd (s +:+ ws) = JS.trimEnd s.
Proof.
  intros Hws. induction s as [|c s IH].
  - simpl. clear -Hws. induction ws as [|c ws IH]; [done |]. simpl in *.
    apply andb_true_iff in Hws as [-> Hws]. by rewrite IH.
  - simpl. by rewrite IH.
Qed.

Lemma trim_padded ws1 s ws2 :
  JS.all Char.is_space ws1 = true -> JS.all Char.is_space ws2 = true ->
  JS.trim (ws1 +:+ s +:+ ws2) = JS.trim s.
Proof.
  intros H1 H2. unfold JS.trim. rewrite all_space_trimStart by done.
  clear H1. induction s as [|c s IH].
  - simpl. apply trimStart_nil in H2 as ->. done.
  - simpl. destruct (Char.is_space c); [exact IH |].
    rewrite <- sapp_cons. by apply all_space_trimEnd.
Qed.

(** The normaliser looks at the trimmed text only. *)
Lemma normalize_via_trim x :
  normalizeZoteroSelectPath x =
  if JS.isEmpty (JS.trim x) then None else recognize (JS.trim x).
Proof.
  unfold normalizeZoteroSelectPath. by destruct x.
Qed.

Lemma groupsPath_ends n key :
  groupsPath n key = ("groups/" +:+ n +:+ "/items/") +:+ key.
Proof. unfold groupsPath. by rewrite !sapp_assoc. Qed.

Lemma alnum_notLT s :
  JS.all Char.is_alnum s = true -> JS.all notLineTerminator s = true.
Proof.
  apply all_impl. intros c Hc. unfold notLineTerminator.
  revert Hc. each_char c.
Qed.

Lemma digit_notLT s :
  JS.all Char.is_digit s = true -> JS.all notLineTerminator s = true.
Proof.
  intros H. apply alnum_notLT. revert H. apply all_impl, digit_alnum.
Qed.

Lemma SelectPath_single_line y :
  SelectPath y -> JS.all notLineTerminator y = true.
Proof.
  destruct 1 as [key [_ Hk]%isKey_inv | n key [_ Hn]%isNum_inv [_ Hk]%isKey_inv];
    unfold libraryPath, groupsPath; rewrite !all_app.
  - by rewrite (alnum_notLT key Hk).
  - by rewrite (alnum_notLT key Hk), (digit_notLT n Hn).
Qed.

Lemma SelectPath_nonEmpty y : SelectPath y -> nonEmpty y = true.
Proof. by destruct 1. Qed.

(** What a shape stands for: the rest of a scheme URI, or a SelectPath. *)
Lemma Shape_result t y :
  Shape t y ->
  (nonEmpty y = true /\ JS.all notLineTerminator y = true) \/ SelectPath y.
Proof.
  destruct 1; try (left; done); right;
    try (by constructor); by apply byLibraryId_SelectPath.
Qed.

Lemma SelectPath_ends y :
  SelectPath y ->
  exists scope key, y = scope +:+ key /\ isKey key = true /\
    (scope = "library/items/"
     \/ exists n, isNum n = true /\ scope = "groups/" +:+ n +:+ "/items/").
Proof.
  destruct 1 as [key Hk | n key Hn Hk].
  - exists "library/items/"%stdpp, key. split; [done |]. split; [done | by left].
  - exists ("groups/" +:+ n +:+ "/items/"), key.
    split; [apply groupsPath_ends |]. split; [done |]. right. by exists n.
Qed.

(** The key a shape other than the scheme URI ends with is the key of the
    path it stands for. *)
Lemma Shape_same_key t y :
  Shape t y -> schemeMatch t = None ->
  exists a scope key, t = a +:+ key /\ y = scope +:+ key /\ isKey key = true /\
    (scope = "library/items/"
     \/ exists n, isNum n = true /\ scope = "groups/" +:+ n +:+ "/items/").
Proof.
  assert (forall n key, isNum n = true -> isKey key = true ->
            exists scope, byLibraryId n key = scope +:+ key /\
              (scope = "library/items/"
               \/ exists n, isNum n = true /\ scope = "groups/" +:+ n +:+ "/items/"))
    as Hby.
  { intros n key Hn Hk. unfold byLibraryId. destruct (String.eqb n "0").
    - exists "library/items/"%stdpp. split; [done | by left].
    - exists ("groups/" +:+ n +:+ "/items/"). split; [apply groupsPath_ends |].
      right. by exists n. }
  destruct 1 as
    [p rest Hp Hne Hall
    | p scope n items key Hp Hs Hn Hi Hk
    | p scope n items key Hp Hs Hn Hi Hk
    | p n items key Hp Hn Hi Hk
    | p key Hp Hk
    | p n key Hp Hn Hk
    | n key Hn Hk
    | key Hk]; intros Hsch.
  - by rewrite schemeMatch_ok in Hsch.
  - exists (p +:+ scope +:+ "/" +:+ n +:+ items), ("groups/" +:+ n +:+ "/items/"), key.
    split; [by rewrite !sapp_assoc |]. split; [apply groupsPath_ends |].
    split; [done |]. right. by exists n.
  - exists (p +:+ scope +:+ "/" +:+ n +:+ items), "library/items/"%stdpp, key.
    split; [by rewrite !sapp_assoc |]. repeat split; try done. by left.
  - exists (p +:+ n +:+ items), ("groups/" +:+ n +:+ "/items/"), key.
    split; [by rewrite !sapp_assoc |]. split; [apply groupsPath_ends |].
    split; [done |]. right. by exists n.
  - exists p, "library/items/"%stdpp, key. repeat split; try done. by left.
  - destruct (Hby n key Hn Hk) as (scope & -> & Hsc).
    exists (p +:+ n +:+ "_"), scope, key.
    split; [by rewrite !sapp_assoc |]. by repeat split.
  - destruct (Hby n key Hn Hk) as (scope & -> & Hsc).
    exists (n +:+ "_"), scope, key.
    split; [by rewrite !sapp_assoc |]. by repeat split.
  - exists ""%stdpp, "library/items/"%stdpp, key. repeat split; try done. by left.
Qed.

End MoreNormalizeFacts.

Import MoreNormalizeFacts.

(** X1. Whitespace around a raw identifier does not change the result of
    [normalizeZoteroSelectPath]. *)
Theorem normalize_ignores_padding ws1 x ws2 :
  JS.all Char.is_space ws1 = true -> JS.all Char.is_space ws2 = true ->
  normalizeZoteroSelectPath (ws1 +:+ x +:+ ws2) = normalizeZoteroSelectPath x.
Proof.
  intros H1 H2. rewrite (normalize_via_trim x), normalize_via_trim.
  by rewrite trim_padded.
Qed.

Lemma normalize_ignores_padding_witness :
  normalizeZoteroSelectPath (" " +:+ "12_ABCD" +:+ String LF " ")
  = normalizeZoteroSelectPath "12_ABCD".
Proof.
  apply (normalize_ignores_padding " " "12_ABCD" (String LF " ")); reflexivity.
Defined.

(** X2. A path returned by [normalizeZoteroSelectPath] is never empty and
    holds no line terminator.  Unless the identifier is a scheme URI, the
    path is a library or groups prefix followed by the very key the
    trimmed identifier ends with, in the letter case it was given. *)
Theorem normalize_result x y :
  normalizeZoteroSelectPath x = Some y ->
  y <> ""
  /\ JS.all notLineTerminator y = true
  /\ (schemeMatch (JS.trim x) = None ->
      exists a scope key,
        JS.trim x = a +:+ key /\ y = scope +:+ key /\ isKey key = true /\
        (scope = "library/items/"
         \/ exists n, isNum n = true /\ scope = "groups/" +:+ n +:+ "/items/")).
Proof.
  intros H%normalize_spec.
  assert (nonEmpty y = true /\ JS.all notLineTerminator y = true) as [Hne Hl].
  { destruct (Shape_result _ _ H) as [? | Hs]; [done |].
    split; [by apply SelectPath_nonEmpty | by apply SelectPath_single_line]. }
  split; [by destruct y |]. split; [done |].
  intros Hs. by apply Shape_same_key.
Qed.

Lemma normalize_result_witness :
  exists a scope key,
    JS.trim " items/0_AbCd" = a +:+ key /\ "library/items/AbCd" = scope +:+ key
    /\ isKey key = true /\
    (scope = "library/items/"
     \/ exists n, isNum n = true /\ scope = "groups/" +:+ n +:+ "/items/").
Proof.
  apply (proj2 (proj2 (normalize_result " items/0_AbCd" "library/items/AbCd" eq_refl)));
    reflexivity.
Defined.

(** ** Further properties of extractZoteroSelectPath and of the citation keys *)

Module MoreUtilsFacts.

Import StrFacts ReFacts CharFacts MatchFacts NormalizeFacts CitekeyFacts
  MoreNormalizeFacts.
#[local] Arguments String.append : simpl nomatch.

Lemma normalize_nonEmpty x y :
  normalizeZoteroSelectPath x = Some y -> nonEmpty y = true.
Proof.
  intros H%normalize_spec. destruct (Shape_result _ _ H) as [[? _] | Hs]; [done |].
  by apply SelectPath_nonEmpty.
Qed.

Lemma extract_object Number_ofString entry :
  Val.isObject entry = true ->
  extractZoteroSelectPath Number_ofString entry =
  match Val.get entry "id" with
  | VStr idValue =>
      match normalizeZoteroSelectPath idValue with
      | Some normalized => Some normalized
      | None => pathByKey Number_ofString entry
      end
  | _ => pathByKey Number_ofString entry
  end.
Proof.
  intros Ho. unfold extractZoteroSelectPath, pathByKey.
  rewrite (HostFacts.truthy_of_object entry Ho). simpl negb. cbv iota.
  destruct entry as [| | | | | items | props]; try done;
    (destruct (Val.get _ "id") as [| | | | s | |]; try reflexivity;
     destruct (normalizeZoteroSelectPath s) as [p|] eqn:E; [| reflexivity];
     by rewrite (normalize_nonEmpty _ _ E)).
Qed.

Lemma pathByKey_nonEmpty Number_ofString entry p :
  pathByKey Number_ofString entry = Some p -> nonEmpty p = true.
Proof.
  unfold pathByKey. destruct (Val.or _ _); try done.
  destruct (extractNumericId _ _); intros H; by injection H as <-.
Qed.

Lemma pathByKey_None Number_ofString entry :
  pathByKey Number_ofString entry = None <->
  forall k, Val.or (Val.get entry "key") (Val.get entry "itemKey") <> VStr k.
Proof.
  unfold pathByKey. destruct (Val.or _ _) as [| | | | k | |]; split; try done.
  - by destruct (extractNumericId _ _).
  - intros H. by destruct (H k).
Qed.

Lemma extract_nonEmpty Number_ofString entry p :
  extractZoteroSelectPath Number_ofString entry = Some p -> nonEmpty p = true.
Proof.
  intros H. destruct (Val.isObject entry) eqn:Ho.
  - rewrite extract_object in H by done.
    destruct (Val.get entry "id") as [| | | | s | |];
      try (by apply pathByKey_nonEmpty in H).
    destruct (normalizeZoteroSelectPath s) eqn:Hn;
      [injection H as <-; by apply normalize_nonEmpty in Hn
      | by apply pathByKey_nonEmpty in H].
  - destruct entry as [| |[]| [z|r| |[]] | s | |]; try done.
    + by destruct z as [|q|q].
    + destruct s; [done |]. by apply normalize_nonEmpty in H.
Qed.

(** *** Lower-casing against the other string operations *)

Lemma toLower_space c : Char.is_space (Char.toLower c) = Char.is_space c.
Proof. each_char c. Qed.

Lemma toLower_toLower c : Char.toLower (Char.toLower c) = Char.toLower c.
Proof. each_char c. Qed.

Lemma toLower_at c : Ascii.eqb (Char.toLower c) "@" = Ascii.eqb c "@".
Proof. each_char c. Qed.

Lemma toLower_digit c : Char.is_digit c = true -> Char.toLower c = c.
Proof. each_char c. Qed.

Lemma digit_not_space c : Char.is_digit c = true -> Char.is_space c = false.
Proof. each_char c. Qed.

Lemma isEmpty_toLowerCase s : JS.isEmpty (JS.toLowerCase s) = JS.isEmpty s.
Proof. by destruct s. Qed.

Lemma length_toLowerCase s : String.length (JS.toLowerCase s) = String.length s.
Proof. unfold JS.toLowerCase. induction s; simpl; congruence. Qed.

Lemma toLowerCase_idem s : JS.toLowerCase (JS.toLowerCase s) = JS.toLowerCase s.
Proof.
  unfold JS.toLowerCase. induction s as [|c s IH]; [done |]. simpl.
  by rewrite toLower_toLower, IH.
Qed.

Lemma trimStart_toLowerCase s :
  JS.trimStart (JS.toLowerCase s) = JS.toLowerCase (JS.trimStart s).
Proof.
  unfold JS.toLowerCase. induction s as [|c s IH]; [done |]. simpl.
  rewrite toLower_space. by destruct (Char.is_space c).
Qed.

Lemma trimEnd_toLowerCase s :
  JS.trimEnd (JS.toLowerCase s) = JS.toLowerCase (JS.trimEnd s).
Proof.
  induction s as [|c s IH]; [done |].
  change (JS.toLowerCase (String c s))
    with (String (Char.toLower c) (JS.toLowerCase s)).
  simpl. rewrite IH, toLower_space, isEmpty_toLowerCase.
  by destruct (Char.is_space c && JS.isEmpty (JS.trimEnd s)).
Qed.

Lemma trim_toLowerCase s : JS.trim (JS.toLowerCase s) = JS.toLowerCase (JS.trim s).
Proof. unfold JS.trim. by rewrite trimStart_toLowerCase, trimEnd_toLowerCase. Qed.

Lemma stripAt_toLowerCase t :
  stripAt (JS.toLowerCase t) = JS.toLowerCase (stripAt t).
Proof.
  destruct t as [|c t]; [done |].
  change (JS.toLowerCase (String c t))
    with (String (Char.toLower c) (JS.toLowerCase t)).
  assert (forall d u, stripAt (String d u)
                      = if Ascii.eqb d "@" then u else String d u) as Hs.
  { intros d u. destruct (Ascii.eqb d "@") eqn:E.
    - by apply Ascii.eqb_eq in E as ->.
    - apply Ascii.eqb_neq in E. unfold stripAt.
      destruct d as [[] [] [] [] [] [] [] []]; try reflexivity. by destruct E. }
  rewrite !Hs, toLower_at. by destruct (Ascii.eqb c "@").
Qed.

Lemma stripAt_cases t :
  (exists w, t = String "@" w /\ stripAt t = w)
  \/ (JS.startsWith t "@" = false /\ stripAt t = t).
Proof.
  destruct t as [|c t]; [by right |].
  destruct (Ascii.eqb c "@") eqn:E.
  - apply Ascii.eqb_eq in E as ->. left. by exists t.
  - right. simpl. rewrite E. split; [done |]. apply Ascii.eqb_neq in E.
    destruct c as [[] [] [] [] [] [] [] []]; try reflexivity. by destruct E.
Qed.

Lemma lastNot_toLowerCase s :
  lastNot Char.is_space (JS.toLowerCase s) = lastNot Char.is_space s.
Proof.
  induction s as [|c s IH]; [done |].
  change (JS.toLowerCase (String c s))
    with (String (Char.toLower c) (JS.toLowerCase s)).
  destruct s as [|d s]; [simpl; by rewrite toLower_space |].
  exact IH.
Qed.

Lemma headNot_toLowerCase s :
  headNot Char.is_space (JS.toLowerCase s) = headNot Char.is_space s.
Proof. destruct s; [done |]. simpl. by rewrite toLower_space. Qed.

(** The text of a canonical key before lower-casing. *)
Lemma normalizeCitekey_inv v c :
  normalizeCitekey v = Some c ->
  exists w, c = JS.toLowerCase w /\ nonEmpty w = true
            /\ lastNot Char.is_space w = true.
Proof.
  assert (forall s, normalizeCitekey (VStr s) = Some c ->
            exists w, c = JS.toLowerCase w /\ nonEmpty w = true
                      /\ lastNot Char.is_space w = true) as Hstr.
  { intros s. unfold normalizeCitekey.
    destruct (JS.isEmpty (JS.trim s)) eqn:Et; [done |].
    destruct (JS.isEmpty (stripAt (JS.trim s))) eqn:Ew; [done |].
    intros H. injection H as <-. exists (stripAt (JS.trim s)).
    split; [done |]. split; [unfold nonEmpty; by rewrite Ew |].
    pose proof (trimEnd_lastNot (JS.trimStart s)) as Hl.
    fold (JS.trim s) in Hl.
    destruct (stripAt_cases (JS.trim s)) as [(w & Ht & Hw) | [_ ->]]; [| done].
    rewrite Hw, Ht in *. destruct w; [done | exact Hl]. }
  destruct v; try done; [apply (Hstr (Num.toString n)) | apply Hstr].
Qed.

Lemma normalizeCitekey_trimmed s :
  normalizeCitekey (VStr s) =
  if JS.isEmpty (JS.trim s) then None
  else if JS.isEmpty (stripAt (JS.trim s)) then None
  else Some (JS.toLowerCase (stripAt (JS.trim s))).
Proof. reflexivity. Qed.

(** *** The keys of an array *)

Lemma indexKey_isNum i : isNum (Val.indexKey i) = true.
Proof.
  unfold Val.indexKey, NilZero.string_of_uint, isNum.
  destruct (Nat.to_uint i) eqn:E; try done;
    rewrite <- E; rewrite string_of_uint_digits, andb_true_r; by rewrite E.
Qed.

Lemma isNum_not_field k : isNum k = true ->
  isCitekeyField (JS.toLowerCase (JS.trim k)) = false.
Proof.
  intros Hk. pose proof Hk as [Hne Hd]%isNum_inv.
  assert (JS.trim k = k) as ->.
  { apply trim_id.
    - destruct k as [|c k]; [done |]. simpl in *.
      apply andb_true_iff in Hd as [Hc _]. by rewrite digit_not_space.
    - apply lastNot_all. eapply all_impl; [| exact Hd].
      intros c Hc. simpl. by rewrite digit_not_space. }
  assert (JS.toLowerCase k = k) as ->.
  { clear Hk Hne. unfold JS.toLowerCase. induction k as [|c k IH]; [done |].
    simpl in *. apply andb_true_iff in Hd as [Hc Hd].
    by rewrite toLower_digit, IH. }
  destruct (isCitekeyField k) eqn:E; [| done].
  apply isCitekeyField_true, elem_of_citekeyFields in E.
  rewrite !elem_of_cons in E.
  repeat (destruct E as [E | E]; [subst k; by vm_compute in Hk |]).
  by apply elem_of_nil in E.
Qed.

Lemma normalizeCitekey_lower s :
  normalizeCitekey (VStr (JS.toLowerCase s)) = normalizeCitekey (VStr s).
Proof.
  rewrite !normalizeCitekey_trimmed.
  rewrite trim_toLowerCase, stripAt_toLowerCase, !isEmpty_toLowerCase.
  by rewrite toLowerCase_idem.
Qed.

Lemma normalizeCitekey_padded ws1 s ws2 :
  JS.all Char.is_space ws1 = true -> JS.all Char.is_space ws2 = true ->
  normalizeCitekey (VStr (ws1 +:+ s +:+ ws2)) = normalizeCitekey (VStr s).
Proof.
  intros H1 H2. rewrite !normalizeCitekey_trimmed.
  by rewrite trim_padded.
Qed.

Lemma normalizeCitekey_at k :
  headNot Char.is_space k = true -> JS.startsWith k "@" = false ->
  normalizeCitekey (VStr ("@" +:+ k)) = normalizeCitekey (VStr k).
Proof.
  intros Hh Ha. rewrite !normalizeCitekey_trimmed.
  assert (JS.trim k = JS.trimEnd k) as Hk
    by (unfold JS.trim; by rewrite trimStart_id).
  assert (JS.trim ("@" +:+ k) = String "@" (JS.trimEnd k)) as ->.
  { unfold JS.trim. change ("@" +:+ k) with (String "@" k).
    rewrite trimStart_id by done. reflexivity. }
  rewrite Hk. change (stripAt (String "@" (JS.trimEnd k))) with (JS.trimEnd k).
  change (JS.isEmpty (String "@" (JS.trimEnd k))) with false. cbv iota.
  assert (stripAt (JS.trimEnd k) = JS.trimEnd k) as ->.
  { destruct (stripAt_cases (JS.trimEnd k)) as [(w & Ht & _) | [_ ->]]; [| done].
    destruct k as [|c k]; [done |]. simpl in Ht, Ha, Hh.
    destruct (Char.is_space c && JS.isEmpty (JS.trimEnd k)) eqn:E.
    - discriminate Ht.
    - injection Ht as -> _. discriminate Ha. }
  by destruct (JS.isEmpty (JS.trimEnd k)).
Qed.

Lemma collect_entries_array items :
  collectNormalizedCitekeys (Some (Val.entries (VArr items))) = [].
Proof.
  rewrite collect_firstOccurrences. unfold declaredKeys, Val.entries.
  enough (forall i, flat_map declaredByField (Val.indexed i items) = []) as ->
    by done.
  intros i. revert i. induction items as [|v items IH]; intros i; [done |].
  simpl. rewrite IH, app_nil_r. unfold declaredByField. simpl.
  by rewrite (isNum_not_field _ (indexKey_isNum i)).
Qed.

Lemma firstOccurrences_app l1 l2 :
  firstOccurrences (l1 ++ l2) =
  firstOccurrences l1 ++ filter (λ y, y ∉ firstOccurrences l1) (firstOccurrences l2).
Proof.
  rewrite <- !uniq_firstOccurrences. unfold uniq.
  rewrite fold_left_app, !fold_setAdd. simpl.
  rewrite (filter_all (λ y, y ∉ [])) by (intros y; apply not_elem_of_nil).
  by rewrite (filter_all (λ y, y ∉ [])) by (intros y; apply not_elem_of_nil).
Qed.

End MoreUtilsFacts.

Import MoreUtilsFacts.

(** X3. A record whose [id] is a string that [normalizeZoteroSelectPath]
    recognises resolves to the path of that id, whatever its key and group
    fields hold. *)
Theorem extract_prefers_id (Number_ofString : string -> number) entry s p :
  Val.isObject entry = true ->
  Val.get entry "id" = VStr s -> normalizeZoteroSelectPath s = Some p ->
  extractZoteroSelectPath Number_ofString entry = Some p.
Proof.
  intros Ho Hid Hn. by rewrite extract_object, Hid, Hn.
Qed.

Lemma extract_prefers_id_witness :
  extractZoteroSelectPath integerOfString
    (VObj [("key", VStr "ZZZZ"); ("groupID", VNum (NumInt 5 I));
           ("id", VStr "zotero://select/library/items/ABCD")])
  = Some "library/items/ABCD".
Proof.
  apply (extract_prefers_id integerOfString _ "zotero://select/library/items/ABCD");
    reflexivity.
Defined.

(** X4. [extractZoteroSelectPath] on a string is
    [normalizeZoteroSelectPath]; on any other value that is no object or
    array it is absent; on a record it is absent exactly when the record
    has no recognised string id and its key lookup [key || itemKey] is no
    string.  A path it returns is never empty. *)
Theorem extract_absent (Number_ofString : string -> number) :
  (forall s, extractZoteroSelectPath Number_ofString (VStr s)
             = normalizeZoteroSelectPath s)
  /\ (forall entry, Val.isObject entry = false -> (forall s, entry <> VStr s) ->
                    extractZoteroSelectPath Number_ofString entry = None)
  /\ (forall entry, Val.isObject entry = true ->
        (extractZoteroSelectPath Number_ofString entry = None <->
         (forall s, Val.get entry "id" = VStr s -> normalizeZoteroSelectPath s = None)
         /\ (forall k, Val.or (Val.get entry "key") (Val.get entry "itemKey")
                       <> VStr k)))
  /\ (forall entry p, extractZoteroSelectPath Number_ofString entry = Some p ->
                      p <> "").
Proof.
  split; [| split; [| split]].
  - intros [|c s]; reflexivity.
  - intros entry Ho Hs. destruct entry as [| |[]| [z|r| |[]] | s | |]; try done.
    + by destruct z as [|q|q].
    + by destruct (Hs s).
  - intros entry Ho. rewrite extract_object by done.
    rewrite <- pathByKey_None. split.
    + intros H. destruct (Val.get entry "id") as [| | | | s | |] eqn:Hid;
        try (split; [intros s' Hs'; discriminate Hs' | exact H]).
      destruct (normalizeZoteroSelectPath s) eqn:Hn; [done |].
      split; [| exact H]. intros s' Hs'. by injection Hs' as <-.
    + intros [Hid Hk]. destruct (Val.get entry "id") as [| | | | s | |]; try done.
      by rewrite (Hid s eq_refl).
  - intros entry p H%extract_nonEmpty. by destruct p.
Qed.

Lemma extract_absent_witness :
  extractZoteroSelectPath integerOfString
    (VObj [("id", VStr "not-a-match"); ("key", VNum (NumInt 7 I))]) = None.
Proof.
  apply (proj1 (proj2 (proj2 (extract_absent integerOfString)))
           (VObj [("id", VStr "not-a-match"); ("key", VNum (NumInt 7 I))]) eq_refl).
  split.
  - intros s H. injection H as <-. reflexivity.
  - intros k H. discriminate H.
Defined.

(** X5. [normalizeCitekey] does not depend on letter case, on white space
    around the text, or on one leading [@] before a text that starts with
    neither white space nor [@]. *)
Theorem normalizeCitekey_insensitive :
  (forall s, normalizeCitekey (VStr (JS.toLowerCase s)) = normalizeCitekey (VStr s))
  /\ (forall ws1 s ws2,
        JS.all Char.is_space ws1 = true -> JS.all Char.is_space ws2 = true ->
        normalizeCitekey (VStr (ws1 +:+ s +:+ ws2)) = normalizeCitekey (VStr s))
  /\ (forall k, headNot Char.is_space k = true -> JS.startsWith k "@" = false ->
                normalizeCitekey (VStr ("@" +:+ k)) = normalizeCitekey (VStr k)).
Proof.
  split; [exact normalizeCitekey_lower |].
  split; [exact normalizeCitekey_padded | exact normalizeCitekey_at].
Qed.

Lemma normalizeCitekey_insensitive_witness :
  normalizeCitekey (VStr (" " +:+ "@Doe2021" +:+ " ")) = normalizeCitekey (VStr "@Doe2021")
  /\ normalizeCitekey (VStr ("@" +:+ "Doe2021")) = normalizeCitekey (VStr "Doe2021").
Proof.
  split.
  - apply (proj1 (proj2 normalizeCitekey_insensitive) " " "@Doe2021" " "); reflexivity.
  - apply (proj2 (proj2 normalizeCitekey_insensitive) "Doe2021"); reflexivity.
Defined.

(** X6. A key returned by [normalizeCitekey] is non-empty, is its own
    lower-casing and does not end in white space.  Normalising it again
    returns it unchanged exactly when it starts with neither white space nor
    [@]; otherwise the second pass returns something else (a shorter key or
    nothing). *)
Theorem normalizeCitekey_canonical v c :
  normalizeCitekey v = Some c ->
  c <> "" /\ JS.toLowerCase c = c /\ lastNot Char.is_space c = true
  /\ (normalizeCitekey (VStr c) = Some c <->
      headNot Char.is_space c = true /\ JS.startsWith c "@" = false).
Proof.
  intros (w & -> & Hne & Hl)%normalizeCitekey_inv.
  assert (lastNot Char.is_space (JS.toLowerCase w) = true) as Hl'
    by (by rewrite lastNot_toLowerCase).
  split; [by destruct w |]. split; [apply toLowerCase_idem |]. split; [done |].
  assert (JS.toLowerCase (JS.toLowerCase w) = JS.toLowerCase w) as Hlow
    by apply toLowerCase_idem.
  assert (nonEmpty (JS.toLowerCase w) = true) as Hc by (by destruct w).
  clear Hne Hl. revert Hl' Hlow Hc. generalize (JS.toLowerCase w) as c.
  intros c Hl' Hlow Hc.
  rewrite normalizeCitekey_trimmed. split.
  - intros H.
    destruct (JS.isEmpty (JS.trim c)) eqn:Et; [done |].
    destruct (JS.isEmpty (stripAt (JS.trim c))) eqn:Es; [done |].
    injection H as H. apply (f_equal String.length) in H.
    rewrite length_toLowerCase in H.
    destruct c as [|a c']; [done |].
    destruct (Char.is_space a) eqn:Ea.
    + exfalso. unfold JS.trim in H. simpl JS.trimStart in H. rewrite Ea in H.
      pose proof (length_trimEnd (JS.trimStart c')).
      pose proof (length_trimStart c').
      destruct (stripAt_cases (JS.trimEnd (JS.trimStart c')))
        as [(u & Ht & Hu) | [_ Hu]]; rewrite Hu in H.
      * rewrite Ht in *. simpl in *. lia.
      * simpl in *. lia.
    + split; [simpl; by rewrite Ea |].
      rewrite trim_id in H by (try exact Hl'; simpl; by rewrite Ea).
      simpl. destruct (Ascii.eqb a "@") eqn:E; [| done].
      apply Ascii.eqb_eq in E as ->. simpl in H. lia.
  - intros [Hh Ha]. rewrite trim_id by done.
    destruct (stripAt_cases c) as [(u & Ht & _) | [_ ->]].
    + rewrite Ht in Ha. discriminate Ha.
    + destruct c; [done |]. simpl JS.isEmpty. cbv iota.
      by rewrite Hlow.
Qed.

Lemma normalizeCitekey_canonical_witness :
  normalizeCitekey (VStr "@@Doe") = Some "@doe"
  /\ normalizeCitekey (VStr "@doe") <> Some "@doe".
Proof.
  split; [reflexivity |].
  intros H.
  apply (proj2 (proj2 (proj2 (normalizeCitekey_canonical (VStr "@@Doe") "@doe" eq_refl)))) in H.
  destruct H as [_ H]. discriminate H.
Defined.

(** X7. Collecting the citation keys of a header is compositional in the
    order of its fields: the keys of [f1 ++ f2] are the keys of [f1]
    followed by those keys of [f2] that [f1] did not already give; and a
    field whose name is no alias can be dropped from anywhere. *)
Theorem collect_app :
  (forall f1 f2 : list (string * value),
     collectNormalizedCitekeys (Some (f1 ++ f2)) =
     collectNormalizedCitekeys (Some f1)
     ++ filter (λ c, c ∉ collectNormalizedCitekeys (Some f1))
               (collectNormalizedCitekeys (Some f2)))
  /\ (forall f1 k v f2,
        isCitekeyField (JS.toLowerCase (JS.trim k)) = false ->
        collectNormalizedCitekeys (Some (f1 ++ (k, v) :: f2)) =
        collectNormalizedCitekeys (Some (f1 ++ f2))).
Proof.
  split.
  - intros f1 f2. rewrite !collect_firstOccurrences.
    unfold declaredKeys. rewrite flat_map_app. apply firstOccurrences_app.
  - intros f1 k v f2 Hk. rewrite !collect_firstOccurrences.
    unfold declaredKeys. rewrite !flat_map_app. simpl.
    unfold declaredByField at 2. simpl. by rewrite Hk.
Qed.

Lemma collect_app_witness :
  collectNormalizedCitekeys
    (Some ([("citekey", VStr "a")] ++ ("title", VStr "b") :: [("zotero-key", VStr "c")]))
  = collectNormalizedCitekeys (Some ([("citekey", VStr "a")] ++ [("zotero-key", VStr "c")])).
Proof.
  apply (proj2 collect_app [("citekey", VStr "a")] "title" (VStr "b")
           [("zotero-key", VStr "c")]).
  reflexivity.
Defined.

(** ** The outbound resolver: cleaned titles, queries and the trace *)

Module OutboundFacts.

Import StrFacts ReFacts CharFacts MatchFacts NormalizeFacts CitekeyFacts
  TitleFacts MoreNormalizeFacts MoreUtilsFacts.
#[local] Arguments String.append : simpl nomatch.







(** *** The fields of a split on white space *)

Lemma splitSpaces_cons b s : exists f fs, splitSpaces b s = f :: fs.
Proof.
  revert b. induction s as [|c s IH]; intros b; [by exists "", [] |]. simpl.
  destruct (Char.is_space c).
  - destruct b; [apply IH | by eexists _, _].
  - destruct (IH false) as (f & fs & ->). by eexists _, _.
Qed.

Lemma splitSpaces_fields b s :
  Forall (λ f, JS.all notSpace f = true) (splitSpaces b s).
Proof.
  revert b. induction s as [|c s IH]; intros b; [by repeat constructor |].
  simpl. destruct (Char.is_space c) eqn:Ec.
  - destruct b; [apply IH |]. constructor; [done | apply IH].
  - pose proof (IH false) as H. destruct (splitSpaces false s) as [|f fs].
    + repeat constructor. unfold notSpace. simpl. by rewrite Ec.
    + apply Forall_cons in H as [Hf Hfs]. constructor; [| done].
      simpl. unfold notSpace at 1. by rewrite Ec.
Qed.

Lemma splitSpaces_prefix s f fs :
  splitSpaces false s = f :: fs -> exists r, s = f +:+ r.
Proof.
  revert f fs. induction s as [|c s IH]; intros f fs.
  - simpl. intros H. injection H as <- <-. by exists "".
  - simpl. destruct (Char.is_space c).
    + intros H. injection H as <- <-. by exists (String c s).
    + destruct (splitSpaces false s) as [|f0 fs0].
      * intros H. injection H as <- <-. by exists s.
      * intros H. injection H as <- <-.
        destruct (IH f0 fs0 eq_refl) as [r ->]. by exists r.
Qed.

(** Every field of the split lies in the text. *)
Lemma splitSpaces_substring b s f :
  f ∈ splitSpaces b s -> Substring f s.
Proof.
  revert b f. induction s as [|c s IH]; intros b f.
  - simpl. intros ->%list_elem_of_singleton. by exists "", "".
  - simpl. destruct (Char.is_space c) eqn:Ec.
    + assert (f ∈ splitSpaces true s -> Substring f (String c s)) as Hrec.
      { intros (a & z & ->)%IH. by exists (String c a), z. }
      destruct b; [done |].
      intros [-> | H]%elem_of_cons; [| by apply Hrec].
      by exists "", (String c s).
    + destruct (splitSpaces false s) as [|f0 fs] eqn:E.
      * by destruct (splitSpaces_cons false s) as (? & ? & ?); congruence.
      * intros [-> | H]%elem_of_cons.
        -- destruct (splitSpaces_prefix _ _ _ E) as [r ->]. by exists "", r.
        -- assert (f ∈ splitSpaces false s) as (a & z & ->)%IH
             by (rewrite E; by right).
           by exists (String c a), z.
Qed.

(** *** The loop over the queries *)

Lemma findTitleMatch_truthy candidates terms m :
  findTitleMatch candidates terms = Some m -> Val.truthy m = true.
Proof.
  intros (pre & post & _ & (title & Ht & _) & _)%findTitleMatch_Some.
  apply extractTitle_spec in Ht as [Ho _]. by apply HostFacts.truthy_of_object.
Qed.

Lemma searchQueries_miss Number_ofString itemSearch queries terms :
  (forall q, q ∈ queries -> findTitleMatch (itemSearch (VStr q)) terms = None) ->
  searchQueries Number_ofString itemSearch queries terms = (None, requestsFor queries).
Proof.
  induction queries as [|q queries IH]; intros H; [done |]. simpl.
  rewrite (H q) by (by left). rewrite IH by (intros q' Hq'; apply H; by right).
  done.
Qed.

Lemma searchQueries_hit Number_ofString itemSearch pre q post terms m :
  (forall q', q' ∈ pre -> findTitleMatch (itemSearch (VStr q')) terms = None) ->
  findTitleMatch (itemSearch (VStr q)) terms = Some m ->
  searchQueries Number_ofString itemSearch (pre ++ q :: post) terms =
  (extractZoteroSelectPath Number_ofString m, requestsFor (pre ++ [q])).
Proof.
  intros Hpre Hq. induction pre as [|q0 pre IH]; simpl.
  - by rewrite Hq, (findTitleMatch_truthy _ _ _ Hq).
  - rewrite (Hpre q0) by (by left).
    rewrite IH by (intros q' Hq'; apply Hpre; by right). done.
Qed.

Lemma opened_app t1 t2 : opened (t1 ++ t2) = opened t1 ++ opened t2.
Proof. unfold opened. apply omap_app. Qed.

Lemma opened_requests queries : opened (requestsFor queries) = [].
Proof. by induction queries. Qed.

(** The loop stops at the first query with a title match, or runs through
    all of them. *)
Lemma searchQueries_trace Number_ofString itemSearch queries terms :
  exists sent, (searchQueries Number_ofString itemSearch queries terms).2 = requestsFor sent.
Proof.
  induction queries as [|q queries [sent IH]]; [by exists [] |]. simpl.
  destruct (searchQueries Number_ofString itemSearch queries terms) as [r t'] eqn:E. simpl in IH. subst t'.
  destruct (findTitleMatch _ _) as [m|] eqn:Em.
  - rewrite (findTitleMatch_truthy _ _ _ Em). by exists [q].
  - by exists (q :: sent).
Qed.

Lemma searchQueries_nonEmpty Number_ofString itemSearch queries terms p :
  (searchQueries Number_ofString itemSearch queries terms).1 = Some p -> nonEmpty p = true.
Proof.
  induction queries as [|q queries IH]; [done |]. simpl.
  destruct (searchQueries Number_ofString itemSearch queries terms) as [r t'] eqn:E. simpl in IH.
  destruct (findTitleMatch _ _) as [m|] eqn:Em; [| exact IH].
  rewrite (findTitleMatch_truthy _ _ _ Em). simpl. apply extract_nonEmpty.
Qed.

End OutboundFacts.

Import OutboundFacts.



(** X9. [searchByTitle] sends its queries from a list without repetition
    and without empty text: the cleaned title first (when it is not empty),
    then its words.  The words are the non-empty maximal runs without white
    space of the cleaned title. *)
Theorem searchByTitle_queries (Number_ofString : string -> number)
    (itemSearch : value -> list value) cleanTitle :
  searchByTitle Number_ofString itemSearch cleanTitle
  = searchQueries Number_ofString itemSearch (titleQueries cleanTitle)
      (JS.toLowerCase <$> titleTerms cleanTitle)
  /\ NoDup (titleQueries cleanTitle)
  /\ (forall q, q ∈ titleQueries cleanTitle ->
        q <> "" /\ (q = cleanTitle \/ q ∈ titleTerms cleanTitle))
  /\ (forall t, t ∈ titleTerms cleanTitle ->
        t <> "" /\ JS.all notSpace t = true /\ Substring t cleanTitle)
  /\ (cleanTitle <> "" -> head (titleQueries cleanTitle) = Some cleanTitle).
Proof.
  split; [reflexivity |]. unfold titleQueries, titleTerms.
  rewrite uniq_firstOccurrences.
  split; [apply NoDup_filter, NoDup_firstOccurrences |].
  split; [| split].
  - intros q [Hq Hin]%list_elem_of_filter.
    split; [by destruct q |].
    rewrite elem_of_firstOccurrences, elem_of_cons in Hin. exact Hin.
  - intros t [Ht Hin]%list_elem_of_filter. split; [by destruct t |]. split.
    + pose proof (splitSpaces_fields false cleanTitle) as H.
      rewrite Forall_forall in H. by apply H.
    + by apply splitSpaces_substring in Hin.
  - intros Hne. simpl. rewrite filter_cons.
    destruct cleanTitle; [done |]. by rewrite decide_True.
Qed.

(** X10. [searchByTitle] stops at the first query whose answer holds a
    title match and returns what [extractZoteroSelectPath] makes of that
    match, even when it makes nothing of it: the later queries are not sent.
    When no query has a title match, all queries are sent and nothing is
    returned. *)
Theorem searchByTitle_first_match (Number_ofString : string -> number)
    (itemSearch : value -> list value) cleanTitle :
  let terms := JS.toLowerCase <$> titleTerms cleanTitle in
  (forall pre q post m,
     titleQueries cleanTitle = pre ++ q :: post ->
     (forall q', q' ∈ pre -> findTitleMatch (itemSearch (VStr q')) terms = None) ->
     findTitleMatch (itemSearch (VStr q)) terms = Some m ->
     searchByTitle Number_ofString itemSearch cleanTitle
     = (extractZoteroSelectPath Number_ofString m, requestsFor (pre ++ [q])))
  /\ ((forall q, q ∈ titleQueries cleanTitle ->
         findTitleMatch (itemSearch (VStr q)) terms = None) ->
      searchByTitle Number_ofString itemSearch cleanTitle
      = (None, requestsFor (titleQueries cleanTitle))).
Proof.
  intros terms.
  change (searchByTitle Number_ofString itemSearch cleanTitle)
    with (searchQueries Number_ofString itemSearch (titleQueries cleanTitle) terms).
  split.
  - intros pre q post m -> Hpre Hq. by apply searchQueries_hit.
  - apply searchQueries_miss.
Qed.

Lemma searchByTitle_first_match_witness :
  searchByTitle integerOfString libraryOfStudy "A Study"
  = (Some "library/items/ABCD2345",
     [Request (VStr "A Study"); Request (VStr "A"); Request (VStr "Study")]).
Proof.
  apply (proj1 (searchByTitle_first_match integerOfString libraryOfStudy "A Study")
           ["A Study"; "A"] "Study" []
           (VObj [("key", VStr "ABCD2345"); ("title", VStr "A Study of Things")])).
  - reflexivity.
  - intros q' Hq'. rewrite !elem_of_cons in Hq'.
    destruct Hq' as [-> | [-> | Hq']]; [reflexivity | reflexivity |].
    by apply elem_of_nil in Hq'.
  - reflexivity.
Defined.

(** X11. A run of [openInZotero] hands at most one address to
    [window.open]; the address is [zotero://select/] followed by a
    non-empty path, and the run then ends with the notice of the plan that
    found it.  A run that opens nothing ends with the notice that no item
    matches. *)
Theorem openInZotero_outcome (Number_ofString : string -> number)
    (itemSearch : value -> list value) file :
  let citekey := Val.or (fmGet (cachedFrontmatter file) "citekey")
                        (fmGet (cachedFrontmatter file) "zotero-key") in
  let t := openInZotero Number_ofString itemSearch file in
  (exists p, p <> ""
     /\ opened t = ["zotero://select/" +:+ p]
     /\ (last t = Some (Notify (OpeningItem citekey))
         \/ last t = Some (Notify FoundByTitle)))
  \/ (opened t = [] /\ last t = Some (Notify NoMatchingItem)).
Proof.
  assert (let t := titleFallback Number_ofString itemSearch file in
          (exists p, p <> "" /\ opened t = ["zotero://select/" +:+ p]
                     /\ last t = Some (Notify FoundByTitle))
          \/ (opened t = [] /\ last t = Some (Notify NoMatchingItem))) as Hfb.
  { unfold titleFallback, searchByTitle.
    set (qs := filter _ (uniq _)). set (ts := JS.toLowerCase <$> _).
    pose proof (searchQueries_trace Number_ofString itemSearch qs ts) as [sent Hs].
    pose proof (searchQueries_nonEmpty Number_ofString itemSearch qs ts) as Hp.
    destruct (searchQueries Number_ofString itemSearch qs ts) as [r t'].
    simpl in Hs, Hp. subst t'. cbv zeta.
    destruct r as [p|].
    - rewrite (Hp p eq_refl). left. exists p.
      split; [specialize (Hp p eq_refl); by destruct p |].
      rewrite !opened_app, opened_requests.
      split; [done |]. rewrite !app_assoc. by rewrite last_app.
    - right. rewrite !opened_app, opened_requests.
      split; [done |]. rewrite !app_assoc. by rewrite last_app. }
  cbv zeta in Hfb. intros citekey. cbv zeta. unfold openInZotero. fold citekey.
  assert (forall pre, opened pre = [] ->
            (exists p, p <> ""
               /\ opened (pre ++ titleFallback Number_ofString itemSearch file)
                  = ["zotero://select/" +:+ p]
               /\ (last (pre ++ titleFallback Number_ofString itemSearch file)
                   = Some (Notify (OpeningItem citekey))
                   \/ last (pre ++ titleFallback Number_ofString itemSearch file)
                      = Some (Notify FoundByTitle)))
            \/ (opened (pre ++ titleFallback Number_ofString itemSearch file) = []
                /\ last (pre ++ titleFallback Number_ofString itemSearch file)
                   = Some (Notify NoMatchingItem))) as Hpre.
  { intros pre Ho. destruct Hfb as [(p & Hp & Hop & Hl) | [Hop Hl]].
    - left. exists p. split; [done |].
      rewrite opened_app, Ho, Hop. split; [done |]. right.
      rewrite last_app, Hl. done.
    - right. rewrite opened_app, Ho, Hop. split; [done |].
      by rewrite last_app, Hl. }
  destruct (Val.truthy citekey); [| exact (Hpre [] eq_refl)].
  unfold searchZoteroByBBT, queryZoteroBBT.
  destruct (itemSearch citekey) as [|first rest].
  - exact (Hpre [Request citekey; Notify (CitekeyNotFound citekey)] eq_refl).
  - destruct (extractZoteroSelectPath Number_ofString first) as [p|] eqn:E.
    + rewrite (extract_nonEmpty _ _ _ E). left. exists p.
      split; [apply extract_nonEmpty in E; by destruct p |]. split; [done |].
      by left.
    + exact (Hpre [Request citekey; Notify (CitekeyNotFound citekey)] eq_refl).
Qed.

(** X12. When the header of the note declares a key under [citekey] or
    [zotero-key] and the first item the reference manager answers for it
    resolves to a path, [openInZotero] sends that one request, opens the
    item and stops: the other answers are not looked at and no title search
    is made. *)
Theorem openInZotero_key_hit (Number_ofString : string -> number)
    (itemSearch : value -> list value) file first rest p :
  let citekey := Val.or (fmGet (cachedFrontmatter file) "citekey")
                        (fmGet (cachedFrontmatter file) "zotero-key") in
  Val.truthy citekey = true ->
  itemSearch citekey = first :: rest ->
  extractZoteroSelectPath Number_ofString first = Some p ->
  openInZotero Number_ofString itemSearch file
  = [Request citekey; WindowOpen ("zotero://select/" +:+ p);
     Notify (OpeningItem citekey)].
Proof.
  intros citekey Ht Hs Hp. unfold openInZotero. fold citekey. rewrite Ht.
  unfold searchZoteroByBBT, queryZoteroBBT. rewrite Hs, Hp.
  by rewrite (extract_nonEmpty _ _ _ Hp).
Qed.

Lemma openInZotero_key_hit_witness :
  openInZotero integerOfString libraryOfDoe
    {| basename := "Reading notes";
       cachedFrontmatter := Some [("zotero-key", VStr "doe2021")];
       content := None |}
  = [Request (VStr "doe2021"); WindowOpen "zotero://select/library/items/ABCD2345";
     Notify (OpeningItem (VStr "doe2021"))].
Proof.
  apply (openInZotero_key_hit integerOfString libraryOfDoe
           {| basename := "Reading notes";
              cachedFrontmatter := Some [("zotero-key", VStr "doe2021")];
              content := None |}
           (VObj [("key", VStr "ABCD2345"); ("title", VStr "A Study of Things")])
           [] "library/items/ABCD2345"); reflexivity.
Defined.

(** ** The inbound resolver *)

Module InboundFacts.

Import StrFacts ReFacts CharFacts MatchFacts NormalizeFacts CitekeyFacts
  TitleFacts MoreNormalizeFacts MoreUtilsFacts.
#[local] Arguments String.append : simpl nomatch.

(** *** The pattern built from the title *)

Lemma searchFrom_spec k s :
  searchFrom k s = true <-> exists pre r, s = pre +:+ r /\ k r = true.
Proof.
  induction s as [|c s IH]; simpl.
  - rewrite orb_false_r. split.
    + intros H. by exists "", "".
    + intros (pre & r & Hs & Hr). destruct pre; [| done]. simpl in Hs.
      by subst r.
  - rewrite orb_true_iff, IH. split.
    + intros [H | (pre & r & -> & Hr)].
      * by exists "", (String c s).
      * by exists (String c pre), r.
    + intros ([|d pre] & r & Hs & Hr).
      * left. simpl in Hs. by subst r.
      * right. injection Hs as -> ->. by exists pre, r.
Qed.

Lemma afterGap_spec k s :
  afterGap k s = true <->
  exists gap r, s = gap +:+ r /\ JS.all notLineTerminator gap = true /\ k r = true.
Proof.
  induction s as [|c s IH]; simpl.
  - rewrite orb_false_r. split.
    + intros H. by exists "", "".
    + intros (gap & r & Hs & _ & Hr). destruct gap; [| done]. simpl in Hs.
      by subst r.
  - rewrite orb_true_iff, andb_true_iff, IH. split.
    + intros [H | [Hc (gap & r & -> & Hg & Hr)]].
      * by exists "", (String c s).
      * exists (String c gap), r. split; [done |]. split; [| done].
        simpl. unfold notLineTerminator at 1. by rewrite Hc, Hg.
    + intros ([|d gap] & r & Hs & Hg & Hr).
      * left. simpl in Hs. by subst r.
      * right. injection Hs as -> ->. simpl in Hg.
        apply andb_true_iff in Hg as [Hd Hg]. split; [done |]. by exists gap, r.
Qed.

Lemma lit_spec t s r :
  Re.lit t s = Some r <-> exists t', s = t' +:+ r /\ ciEq t t' = true.
Proof.
  split.
  - intros (q & Hs & Hq & _)%lit_inv. by exists q.
  - intros (t' & -> & Ht). by apply lit_app.
Qed.

Lemma termsAt_spec terms s : termsAt terms s = true <-> TermsAt terms s.
Proof.
  revert s. induction terms as [|t ts IH]; intros s; [done |].
  cbn [termsAt TermsAt]. split.
  - destruct (Re.lit t s) as [r|] eqn:E; [| done].
    apply lit_spec in E as (t' & -> & Ht). intros H. exists t', r.
    split; [done |]. split; [done |]. destruct ts as [|t2 ts]; [done |].
    apply afterGap_spec in H as (gap & r' & -> & Hg & Hr).
    exists gap, r'. split; [done |]. split; [done |]. by apply IH.
  - intros (t' & r & -> & Ht & H). rewrite (lit_app _ _ _ Ht).
    destruct ts as [|t2 ts]; [done |].
    destruct H as (gap & r' & -> & Hg & Hr). apply afterGap_spec.
    exists gap, r'. split; [done |]. split; [done |]. by apply IH.
Qed.

Lemma fuzzyTest_TermsAt terms name :
  fuzzyTest terms name = true <->
  exists pre r, name = pre +:+ r /\ TermsAt terms r.
Proof.
  unfold fuzzyTest. rewrite searchFrom_spec.
  split; intros (pre & r & Hs & Hr); exists pre, r; (split; [done |]);
    by apply termsAt_spec.
Qed.

(** *** The tokens of a title *)

Lemma splitOutside_cons keep b s : exists f fs, splitOutside keep b s = f :: fs.
Proof.
  revert b. induction s as [|c s IH]; intros b; [by exists "", [] |]. simpl.
  destruct (keep c).
  - destruct (IH false) as (f & fs & ->). by eexists _, _.
  - destruct b; [apply IH | by eexists _, _].
Qed.

Lemma tokens_any_start keep b s :
  filter (λ t, nonEmpty t) (splitOutside keep b s)
  = filter (λ t, nonEmpty t) (splitOutside keep false s).
Proof.
  destruct s as [|c s]; [done |]. simpl. destruct (keep c); [done |].
  by destruct b.
Qed.

Lemma ciEq_refl t : ciEq t t = true.
Proof.
  induction t as [|c t IH]; [done |]. simpl. rewrite IH, andb_true_r.
  by apply eqb_ci_canon.
Qed.

Lemma TermsAt_cons f ts rest :
  Gap ts rest -> TermsAt (f :: ts) (f +:+ rest).
Proof.
  intros HG. cbn [TermsAt]. exists f, rest. split; [done |].
  split; [apply ciEq_refl |]. destruct ts as [|t2 ts]; [done |].
  by destruct HG as [? | HG].
Qed.

Lemma Gap_tokens f fs rest :
  JS.all notLineTerminator f = true ->
  Gap (filter (λ t, nonEmpty t) fs) rest ->
  Gap (filter (λ t, nonEmpty t) (f :: fs)) (f +:+ rest).
Proof.
  intros Hf HG. rewrite filter_cons. destruct f as [|c f].
  - by rewrite decide_False by (by intros ?).
  - rewrite decide_True by done. right. exists "", (String c f +:+ rest).
    split; [done |]. split; [done |]. by apply TermsAt_cons.
Qed.

Lemma Gap_extend c ts s :
  notLineTerminator c = true -> Gap ts s -> Gap ts (String c s).
Proof.
  intros Hc [-> | (gap & r & -> & Hg & Hr)]; [by left |]. right.
  exists (String c gap), r. split; [done |]. split; [| done].
  simpl. by rewrite Hc, Hg.
Qed.

Lemma splitOutside_gap keep s f fs :
  JS.all notLineTerminator s = true ->
  splitOutside keep false s = f :: fs ->
  exists rest, s = f +:+ rest /\ JS.all notLineTerminator f = true
               /\ Gap (filter (λ t, nonEmpty t) fs) rest.
Proof.
  revert f fs. induction s as [|c s IH]; intros f fs Hs.
  - simpl. intros H. injection H as <- <-. exists "". split; [done |].
    split; [done | by left].
  - simpl in Hs. apply andb_true_iff in Hs as [Hc Hs]. simpl.
    destruct (splitOutside_cons keep false s) as (f' & fs' & E).
    destruct (IH f' fs' Hs E) as (rest' & -> & Hf' & HG).
    destruct (keep c).
    + rewrite E. intros H. injection H as <- <-. exists rest'.
      split; [done |]. split; [simpl; by rewrite Hc, Hf' | done].
    + intros H. injection H as <- <-. exists (String c (f' +:+ rest')).
      split; [done |]. split; [done |].
      rewrite tokens_any_start, E. apply Gap_extend; [done |].
      by apply Gap_tokens.
Qed.

Lemma tokens_found title :
  JS.all notLineTerminator title = true ->
  titleTokens title <> [] -> fuzzyTest (titleTokens title) title = true.
Proof.
  intros Hs Hne. unfold titleTokens in *.
  destruct (splitOutside_cons Char.is_alnum false title) as (f & fs & E).
  destruct (splitOutside_gap _ _ _ _ Hs E) as (rest & Ht & Hf & HG).
  rewrite E in *. apply (Gap_tokens f fs rest Hf) in HG.
  destruct HG as [HG | (gap & r & Hr & _ & HT)]; [done |].
  apply fuzzyTest_TermsAt. exists gap, r. split; [congruence | done].
Qed.

(** *** Plan A: the loop over the notes *)

Lemma readsOf_app parseYaml l1 l2 :
  readsOf parseYaml (l1 ++ l2) = readsOf parseYaml l1 ++ readsOf parseYaml l2.
Proof. unfold readsOf. apply flat_map_app. Qed.

Lemma findByCitekey_miss parseYaml key files :
  (forall f, f ∈ files -> key ∉ (getNormalizedCitekeys parseYaml f).1) ->
  findByCitekey parseYaml key files = (None, readsOf parseYaml files).
Proof.
  induction files as [|file files IH]; intros H; [done |]. simpl.
  pose proof (H file ltac:(by left)) as Hf.
  destruct (getNormalizedCitekeys parseYaml file) as [keys t] eqn:E.
  simpl in Hf. rewrite <- bucketIncludes_spec in Hf.
  destruct (bucketIncludes keys key); [done |].
  rewrite IH by (intros f Hin; apply H; by right).
  unfold readsOf. cbn [flat_map]. by rewrite ?E.
Qed.

Lemma findByCitekey_hit parseYaml key pre file post :
  (forall f, f ∈ pre -> key ∉ (getNormalizedCitekeys parseYaml f).1) ->
  key ∈ (getNormalizedCitekeys parseYaml file).1 ->
  findByCitekey parseYaml key (pre ++ file :: post)
  = (Some file, readsOf parseYaml (pre ++ [file])).
Proof.
  intros Hpre Hfile. induction pre as [|f0 pre IH]; simpl.
  - destruct (getNormalizedCitekeys parseYaml file) as [keys t] eqn:E.
    simpl in Hfile. apply bucketIncludes_spec in Hfile. rewrite Hfile.
    unfold readsOf. cbn [flat_map app]. by rewrite ?E, app_nil_r.
  - pose proof (Hpre f0 ltac:(by left)) as Hf.
    destruct (getNormalizedCitekeys parseYaml f0) as [keys t] eqn:E.
    simpl in Hf. rewrite <- bucketIncludes_spec in Hf.
    destruct (bucketIncludes keys key); [done |].
    rewrite IH by (intros f Hin; apply Hpre; by right).
    unfold readsOf. cbn [flat_map]. by rewrite ?E.
Qed.

(** The loop finds the first note that declares the key, or none does. *)
Lemma findByCitekey_cases parseYaml key files :
  (exists pre file post, files = pre ++ file :: post
     /\ (forall f, f ∈ pre -> key ∉ (getNormalizedCitekeys parseYaml f).1)
     /\ key ∈ (getNormalizedCitekeys parseYaml file).1)
  \/ (forall f, f ∈ files -> key ∉ (getNormalizedCitekeys parseYaml f).1).
Proof.
  induction files as [|f0 files IH]; [right; by intros f ?%elem_of_nil |].
  destruct (bucketIncludes (getNormalizedCitekeys parseYaml f0).1 key) eqn:E.
  - left. exists [], f0, files. split; [done |].
    split; [by intros f ?%elem_of_nil | by apply bucketIncludes_spec].
  - assert (key ∉ (getNormalizedCitekeys parseYaml f0).1) as Hf0
      by (rewrite <- bucketIncludes_spec; by rewrite E).
    destruct IH as [(pre & file & post & -> & Hpre & Hfile) | Hall].
    + left. exists (f0 :: pre), file, post. split; [done |]. split; [| done].
      intros f [-> | Hin]%elem_of_cons; [done | by apply Hpre].
    + right. intros f [-> | Hin]%elem_of_cons; [done | by apply Hall].
Qed.

Lemma find_spec {A} (p : A -> bool) (l : list A) :
  match List.find p l with
  | Some x => exists pre post, l = pre ++ x :: post /\ p x = true
                               /\ forall y, y ∈ pre -> p y = false
  | None => forall y, y ∈ l -> p y = false
  end.
Proof.
  induction l as [|a l IH]; simpl; [by intros y ?%elem_of_nil |].
  destruct (p a) eqn:Ea.
  - exists [], l. split; [done |]. split; [done | by intros y ?%elem_of_nil].
  - destruct (List.find p l) as [x|].
    + destruct IH as (pre & post & -> & Hx & Hpre). exists (a :: pre), post.
      split; [done |]. split; [done |].
      intros y [-> | Hin]%elem_of_cons; [done | by apply Hpre].
    + intros y [-> | Hin]%elem_of_cons; [done | by apply IH].
Qed.

End InboundFacts.

Import InboundFacts.

(** X14. With an incoming citation key that normalises to [key],
    [handleZoteroIncoming] opens the first note, in vault order, whose
    normalised keys include [key], whatever the title parameter is, and
    examines no note after it.  When no note declares the key it has
    examined every note, and the outcome is that of the title plan. *)
Theorem incoming_by_citekey (parseYaml : string -> option value) files citekey title key :
  normalizeCitekey (paramValue citekey) = Some key ->
  (forall pre file post,
     files = pre ++ file :: post ->
     (forall f, f ∈ pre -> key ∉ (getNormalizedCitekeys parseYaml f).1) ->
     key ∈ (getNormalizedCitekeys parseYaml file).1 ->
     handleZoteroIncoming parseYaml files citekey title
     = (OpenedByCiteKey file, readsOf parseYaml (pre ++ [file])))
  /\ ((forall f, f ∈ files -> key ∉ (getNormalizedCitekeys parseYaml f).1) ->
      handleZoteroIncoming parseYaml files citekey title
      = (findByTitle title files, readsOf parseYaml files)).
Proof.
  intros Hk. unfold handleZoteroIncoming. rewrite Hk.
  rewrite (normalizeCitekey_nonEmpty _ _ Hk). split.
  - intros pre file post -> Hpre Hfile.
    by rewrite (findByCitekey_hit parseYaml key pre file post Hpre Hfile).
  - intros Hall. by rewrite (findByCitekey_miss parseYaml key files Hall).
Qed.

Lemma incoming_by_citekey_witness :
  handleZoteroIncoming titleOnlyYaml
    [ {| basename := "First"; cachedFrontmatter := Some [("title", VStr "x")];
         content := None |};
      {| basename := "Second";
         cachedFrontmatter := Some [("Zotero-Key", VStr "@Doe2021")];
         content := None |};
      {| basename := "Third";
         cachedFrontmatter := Some [("citekey", VStr "doe2021")];
         content := None |} ]
    (Some " @DOE2021") (Some "Third")
  = (OpenedByCiteKey
       {| basename := "Second";
          cachedFrontmatter := Some [("Zotero-Key", VStr "@Doe2021")];
          content := None |},
     [CachedRead]).
Proof.
  refine (proj1 (incoming_by_citekey titleOnlyYaml _ (Some " @DOE2021")
                   (Some "Third") "doe2021" eq_refl)
            [ {| basename := "First"; cachedFrontmatter := Some [("title", VStr "x")];
                 content := None |} ] _
            [ {| basename := "Third";
                 cachedFrontmatter := Some [("citekey", VStr "doe2021")];
                 content := None |} ] eq_refl _ _).
  - intros f Hf. apply list_elem_of_singleton in Hf as ->.
    vm_compute. by intros ?%elem_of_nil.
  - vm_compute. by left.
Defined.

(** X15. What [handleZoteroIncoming] answers is justified by the vault: a
    note opened by citation key is a note of the vault whose normalised keys
    include the normalised incoming key; a note opened by title is a note
    of the vault whose name the pattern of the title's tokens matches, and
    then no note declares the incoming key; and when it reports that no
    note is linked, no note declares the key and no note's name matches the
    title's tokens. *)
Theorem incoming_sound (parseYaml : string -> option value) files citekey title :
  let undeclared :=
    forall key f, normalizeCitekey (paramValue citekey) = Some key ->
                  f ∈ files -> key ∉ (getNormalizedCitekeys parseYaml f).1 in
  match (handleZoteroIncoming parseYaml files citekey title).1 with
  | OpenedByCiteKey file =>
      exists key, normalizeCitekey (paramValue citekey) = Some key
                  /\ file ∈ files
                  /\ key ∈ (getNormalizedCitekeys parseYaml file).1
  | OpenedByTitle file =>
      undeclared
      /\ exists text, title = Some text /\ file ∈ files
                      /\ fuzzyTest (titleTokens text) (basename file) = true
  | LinkedNoteNotFound =>
      undeclared
      /\ forall text f, title = Some text -> f ∈ files ->
                        titleTokens text <> [] ->
                        fuzzyTest (titleTokens text) (basename f) = false
  end.
Proof.
  intros undeclared.
  assert (match findByTitle title files with
          | OpenedByCiteKey _ => False
          | OpenedByTitle file =>
              exists text, title = Some text /\ file ∈ files
                           /\ fuzzyTest (titleTokens text) (basename file) = true
          | LinkedNoteNotFound =>
              forall text f, title = Some text -> f ∈ files ->
                             titleTokens text <> [] ->
                             fuzzyTest (titleTokens text) (basename f) = false
          end) as Htitle.
  { unfold findByTitle. destruct title as [text|]; [| done].
    destruct text as [|c0 text0].
    - simpl. intros text f H. by injection H as <-.
    - set (text := String c0 text0).
      change (Val.truthy (paramValue (Some text))) with true. cbv iota.
      change (default "" (Some text)) with text.
      destruct (titleTokens text) as [|t ts] eqn:E.
      + simpl. intros text' f H. injection H as <-. by rewrite E.
      + simpl. rewrite <- E.
        pose proof (find_spec (λ file, fuzzyTest (titleTokens text) (basename file))
                      files) as Hf.
        destruct (List.find _ files) as [hit|].
        * destruct Hf as (pre & post & -> & Hhit & _). exists text.
          split; [done |]. split; [| done].
          apply elem_of_app. right. by left.
        * intros text' f H Hin _. injection H as <-. by apply Hf. }
  unfold handleZoteroIncoming.
  destruct (normalizeCitekey (paramValue citekey)) as [key|] eqn:Hk.
  - rewrite (normalizeCitekey_nonEmpty _ _ Hk).
    destruct (findByCitekey_cases parseYaml key files)
      as [(pre & file & post & -> & Hpre & Hfile) | Hall].
    + rewrite (findByCitekey_hit parseYaml key pre file post Hpre Hfile). simpl.
      exists key. split; [done |]. split; [| done].
      apply elem_of_app. right. by left.
    + rewrite (findByCitekey_miss parseYaml key files Hall). simpl.
      assert undeclared as Hu
        by (intros key' f H; injection H as <-; by apply Hall).
      by destruct (findByTitle title files).
  - simpl. assert undeclared as Hu by (by intros key' f H).
    by destruct (findByTitle title files).
Qed.

(** X16. The protocol handler answers with the missing-parameters notice,
    and does nothing else, exactly when each of the two parameters is
    absent or empty.  A citation key that is not empty but normalises to
    nothing (white space, or a lone [@]) passes that test: without a title the
    handler then reports that no note is linked, and examines no note. *)
Theorem protocolHandler_missing (parseYaml : string -> option value) files :
  (forall citekey title,
     protocolHandler parseYaml files citekey title = None <->
     (citekey = None \/ citekey = Some "") /\ (title = None \/ title = Some ""))
  /\ (forall key, key <> "" -> normalizeCitekey (VStr key) = None ->
        protocolHandler parseYaml files (Some key) None
        = Some (LinkedNoteNotFound, [])).
Proof.
  split.
  - intros citekey title. unfold protocolHandler.
    destruct citekey as [[|c k]|], title as [[|d t]|]; simpl; split; try done;
      try (intros _; split; by auto);
      try (by intros [[?|?] [?|?]]).
  - intros key Hne Hk. unfold protocolHandler, handleZoteroIncoming.
    simpl paramValue. rewrite Hk. by destruct key.
Qed.

Lemma protocolHandler_missing_witness :
  protocolHandler titleOnlyYaml [] (Some " @ ") None = Some (LinkedNoteNotFound, []).
Proof.
  apply (proj2 (protocolHandler_missing titleOnlyYaml []) " @ "); [| reflexivity].
  intros H. discriminate H.
Defined.

(** X17. The title plan's pattern matches a note's name exactly when the
    name holds, from some position on, the tokens in their order, each in
    any letter case, with only text free of line terminators between two of
    them. *)
Theorem fuzzyTest_spec terms name :
  fuzzyTest terms name = true <->
  exists pre r, name = pre +:+ r /\ TermsAt terms r.
Proof. apply fuzzyTest_TermsAt. Qed.

(** X18. A title on one line with at least one letter or digit matches
    itself, so a vault that holds a note named as the incoming title always
    has a note opened by title (that note, or an earlier one that matches
    too) when the citation-key plan finds nothing. *)
Theorem incoming_title_same_name title files file :
  JS.all notLineTerminator title = true ->
  titleTokens title <> [] ->
  file ∈ files -> basename file = title ->
  fuzzyTest (titleTokens title) title = true
  /\ exists hit, findByTitle (Some title) files = OpenedByTitle hit
                 /\ hit ∈ files
                 /\ fuzzyTest (titleTokens title) (basename hit) = true.
Proof.
  intros Hs Hne Hin Hb. pose proof (tokens_found title Hs Hne) as Hself.
  split; [done |]. unfold findByTitle.
  assert (Val.truthy (paramValue (Some title)) = true) as ->
    by (by destruct title).
  change (default "" (Some title)) with title.
  destruct (titleTokens title) as [|t ts] eqn:E; [done |]. simpl. rewrite <- E.
  pose proof (find_spec (λ f, fuzzyTest (titleTokens title) (basename f)) files) as Hf.
  destruct (List.find _ files) as [hit|].
  - destruct Hf as (pre & post & -> & Hhit & _). exists hit.
    split; [done |]. split; [| done]. apply elem_of_app. right. by left.
  - specialize (Hf file Hin). simpl in Hf. rewrite Hb in Hf. congruence.
Qed.

Lemma incoming_title_same_name_witness :
  fuzzyTest (titleTokens "A Study: of Things") "A Study: of Things" = true.
Proof.
  refine (proj1 (incoming_title_same_name "A Study: of Things"
                   [ {| basename := "A Study: of Things"; cachedFrontmatter := None;
                        content := None |} ]
                   {| basename := "A Study: of Things"; cachedFrontmatter := None;
                      content := None |} eq_refl _ _ eq_refl)).
  - intros H. discriminate H.
  - by left.
Defined.

(** ** The header block, file names, and the script's citation key *)

Module BlockFacts.

Import StrFacts ReFacts CharFacts MatchFacts NormalizeFacts CitekeyFacts
  TitleFacts HostFacts MoreNormalizeFacts MoreUtilsFacts.
#[local] Arguments String.append : simpl nomatch.

Lemma lazyBody_inv s body :
  lazyBody s = Some body ->
  exists post, s = body +:+ post /\ closesAt post = true
    /\ forall a b, body = a +:+ b -> b <> "" -> closesAt (b +:+ post) = false.
Proof.
  revert body. induction s as [|c s IH]; intros body; rewrite lazyBody_unfold.
  - destruct (closesAt "") eqn:E; [done | done].
  - destruct (closesAt (String c s)) eqn:E.
    + intros H. injection H as <-. exists (String c s).
      split; [done |]. split; [done |].
      intros a b Hab Hb. destruct a; simpl in Hab; [by subst b | done].
    + destruct (lazyBody s) as [body'|]; [| done]. simpl.
      intros H. injection H as <-.
      destruct (IH body' eq_refl) as (post & -> & Hpost & Hmin).
      exists post. split; [done |]. split; [done |].
      intros [|d a] b Hab Hb.
      * simpl in Hab. by subst b.
      * injection Hab as <- Hab. by apply (Hmin a b).
Qed.

Lemma lineBreakThenBody_inv s body :
  lineBreakThenBody s = Some body ->
  exists nl rest, s = nl +:+ rest /\ isLineBreak nl /\ lazyBody rest = Some body.
Proof.
  unfold lineBreakThenBody. destruct s as [|c s]; [done |].
  destruct (Ascii.eqb c CR) eqn:E1.
  - apply Ascii.eqb_eq in E1 as ->. destruct s as [|d s]; [done |].
    destruct (Ascii.eqb d LF) eqn:E2; [| done].
    apply Ascii.eqb_eq in E2 as ->. intros H.
    exists (String CR (String LF "")), s. split; [done |]. split; [by right | done].
  - destruct (Ascii.eqb c LF) eqn:E2; [| done].
    apply Ascii.eqb_eq in E2 as ->. intros H.
    exists (String LF ""), s. split; [done |]. split; [by left | done].
Qed.

Lemma afterOpen_inv s body :
  afterOpen s = Some body ->
  exists ws nl rest, s = ws +:+ nl +:+ rest /\ JS.all Char.is_space ws = true
    /\ isLineBreak nl /\ lazyBody rest = Some body.
Proof.
  induction s as [|c s IH]; [done |]. simpl.
  destruct (Char.is_space c) eqn:Ec; [| done].
  destruct (afterOpen s) as [body'|].
  - intros H. injection H as <-.
    destruct (IH eq_refl) as (ws & nl & rest & -> & Hws & Hnl & Hrest).
    exists (String c ws), nl, rest. split; [done |].
    split; [simpl; by rewrite Ec, Hws | done].
  - intros H.
    apply (lineBreakThenBody_inv (String c s)) in H as (nl & rest & Hs & Hnl & Hrest).
    by exists "", nl, rest.
Qed.

(** *** sanitizeFileName *)

Lemma sanitize_clean name : JS.all notForbidden (sanitizeFileName name) = true.
Proof.
  induction name as [|c name IH]; [done |]. simpl.
  destruct (isForbiddenInName c) eqn:Ec.
  - change (JS.all notForbidden (" - " +:+ sanitizeFileName name))
      with (JS.all notForbidden (sanitizeFileName name)). exact IH.
  - simpl. unfold notForbidden at 1. by rewrite Ec, IH.
Qed.



(** *** The citation key written in the extra field *)

Lemma citationKeyAt_inv s k :
  citationKeyAt s = Some k ->
  exists label ws post,
    s = label +:+ ws +:+ k +:+ post /\ ciEq "Citation Key:" label = true
    /\ JS.all Char.is_space ws = true /\ nonEmpty k = true
    /\ JS.all notSpace k = true /\ headNot notSpace post = true.
Proof.
  unfold citationKeyAt.
  destruct (Re.lit "Citation Key:" s) as [r|] eqn:El; [| done].
  apply InboundFacts.lit_spec in El as (label & -> & Hl). simpl.
  destruct (Re.span Char.is_space r) as [ws r'] eqn:Es.
  apply span_inv in Es as (-> & Hws & _). simpl.
  destruct (Re.many1 _ r') as [[k' post]|] eqn:Em; [| done].
  apply many1_inv in Em as (-> & Hne & Hk & Hpost). simpl.
  intros H. injection H as <-. by exists label, ws, post.
Qed.

Lemma citationKeyAt_standard ws k post :
  JS.all Char.is_space ws = true -> nonEmpty k = true ->
  JS.all notSpace k = true -> headNot notSpace post = true ->
  citationKeyAt ("Citation Key:" +:+ ws +:+ k +:+ post) = Some k.
Proof.
  intros Hws Hne Hk Hpost. unfold citationKeyAt.
  rewrite (lit_app "Citation Key:" "Citation Key:") by reflexivity. simpl.
  rewrite span_app; [simpl | done |].
  - unfold notSpace in *. by rewrite many1_app.
  - destruct k as [|c k]; [done |]. simpl in *.
    apply andb_true_iff in Hk as [Hc _]. unfold notSpace in Hc.
    by rewrite Hc.
Qed.

Lemma citationKeyMatch_inv extra k :
  citationKeyMatch extra = Some k ->
  exists pre r, extra = pre +:+ r /\ citationKeyAt r = Some k.
Proof.
  induction extra as [|c extra IH]; [done |]. cbn [citationKeyMatch].
  destruct (citationKeyAt (String c extra)) eqn:E.
  - intros H. injection H as <-. by exists "", (String c extra).
  - intros (pre & r & -> & Hr)%IH. by exists (String c pre), r.
Qed.

Lemma notSpace_trim k : JS.all notSpace k = true -> JS.trim k = k.
Proof.
  intros Hk. apply trim_id.
  - destruct k as [|c k]; [done |]. simpl in *.
    by apply andb_true_iff in Hk as [Hc _].
  - by apply lastNot_all.
Qed.

End BlockFacts.

Import BlockFacts.

(** X19. The block [extractFrontmatter] hands to the YAML parser lies in
    the note between an opening line of three hyphens, which may be followed
    by white space, and the first closing line break followed by three
    hyphens: the note is the three hyphens, white space, a line break, the
    block, and a rest that starts with a closing line, and no closing line
    starts inside the block. *)
Theorem frontmatterBlock_sound content block :
  frontmatterBlock content = Some block ->
  exists ws nl post,
    content = "---" +:+ ws +:+ nl +:+ block +:+ post
    /\ JS.all Char.is_space ws = true /\ isLineBreak nl
    /\ closesAt post = true
    /\ forall a b, block = a +:+ b -> b <> "" -> closesAt (b +:+ post) = false.
Proof.
  unfold frontmatterBlock.
  destruct (Re.lit "---" content) as [r|] eqn:El; [| done].
  apply HostFacts.lit_dashes in El as ->. simpl.
  intros (ws & nl & rest & -> & Hws & Hnl & Hrest)%afterOpen_inv.
  apply lazyBody_inv in Hrest as (post & -> & Hpost & Hmin).
  by exists ws, nl, post.
Qed.

Lemma frontmatterBlock_sound_witness :
  exists ws nl post,
    "---  " +:+ String LF ("citekey: a" +:+ String LF "--- text")
    = "---" +:+ ws +:+ nl +:+ "citekey: a" +:+ post
    /\ JS.all Char.is_space ws = true /\ isLineBreak nl
    /\ closesAt post = true
    /\ forall a b, "citekey: a" = a +:+ b -> b <> "" -> closesAt (b +:+ post) = false.
Proof.
  apply (frontmatterBlock_sound
           ("---  " +:+ String LF ("citekey: a" +:+ String LF "--- text"))
           "citekey: a").
  reflexivity.
Defined.



(** X21. A citation key the script takes from the extra field is the
    maximal run without white space that follows, after optional white
    space, the leftmost usable [Citation Key:] label (in any letter case).
    It is never empty and holds no white space, so the inbound
    [normalizeCitekey] makes of it its lower-casing without one leading
    [@], and nothing only when the key is a lone [@]. *)
Theorem citationKey_from_extra extra k :
  citationKeyMatch extra = Some k ->
  (exists pre label ws post,
     extra = pre +:+ label +:+ ws +:+ k +:+ post
     /\ ciEq "Citation Key:" label = true
     /\ JS.all Char.is_space ws = true /\ headNot notSpace post = true)
  /\ k <> "" /\ JS.all notSpace k = true
  /\ normalizeCitekey (VStr k)
     = if String.eqb k "@" then None else Some (JS.toLowerCase (stripAt k)).
Proof.
  intros (pre & r & -> & Hr)%citationKeyMatch_inv.
  apply citationKeyAt_inv in Hr as (label & ws & post & -> & Hl & Hws & Hne & Hk & Hp).
  split; [by exists pre, label, ws, post |].
  split; [by destruct k |]. split; [done |].
  rewrite normalizeCitekey_trimmed, (notSpace_trim k Hk).
  assert (JS.isEmpty k = false) as Hk0 by (by destruct k). rewrite Hk0.
  destruct (stripAt_cases k) as [(w & -> & ->) | [Hs ->]].
  - destruct w; reflexivity.
  - rewrite Hk0. destruct (String.eqb k "@") eqn:E; [| done].
    apply String.eqb_eq in E. rewrite E in Hs. discriminate Hs.
Qed.

Lemma citationKey_from_extra_witness :
  normalizeCitekey (VStr "Doe2021") = Some "doe2021".
Proof.
  apply (proj2 (proj2 (proj2
           (citationKey_from_extra ("tex.ids: x" +:+ String LF "citation key:  Doe2021 ;")
              "Doe2021" eq_refl)))).
Defined.

(** X22. An extra field that starts with the label [Citation Key:], white
    space and a key gives that key, whatever follows the key's white-space
    end; with the key Better BibTeX manages absent, the script sends it. *)
Theorem citationKey_standard_line ws k post keyInfo :
  JS.all Char.is_space ws = true -> k <> "" ->
  JS.all notSpace k = true -> headNot notSpace post = true ->
  Val.truthy (Val.or (Val.get keyInfo "citationKey") (Val.get keyInfo "citekey"))
  = false ->
  citationKeyMatch ("Citation Key:" +:+ ws +:+ k +:+ post) = Some k
  /\ scriptCitekey keyInfo ("Citation Key:" +:+ ws +:+ k +:+ post) = VStr k.
Proof.
  intros Hws Hne Hk Hp Hinfo.
  assert (citationKeyMatch ("Citation Key:" +:+ ws +:+ k +:+ post) = Some k) as Hm.
  { change ("Citation Key:" +:+ ws +:+ k +:+ post)
      with (String "C" ("itation Key:" +:+ ws +:+ k +:+ post)).
    cbn [citationKeyMatch].
    change (String "C" ("itation Key:" +:+ ws +:+ k +:+ post))
      with ("Citation Key:" +:+ ws +:+ k +:+ post).
    rewrite citationKeyAt_standard; [done | done | by destruct k | done | done]. }
  split; [done |]. unfold scriptCitekey. rewrite Hm.
  set (managed := Val.or (Val.get keyInfo "citationKey") (Val.get keyInfo "citekey"))
    in *.
  assert (Val.or managed (VStr "") = VStr "") as ->
    by (unfold Val.or; by rewrite Hinfo).
  reflexivity.
Qed.

Lemma citationKey_standard_line_witness :
  scriptCitekey VUndefined ("Citation Key:" +:+ " " +:+ "doe2021" +:+ String LF "tex.x: 1")
  = VStr "doe2021".
Proof.
  refine (proj2 (citationKey_standard_line " " "doe2021" (String LF "tex.x: 1")
                   VUndefined eq_refl _ eq_refl eq_refl eq_refl)).
  intros H. discriminate H.
Defined.

(** X23. The citation key the script sends is the empty text or a truthy
    value; it is the empty text exactly when Better BibTeX has no truthy key
    for the item and the extra field holds no usable [Citation Key:] label.
    A truthy key of Better BibTeX is sent as it is, whatever the extra field
    holds. *)
Theorem scriptCitekey_cases keyInfo extra :
  let managed := Val.or (Val.get keyInfo "citationKey") (Val.get keyInfo "citekey") in
  (Val.truthy managed = true -> scriptCitekey keyInfo extra = managed)
  /\ (scriptCitekey keyInfo extra = VStr ""
      \/ Val.truthy (scriptCitekey keyInfo extra) = true)
  /\ (scriptCitekey keyInfo extra = VStr "" <->
      Val.truthy managed = false /\ citationKeyMatch extra = None).
Proof.
  intros managed. unfold scriptCitekey. fold managed.
  assert (forall k, citationKeyMatch extra = Some k -> Val.truthy (VStr k) = true) as Hk.
  { intros k (pre & r & _ & Hr)%citationKeyMatch_inv.
    apply citationKeyAt_inv in Hr as (_ & _ & _ & _ & _ & _ & Hne & _).
    by destruct k. }
  destruct (Val.truthy managed) eqn:Hm.
  - assert (Val.or managed (VStr "") = managed) as ->
      by (unfold Val.or; by rewrite Hm).
    rewrite Hm. simpl. split; [done |]. split; [by right |].
    split; [| by intros [? _]]. intros H. rewrite H in Hm. done.
  - assert (Val.or managed (VStr "") = VStr "") as ->
      by (unfold Val.or; by rewrite Hm).
    simpl. split; [done |].
    destruct (citationKeyMatch extra) as [k|] eqn:E.
    + specialize (Hk k eq_refl). split; [by right |].
      split; [| by intros [_ ?]]. intros H. injection H as ->. done.
    + split; [by left |]. by split.
Qed.

(** ** The keys of a note and the incoming key *)

Module KeysFacts.

Import StrFacts ReFacts CharFacts MatchFacts NormalizeFacts CitekeyFacts
  TitleFacts HostFacts MoreNormalizeFacts MoreUtilsFacts InboundFacts BlockFacts.
#[local] Arguments String.append : simpl nomatch.

Lemma collect_canonical frontmatter :
  NoDup (collectNormalizedCitekeys frontmatter)
  /\ forall k, k ∈ collectNormalizedCitekeys frontmatter ->
       k <> "" /\ JS.toLowerCase k = k /\ lastNot Char.is_space k = true.
Proof.
  destruct frontmatter as [fields|];
    [| split; [constructor | by intros k ?%elem_of_nil]].
  rewrite collect_firstOccurrences. split; [apply NoDup_firstOccurrences |].
  intros k (f & v & e & _ & _ & _ & He)%elem_of_firstOccurrences%elem_of_declaredKeys.
  apply normalizeCitekey_inv in He as (w & -> & Hne & Hl).
  split; [by destruct w |]. split; [apply toLowerCase_idem |].
  by rewrite lastNot_toLowerCase.
Qed.

Lemma getNormalizedCitekeys_collect parseYaml file :
  exists frontmatter,
    (getNormalizedCitekeys parseYaml file).1 = collectNormalizedCitekeys frontmatter.
Proof.
  unfold getNormalizedCitekeys.
  destruct (0 <? length (collectNormalizedCitekeys (cachedFrontmatter file)))%nat.
  - by exists (cachedFrontmatter file).
  - destruct (content file) as [text|]; [| by exists None].
    destruct (extractFrontmatter parseYaml text) as [extracted t]. by exists extracted.
Qed.

(** *** The fields of a split outside a class *)

Lemma splitOutside_fields keep b s :
  Forall (λ f, JS.all keep f = true) (splitOutside keep b s).
Proof.
  revert b. induction s as [|c s IH]; intros b; [by repeat constructor |].
  simpl. destruct (keep c) eqn:Ec.
  - pose proof (IH false) as H. destruct (splitOutside keep false s) as [|f fs].
    + repeat constructor. simpl. by rewrite Ec.
    + apply Forall_cons in H as [Hf Hfs]. constructor; [| done].
      simpl. by rewrite Ec.
  - destruct b; [apply IH |]. constructor; [done | apply IH].
Qed.

Lemma splitOutside_prefix keep s f fs :
  splitOutside keep false s = f :: fs -> exists r, s = f +:+ r.
Proof.
  revert f fs. induction s as [|c s IH]; intros f fs.
  - simpl. intros H. injection H as <- <-. by exists "".
  - simpl. destruct (keep c).
    + destruct (splitOutside keep false s) as [|f0 fs0].
      * intros H. injection H as <- <-. by exists s.
      * intros H. injection H as <- <-.
        destruct (IH f0 fs0 eq_refl) as [r ->]. by exists r.
    + intros H. injection H as <- <-. by exists (String c s).
Qed.

Lemma splitOutside_substring keep b s f :
  f ∈ splitOutside keep b s -> Substring f s.
Proof.
  revert b f. induction s as [|c s IH]; intros b f.
  - simpl. intros ->%list_elem_of_singleton. by exists "", "".
  - simpl. destruct (keep c) eqn:Ec.
    + destruct (splitOutside keep false s) as [|f0 fs] eqn:E.
      * by destruct (splitOutside_cons keep false s) as (? & ? & ?); congruence.
      * intros [-> | H]%elem_of_cons.
        -- destruct (splitOutside_prefix _ _ _ _ E) as [r ->]. by exists "", r.
        -- assert (f ∈ splitOutside keep false s) as (a & z & ->)%IH
             by (rewrite E; by right).
           by exists (String c a), z.
    + assert (f ∈ splitOutside keep true s -> Substring f (String c s)) as Hrec.
      { intros (a & z & ->)%IH. by exists (String c a), z. }
      destruct b; [done |].
      intros [-> | H]%elem_of_cons; [| by apply Hrec].
      by exists "", (String c s).
Qed.

End KeysFacts.

Import KeysFacts.

(** X13. A header block that parses to a list declares no citation key:
    the fields of a list are its indices, and no index is an alias.  So a
    note whose indexed header gives no key and whose header block is a list
    has no key at all, after one read and one parse. *)
Theorem array_header_no_keys (parseYaml : string -> option value) file text block items :
  collectNormalizedCitekeys (cachedFrontmatter file) = [] ->
  content file = Some text ->
  frontmatterBlock text = Some block ->
  parseYaml block = Some (VArr items) ->
  collectNormalizedCitekeys (Some (Val.entries (VArr items))) = []
  /\ getNormalizedCitekeys parseYaml file = ([], [CachedRead; ParseYaml block]).
Proof.
  intros Hcache Hcontent Hblock Hparse.
  split; [apply collect_entries_array |].
  unfold getNormalizedCitekeys, extractFrontmatter.
  rewrite Hcache, Hcontent. simpl Nat.ltb. cbv iota.
  assert (JS.startsWith text "---" = true) as ->.
  { apply TitleFacts.startsWith_spec. unfold frontmatterBlock in Hblock.
    destruct (Re.lit "---" text) as [r|] eqn:El; [| done].
    apply HostFacts.lit_dashes in El. by exists r. }
  simpl negb. cbv iota. rewrite Hblock, Hparse.
  change (Val.truthy (VArr items) && Val.isObject (VArr items)) with true.
  cbv iota. by rewrite collect_entries_array.
Qed.

Lemma array_header_no_keys_witness :
  getNormalizedCitekeys listYaml
    {| basename := "Note"; cachedFrontmatter := None;
       content := Some ("---" +:+ String LF ("- doe2021" +:+ String LF "---")) |}
  = ([], [CachedRead; ParseYaml "- doe2021"]).
Proof.
  apply (proj2 (array_header_no_keys listYaml
                  {| basename := "Note"; cachedFrontmatter := None;
                     content := Some ("---" +:+ String LF ("- doe2021" +:+ String LF "---")) |}
                  ("---" +:+ String LF ("- doe2021" +:+ String LF "---"))
                  "- doe2021" [VStr "doe2021"]
                  eq_refl eq_refl eq_refl eq_refl)).
Defined.

(** X24. The keys [getNormalizedCitekeys] gives for a note, from the
    indexed header or from the re-parsed block, are canonical: without
    repetition, and each non-empty, equal to its own lower-casing and not
    ending in white space.  The inbound resolver therefore compares a
    canonical incoming key against canonical keys. *)
Theorem note_keys_canonical (parseYaml : string -> option value) file :
  let keys := (getNormalizedCitekeys parseYaml file).1 in
  NoDup keys
  /\ forall k, k ∈ keys ->
       k <> "" /\ JS.toLowerCase k = k /\ lastNot Char.is_space k = true.
Proof.
  cbv zeta. destruct (getNormalizedCitekeys_collect parseYaml file) as [fm ->].
  apply collect_canonical.
Qed.

(** X25. What [handleZoteroIncoming] does depends on the incoming citation
    key only through its canonical form: letter case, white space around
    the key, and one leading [@] before a key that starts with neither white
    space nor [@] make no difference to the outcome or to the notes
    examined. *)
Theorem incoming_key_insensitive (parseYaml : string -> option value) files title :
  (forall k, handleZoteroIncoming parseYaml files (Some (JS.toLowerCase k)) title
             = handleZoteroIncoming parseYaml files (Some k) title)
  /\ (forall ws1 k ws2,
        JS.all Char.is_space ws1 = true -> JS.all Char.is_space ws2 = true ->
        handleZoteroIncoming parseYaml files (Some (ws1 +:+ k +:+ ws2)) title
        = handleZoteroIncoming parseYaml files (Some k) title)
  /\ (forall k, headNot Char.is_space k = true -> JS.startsWith k "@" = false ->
        handleZoteroIncoming parseYaml files (Some ("@" +:+ k)) title
        = handleZoteroIncoming parseYaml files (Some k) title).
Proof.
  unfold handleZoteroIncoming. cbn [paramValue]. split; [| split].
  - intros k. by rewrite normalizeCitekey_lower.
  - intros ws1 k ws2 H1 H2. by rewrite normalizeCitekey_padded.
  - intros k Hh Ha. by rewrite normalizeCitekey_at.
Qed.

Lemma incoming_key_insensitive_witness :
  handleZoteroIncoming titleOnlyYaml [] (Some ("@" +:+ "Doe2021")) None
  = handleZoteroIncoming titleOnlyYaml [] (Some "Doe2021") None.
Proof.
  apply (proj2 (proj2 (incoming_key_insensitive titleOnlyYaml [] None)) "Doe2021");
    reflexivity.
Defined.

(** ** The tokens of a title, on all code units *)

Module UnitsFacts.

Import StrFacts CharFacts InboundFacts KeysFacts.
#[local] Arguments String.append : simpl nomatch.

Lemma tokenUnit_alnum c : isTokenUnit (N.of_nat (Char.code c)) = Char.is_alnum c.
Proof. each_char c. Qed.

Lemma tokenUnit_not_syntax u : isTokenUnit u = true -> isSyntaxUnit u = false.
Proof.
  unfold isTokenUnit, isSyntaxUnit. intros H. apply not_true_is_false.
  intros (k & Hk & Hu%N.eqb_eq)%existsb_exists. subst k.
  simpl in Hk.
  repeat (destruct Hk as [<- | Hk]; [by vm_compute in H |]). done.
Qed.

Lemma splitUnits_cons b s : exists f fs, splitUnits b s = f :: fs.
Proof.
  revert b. induction s as [|u s IH]; intros b; [by exists [], [] |]. simpl.
  destruct (isTokenUnit u).
  - destruct (IH false) as (f & fs & ->). by eexists _, _.
  - destruct b; [apply IH | by eexists _, _].
Qed.

Lemma splitUnits_fields b s :
  Forall (λ f, forallb isTokenUnit f = true) (splitUnits b s).
Proof.
  revert b. induction s as [|u s IH]; intros b; [by repeat constructor |].
  simpl. destruct (isTokenUnit u) eqn:Eu.
  - pose proof (IH false) as H. destruct (splitUnits false s) as [|f fs].
    + repeat constructor. simpl. by rewrite Eu.
    + apply Forall_cons in H as [Hf Hfs]. constructor; [| done].
      simpl. by rewrite Eu.
  - destruct b; [apply IH |]. constructor; [done | apply IH].
Qed.

Lemma splitUnits_prefix s f fs :
  splitUnits false s = f :: fs -> exists r, s = f ++ r.
Proof.
  revert f fs. induction s as [|u s IH]; intros f fs.
  - simpl. intros H. injection H as <- <-. by exists [].
  - simpl. destruct (isTokenUnit u).
    + destruct (splitUnits false s) as [|f0 fs0].
      * intros H. injection H as <- <-. by exists s.
      * intros H. injection H as <- <-.
        destruct (IH f0 fs0 eq_refl) as [r ->]. by exists r.
    + intros H. injection H as <- <-. by exists (u :: s).
Qed.

Lemma splitUnits_infix b s f :
  f ∈ splitUnits b s -> exists a z, s = a ++ f ++ z.
Proof.
  revert b f. induction s as [|u s IH]; intros b f.
  - simpl. intros ->%list_elem_of_singleton. by exists [], [].
  - simpl. destruct (isTokenUnit u) eqn:Eu.
    + destruct (splitUnits false s) as [|f0 fs] eqn:E.
      * by destruct (splitUnits_cons false s) as (? & ? & ?); congruence.
      * intros [-> | H]%elem_of_cons.
        -- destruct (splitUnits_prefix _ _ _ E) as [r ->]. by exists [], r.
        -- assert (f ∈ splitUnits false s) as (a & z & ->)%IH
             by (rewrite E; by right).
           by exists (u :: a), z.
    + assert (f ∈ splitUnits true s -> exists a z, u :: s = a ++ f ++ z) as Hrec.
      { intros (a & z & ->)%IH. by exists (u :: a), z. }
      destruct b; [done |].
      intros [-> | H]%elem_of_cons; [| by apply Hrec].
      by exists [], (u :: s).
Qed.

(** On a string of this development the split on code units is the split
    outside the ASCII letters and digits. *)
Lemma splitUnits_unitsOf b s :
  splitUnits b (unitsOf s) = unitsOf <$> splitOutside Char.is_alnum b s.
Proof.
  revert b. induction s as [|c s IH]; intros b; [done |].
  cbn [unitsOf splitUnits splitOutside]. rewrite tokenUnit_alnum.
  destruct (Char.is_alnum c).
  - rewrite IH. by destruct (splitOutside Char.is_alnum false s).
  - destruct b; by rewrite IH.
Qed.

Lemma length_unitsOf s : length (unitsOf s) = String.length s.
Proof. induction s; simpl; congruence. Qed.

Lemma tokens_unitsOf title :
  titleTokensOfUnits (unitsOf title) = unitsOf <$> titleTokens title.
Proof.
  unfold titleTokensOfUnits, titleTokens. rewrite splitUnits_unitsOf.
  induction (splitOutside Char.is_alnum false title) as [|f fs IH]; [done |].
  rewrite fmap_cons, !filter_cons, length_unitsOf.
  destruct f as [|c f].
  - rewrite !decide_False by (by intros ?). exact IH.
  - rewrite !decide_True by done. by rewrite fmap_cons, IH.
Qed.

End UnitsFacts.

Import UnitsFacts.

(** X26. The tokens the title plan builds its pattern from are non-empty
    runs, taken from the title, of the code units the split keeps: ASCII
    letters and digits, and the units U+3040-30FF and U+4E00-9FAF.  None of
    them is a syntax character of a pattern, so the joined pattern holds
    plain literals between its [.*].  On a title below U+0100 the tokens are
    the runs of ASCII letters and digits, which is what [titleTokens]
    computes. *)
Theorem titleTokens_shape :
  (forall title t, t ∈ titleTokensOfUnits title ->
     t <> [] /\ forallb isTokenUnit t = true
     /\ existsb isSyntaxUnit t = false
     /\ exists a z, title = a ++ t ++ z)
  /\ (forall title, titleTokensOfUnits (unitsOf title) = unitsOf <$> titleTokens title)
  /\ (forall title t, t ∈ titleTokens title ->
        t <> "" /\ JS.all Char.is_alnum t = true /\ Substring t title).
Proof.
  split; [| split; [exact tokens_unitsOf |]].
  - unfold titleTokensOfUnits. intros title t [Hne Hin]%list_elem_of_filter.
    split; [by destruct t |].
    assert (forallb isTokenUnit t = true) as Hall.
    { pose proof (splitUnits_fields false title) as H.
      rewrite Forall_forall in H. by apply H. }
    split; [done |]. split; [| by apply splitUnits_infix in Hin].
    apply not_true_is_false. intros (u & Hu & Hs)%existsb_exists.
    rewrite forallb_forall in Hall.
    by rewrite (tokenUnit_not_syntax u (Hall u Hu)) in Hs.
  - unfold titleTokens. intros title t [Hne Hin]%list_elem_of_filter.
    split; [by destruct t |]. split.
    + pose proof (splitOutside_fields Char.is_alnum false title) as H.
      rewrite Forall_forall in H. by apply H.
    + by apply splitOutside_substring in Hin.
Qed.

Lemma titleTokens_shape_witness :
  [0x3042; 0x3044]%N <> []
  /\ forallb isTokenUnit [0x3042; 0x3044]%N = true
  /\ existsb isSyntaxUnit [0x3042; 0x3044]%N = false
  /\ exists a z, [65; 58; 32; 0x3042; 0x3044; 0x3002; 0x672C]%N
                 = a ++ [0x3042; 0x3044]%N ++ z.
Proof.
  apply (proj1 titleTokens_shape [65; 58; 32; 0x3042; 0x3044; 0x3002; 0x672C]%N).
  vm_compute. right. by left.
Defined.

(** ** The earlier variant: a free name for the new note *)

Module NameFacts.

Import StrFacts ReFacts CharFacts MatchFacts NormalizeFacts CitekeyFacts
  MoreNormalizeFacts MoreUtilsFacts BlockFacts.
#[local] Arguments String.append : simpl nomatch.

Lemma sapp_inv_l a b c : a +:+ b = a +:+ c -> b = c.
Proof. induction a as [|x a IH]; simpl; [done |]. intros H. injection H as H. auto. Qed.

Lemma to_uint_nonnil n : Nat.to_uint n <> Decimal.Nil.
Proof.
  rewrite <- (DecimalNat.Unsigned.of_to n) at 1.
  rewrite DecimalNat.Unsigned.to_of. apply DecimalFacts.unorm_nonnil.
Qed.

Lemma indexKey_inj i j : Val.indexKey i = Val.indexKey j -> i = j.
Proof.
  unfold Val.indexKey. intros H. apply DecimalNat.Unsigned.to_uint_inj.
  pose proof (NilZero.usu _ (to_uint_nonnil i)) as Hi.
  pose proof (NilZero.usu _ (to_uint_nonnil j)) as Hj.
  rewrite H in Hi. congruence.
Qed.

Lemma digits_closed a b r r' :
  JS.all Char.is_digit a = true -> JS.all Char.is_digit b = true ->
  a +:+ String ")" r = b +:+ String ")" r' -> a = b.
Proof.
  revert b. induction a as [|x a IH]; intros [|y b] Ha Hb H; simpl in *.
  - done.
  - injection H as <- _. done.
  - injection H as -> _. done.
  - injection H as -> H. apply andb_true_iff in Ha as [_ Ha].
    apply andb_true_iff in Hb as [_ Hb]. by rewrite (IH b Ha Hb H).
Qed.

Lemma candidate_inj nf i j :
  candidate nf i +:+ ".md" = candidate nf j +:+ ".md" -> i = j.
Proof.
  assert (forall k, candidate nf (S k) +:+ ".md"
                    = nf +:+ " (" +:+ Val.indexKey (S k) +:+ String ")" ".md") as Hc.
  { intros k. unfold candidate, numbered. by rewrite !sapp_assoc. }
  destruct i as [|i], j as [|j]; [done | | |].
  - rewrite Hc. simpl candidate. intros H%sapp_inv_l. discriminate H.
  - rewrite Hc. simpl candidate. intros H%sapp_inv_l. discriminate H.
  - rewrite !Hc. intros H%sapp_inv_l%sapp_inv_l.
    apply indexKey_inj.
    pose proof (indexKey_isNum (S i)) as [_ Hi]%isNum_inv.
    pose proof (indexKey_isNum (S j)) as [_ Hj]%isNum_inv.
    by apply (digits_closed _ _ _ _ Hi Hj H).
Qed.

(** The loop returns the first free candidate, if its fuel reaches one. *)
Lemma finalNameFrom_spec existsPath nf fuel j :
  match finalNameFrom existsPath nf (candidate nf j) (S j) fuel with
  | Some final =>
      exists i, i < fuel /\ final = candidate nf (j + i)
        /\ existsPath (final +:+ ".md") = false
        /\ forall i', i' < i -> existsPath (candidate nf (j + i') +:+ ".md") = true
  | None => forall i, i < fuel -> existsPath (candidate nf (j + i) +:+ ".md") = true
  end.
Proof.
  revert j. induction fuel as [|fuel IH]; intros j; [intros i Hi; lia |].
  cbn [finalNameFrom].
  destruct (existsPath (candidate nf j +:+ ".md")) eqn:E.
  - change (numbered nf (S j)) with (candidate nf (S j)).
    specialize (IH (S j)).
    destruct (finalNameFrom existsPath nf (candidate nf (S j)) (S (S j)) fuel)
      as [final|].
    + destruct IH as (i & Hi & -> & Hfree & Hbefore). exists (S i).
      split; [lia |]. split; [f_equal; lia |].
      split; [exact Hfree |].
      intros [|i'] Hi'; [by rewrite Nat.add_0_r |].
      replace (j + S i') with (S j + i') by lia. apply Hbefore. lia.
    + intros [|i] Hi; [by rewrite Nat.add_0_r |].
      replace (j + S i) with (S j + i) by lia. apply IH. lia.
  - exists 0. rewrite Nat.add_0_r. split; [lia |]. split; [done |].
    split; [done |]. intros i' Hi'. lia.
Qed.

Lemma finalNameFrom_more existsPath nf final name counter fuel d :
  finalNameFrom existsPath nf name counter fuel = Some final ->
  finalNameFrom existsPath nf name counter (fuel + d) = Some final.
Proof.
  revert name counter. induction fuel as [|fuel IH]; intros name counter; [done |].
  cbn [finalNameFrom Nat.add]. destruct (existsPath (name +:+ ".md")); [apply IH | done].
Qed.

(** A vault that holds finitely many names leaves one of the first
    candidates free. *)
Lemma finalNameFrom_enough existsPath taken nf :
  (forall p, existsPath p = true -> p ∈ taken) ->
  exists final, finalNameFrom existsPath nf nf 1 (S (length taken)) = Some final.
Proof.
  intros Hfin. pose proof (finalNameFrom_spec existsPath nf (S (length taken)) 0) as H.
  change (candidate nf 0) with nf in H.
  destruct (finalNameFrom existsPath nf nf 1 (S (length taken))) as [final|];
    [by exists final |].
  exfalso.
  set (names := (λ i, candidate nf i +:+ ".md") <$> seq 0 (S (length taken))).
  assert (NoDup names) as Hnd.
  { apply (NoDup_fmap_2 (λ i, candidate nf i +:+ ".md")
             (Inj0 := fun i j => candidate_inj nf i j)).
    apply NoDup_seq. }
  assert (forall p, p ∈ names -> p ∈ taken) as Hincl.
  { intros p (i & -> & Hi)%list_elem_of_fmap.
    apply elem_of_seq in Hi. apply Hfin, (H i). lia. }
  pose proof (submseteq_length _ _ (NoDup_submseteq _ _ Hnd Hincl)) as Hlen.
  unfold names in Hlen. rewrite length_fmap, length_seq in Hlen. lia.
Qed.

Lemma notForbidden_digits s :
  JS.all Char.is_digit s = true -> JS.all notForbidden s = true.
Proof.
  apply all_impl. intros c. unfold notForbidden, isForbiddenInName. each_char c.
Qed.

Lemma candidate_clean nf j :
  JS.all notForbidden nf = true -> JS.all notForbidden (candidate nf j) = true.
Proof.
  intros Hnf. destruct j as [|j]; [done |]. unfold candidate, numbered.
  pose proof (indexKey_isNum (S j)) as [_ Hd%notForbidden_digits]%isNum_inv.
  by rewrite !all_app, Hnf, Hd.
Qed.

Lemma baseNameOf_nonEmpty citekey title : nonEmpty (baseNameOf citekey title) = true.
Proof. by destruct citekey as [[|]|], title as [[|]|]. Qed.

Lemma sanitize_nonEmpty name :
  nonEmpty name = true -> nonEmpty (sanitizeFileName name) = true.
Proof.
  destruct name as [|c name]; [done |]. simpl.
  by destruct (isForbiddenInName c).
Qed.

End NameFacts.

Import NameFacts.

(** X27. In the earlier variant, the name of the note Plan C creates is
    found after finitely many tests whenever the vault holds finitely many
    paths: it is the first of the candidates (the sanitised base name, then
    the base name followed by a number in brackets, counting from 1) whose
    path the vault does not hold.  The name is not empty and holds none of
    the forbidden code units. *)
Theorem newNoteName_fresh (existsPath : string -> bool) taken citekey title :
  (forall p, existsPath p = true -> p ∈ taken) ->
  let newFileName := sanitizeFileName (baseNameOf citekey title) in
  exists final j,
    (forall fuel, length taken < fuel ->
                  newNoteName existsPath citekey title fuel = Some final)
    /\ final = candidate newFileName j
    /\ existsPath (final +:+ ".md") = false
    /\ (forall i, i < j -> existsPath (candidate newFileName i +:+ ".md") = true)
    /\ final <> "" /\ JS.all notForbidden final = true.
Proof.
  intros Hfin nf.
  destruct (finalNameFrom_enough existsPath taken nf Hfin) as [final Hfinal].
  pose proof (finalNameFrom_spec existsPath nf (S (length taken)) 0) as H.
  change (candidate nf 0) with nf in H. rewrite Hfinal in H.
  destruct H as (j & _ & Hj & Hfree & Hbefore). simpl in Hj, Hbefore.
  exists final, j. split; [| split; [done |]; split; [done |]; split; [done |]].
  - intros fuel Hfuel. unfold newNoteName. fold nf.
    replace fuel with (S (length taken) + (fuel - S (length taken))) by lia.
    by apply finalNameFrom_more.
  - assert (JS.all notForbidden final = true) as Hclean
      by (rewrite Hj; apply candidate_clean, sanitize_clean).
    split; [| done]. rewrite Hj.
    pose proof (sanitize_nonEmpty _ (baseNameOf_nonEmpty citekey title)) as Hne.
    fold nf in Hne. destruct j; simpl; [by destruct nf |].
    unfold numbered. by destruct nf.
Qed.

Lemma newNoteName_fresh_witness :
  exists final j,
    (forall fuel, 2 < fuel ->
                  newNoteName vaultOfNotes None (Some "Notes") fuel = Some final)
    /\ final = candidate "Notes" j
    /\ vaultOfNotes (final +:+ ".md") = false
    /\ (forall i, i < j -> vaultOfNotes (candidate "Notes" i +:+ ".md") = true)
    /\ final <> "" /\ JS.all notForbidden final = true.
Proof.
  apply (newNoteName_fresh vaultOfNotes ["Notes.md"; "Notes (1).md"] None (Some "Notes")).
  intros p Hp. unfold vaultOfNotes in Hp.
  apply orb_true_iff in Hp as [->%String.eqb_eq | ->%String.eqb_eq].
  - by left.
  - right. by left.
Defined.
